(** * arcosLand: the fetch-and-publish script [.github/scripts/generate.js]

    The repository holds two variants of one Node.js script.  The first
    (lines 1-158) publishes the snapshot after the [minusOneDeg] offset and
    sends no alert; the second (lines 159-405) publishes the raw snapshot and
    sends a threshold alert.  Both share [fetchJSONWithRetry], [flattenKV],
    [esc] and the validation of the fetched document.

    This file embeds the script as executable definitions and proves the
    properties the specification states about it, and further properties
    of the code itself. *)

From Stdlib Require Import ZArith Lia List Bool Ascii String.
From Stdlib Require Import Sorted Permutation.
From Stdlib Require Import DecimalString DecimalN DecimalNat.
From Equations Require Import Equations.
Import ListNotations.

Local Open Scope string_scope.
Local Open Scope Z_scope.

(* ===================================================================== *)
(** * Strings *)
(* ===================================================================== *)

(** A JavaScript string is a sequence of UTF-16 code units.  It is kept here
    as the bytes of its UTF-8 form, as the string literals of this file are;
    a surrogate that has no partner is kept as the three bytes of its code
    point.  The characters the script itself looks for ([&], [<], [>], the
    point, the slash, the digits) are one byte and one code unit each. *)

(** The continuation bytes [10xxxxxx], and the six bits one carries. *)
Definition is_continuation (c : ascii) : bool :=
  ((128 <=? N_of_ascii c) && (N_of_ascii c <? 192))%N.

Definition continuation_bits (c : ascii) : N := (N_of_ascii c - 128)%N.

(** The code units of a string: a sequence of two or three bytes is one code
    unit, a sequence of four bytes (a character beyond U+FFFF) is the two
    units of its surrogate pair.  A byte that belongs to no such sequence
    occurs in the UTF-8 form of no string; it is given a value above every
    code unit. *)
Fixpoint units (s : string) : list N :=
  match s with
  | "" => []
  | String c0 s0 =>
      let b0 := N_of_ascii c0 in
      let stray := (65536 + b0 :: units s0)%N in
      if (b0 <? 128)%N then b0 :: units s0
      else if (b0 <? 192)%N then stray
      else
        match s0 with
        | "" => stray
        | String c1 s1 =>
            if negb (is_continuation c1) then stray
            else if (b0 <? 224)%N then
              ((b0 - 192) * 64 + continuation_bits c1 :: units s1)%N
            else
              match s1 with
              | "" => stray
              | String c2 s2 =>
                  if negb (is_continuation c2) then stray
                  else if (b0 <? 240)%N then
                    ((b0 - 224) * 4096 + continuation_bits c1 * 64
                     + continuation_bits c2 :: units s2)%N
                  else
                    match s2 with
                    | "" => stray
                    | String c3 s3 =>
                        let cp := ((b0 - 240) * 262144
                                   + continuation_bits c1 * 4096
                                   + continuation_bits c2 * 64
                                   + continuation_bits c3)%N in
                        if is_continuation c3 && (65536 <=? cp)%N
                           && (cp <? 1114112)%N
                        then (55296 + (cp - 65536) / 1024
                              :: 56320 + (cp - 65536) mod 1024
                              :: units s3)%N
                        else stray
                    end
              end
        end
  end.

(** The string is made of whole sequences: it has no stray byte. *)
Fixpoint well_formed (s : string) : bool :=
  match s with
  | "" => true
  | String c0 s0 =>
      let b0 := N_of_ascii c0 in
      if (b0 <? 128)%N then well_formed s0
      else if (b0 <? 192)%N then false
      else
        match s0 with
        | "" => false
        | String c1 s1 =>
            if negb (is_continuation c1) then false
            else if (b0 <? 224)%N then well_formed s1
            else
              match s1 with
              | "" => false
              | String c2 s2 =>
                  if negb (is_continuation c2) then false
                  else if (b0 <? 240)%N then well_formed s2
                  else
                    match s2 with
                    | "" => false
                    | String c3 s3 =>
                        let cp := ((b0 - 240) * 262144
                                   + continuation_bits c1 * 4096
                                   + continuation_bits c2 * 64
                                   + continuation_bits c3)%N in
                        is_continuation c3 && (65536 <=? cp)%N
                        && (cp <? 1114112)%N && well_formed s3
                    end
              end
        end
  end.

(** The order of two sequences of code units: the first unit that differs
    decides, and a sequence is below those it begins. *)
Fixpoint compare_units (a b : list N) : comparison :=
  match a, b with
  | [], [] => Eq
  | [], _ :: _ => Lt
  | _ :: _, [] => Gt
  | x :: a', y :: b' =>
      match (x ?= y)%N with
      | Eq => compare_units a' b'
      | c => c
      end
  end.

(** The order of strings in JavaScript ([a < b] on strings, and the order
    [Array.prototype.sort] uses when it is given no comparator): that of
    their code units.  Two byte strings with the same code units are the
    same JavaScript string; the bytes are compared to tell them apart. *)
Definition code_unit_compare (a b : string) : comparison :=
  match compare_units (units a) (units b) with
  | Eq => String.compare a b
  | c => c
  end.

Definition code_unit_leb (a b : string) : bool :=
  match code_unit_compare a b with
  | Gt => false
  | _ => true
  end.

(** The decimal numeral of a non-negative integer. *)
Definition dec (n : Z) : string :=
  NilZero.string_of_uint (N.to_uint (Z.to_N n)).

(** The decimal digit [0 <= d < 10] as a character. *)
Definition digit (d : Z) : ascii := ascii_of_N (48 + Z.to_N d).

(** [f] digits of [r], most significant first, zero-padded on the left. *)
Fixpoint frac_digits (f : nat) (r : Z) : string :=
  match f with
  | O => ""
  | S f' => frac_digits f' (r / 10) ++ String (digit (r mod 10)) ""
  end.

(** [n] copies of the character [c]. *)
Fixpoint repeat_char (c : ascii) (n : nat) : string :=
  match n with
  | O => ""
  | S n' => String c (repeat_char c n')
  end.

Definition is_digit (c : ascii) : bool :=
  ((48 <=? N_of_ascii c) && (N_of_ascii c <=? 57))%N.

Fixpoint all_digits (s : string) : bool :=
  match s with
  | "" => true
  | String c s' => is_digit c && all_digits s'
  end.

(** The part of [s] before the first character satisfying [p], and the part
    after it when there is one. *)
Fixpoint split_at (p : ascii -> bool) (s : string) : string * option string :=
  match s with
  | "" => ("", None)
  | String c s' =>
      if p c then ("", Some s')
      else let '(a, b) := split_at p s' in (String c a, b)
  end.

(** The value of a string of decimal digits ([None] when a character is not
    a digit; the empty string has value 0). *)
Definition digits_value (s : string) : option Z :=
  match NilEmpty.uint_of_string s with
  | Some d => Some (Z.of_N (N.of_uint d))
  | None => None
  end.

(* ===================================================================== *)
(** * Numbers *)
(* ===================================================================== *)

(** JavaScript numbers are IEEE 754 binary64 values.  Every finite double is
    an integer multiple of 2^-1074, so a finite number is kept as that
    integer (its value in _units_ of 2^-1074); arithmetic is exact on the
    units and then rounded to the nearest double, ties to even, as IEEE 754
    defines it.  The two zeros are identified: this script cannot tell them
    apart (it never divides, and [toFixed], [String], [JSON.stringify] and
    the comparisons treat them alike). *)
Module JsNumber.

Inductive number : Type :=
  | NaN
  | Infinity (negative : bool)
  | Finite (units : Z).

(** The number 1, in units. *)
Definition scale : Z := 2 ^ 1074.

(** The first magnitude (in units) beyond the largest finite double. *)
Definition overflow_units : Z := 2 ^ 2098.

(** The integer nearest to [p / q], ties to the even one ([q > 0]). *)
Definition rne (p q : Z) : Z :=
  let f := p / q in
  match 2 * (p mod q) ?= q with
  | Lt => f
  | Gt => f + 1
  | Eq => if Z.even f then f else f + 1
  end.

(** The magnitude [p / q] (in units, [p >= 0], [q > 0]) rounded to 53
    significant bits; magnitudes below 2^53 units (the subnormals and the
    first binade) round to an integer number of units. *)
Definition round_units (p q : Z) : Z :=
  let sh := Z.max 0 (Z.log2 (p / q) - 52) in
  rne p (q * 2 ^ sh) * 2 ^ sh.

(** The double nearest to [p / q] units. *)
Definition to_double (p q : Z) : number :=
  let n := if p <? 0 then - round_units (- p) q else round_units p q in
  if overflow_units <=? Z.abs n then Infinity (p <? 0) else Finite n.

(** The double nearest to [m * 10^e]: the value of a decimal literal. *)
Definition of_decimal (m e : Z) : number :=
  if 0 <=? e then to_double (m * 10 ^ e * scale) 1
  else to_double (m * scale) (10 ^ (- e)).

Definition of_Z (n : Z) : number := of_decimal n 0.

Definition isFinite (x : number) : bool :=
  match x with Finite _ => true | _ => false end.

(** [a - b]. *)
Definition sub (a b : number) : number :=
  match a, b with
  | NaN, _ | _, NaN => NaN
  | Infinity s, Infinity t => if Bool.eqb s t then NaN else Infinity s
  | Infinity s, Finite _ => Infinity s
  | Finite _, Infinity t => Infinity (negb t)
  | Finite x, Finite y => to_double (x - y) 1
  end.

(** [a < b]. *)
Definition ltb (a b : number) : bool :=
  match a, b with
  | NaN, _ | _, NaN => false
  | Infinity s, Infinity t => s && negb t
  | Infinity s, Finite _ => s
  | Finite _, Infinity t => negb t
  | Finite x, Finite y => x <? y
  end.

(** [a > b]. *)
Definition gtb (a b : number) : bool := ltb b a.

(** ** [Number::toString]: the shortest decimal that reads back as the number *)

(** The least [j >= j0] with [a * 10^j >= scale] (for [0 < a < scale]). *)
Fixpoint first_scale (fuel : nat) (j a : Z) : Z :=
  match fuel with
  | O => j
  | S fuel' => if scale <=? a * 10 ^ j then j else first_scale fuel' (j + 1) a
  end.

(** The decimal exponent [n] of a positive magnitude:
    [10^(n-1) <= a / scale < 10^n]. *)
Definition decimal_exponent (a : Z) : Z :=
  if scale <=? a then Z.of_nat (String.length (dec (a / scale)))
  else 1 - first_scale 400 1 a.

(** The [k]-digit candidates [(s, e)], value [s * 10^e], on either side of
    the magnitude [a]; the nearer one first (the even one on a tie). *)
Definition candidates (a n0 : Z) (k : Z) : list (Z * Z) :=
  let e := n0 - k in
  let '(p, q) := if 0 <=? e then (a, scale * 10 ^ e) else (a * 10 ^ (- e), scale) in
  let lo := p / q in
  let hi := if lo + 1 <? 10 ^ k then (lo + 1, e) else (10 ^ (k - 1), e + 1) in
  match 2 * (p mod q) ?= q with
  | Lt => [(lo, e); hi]
  | Gt => [hi; (lo, e)]
  | Eq => if Z.even lo then [(lo, e); hi] else [hi; (lo, e)]
  end.

Definition reads_back (a : Z) (c : Z * Z) : bool :=
  match of_decimal (fst c) (snd c) with
  | Finite b => a =? b
  | _ => false
  end.

(** The shortest digits: [(s, e)] with [s] of [k] digits, [k] least among
    those that read back as [a]; with [fuel] spent, the nearest [k]-digit
    decimal (17 digits identify every double). *)
Fixpoint shortest (fuel : nat) (k : Z) (a n0 : Z) : Z * Z :=
  match fuel with
  | O => hd (0, 0) (candidates a n0 k)
  | S fuel' =>
      match filter (reads_back a) (candidates a n0 k) with
      | c :: _ => c
      | [] => shortest fuel' (k + 1) a n0
      end
  end.

(** [Number::toString] of a positive finite magnitude, steps 5-10. *)
Definition ToString_pos (a : Z) : string :=
  let '(s, e) := shortest 16 1 a (decimal_exponent a) in
  let digits := dec s in
  let k := Z.of_nat (String.length digits) in
  let n := e + k in
  if (k <=? n) && (n <=? 21) then
    digits ++ repeat_char "0" (Z.to_nat (n - k))
  else if (0 <? n) && (n <=? 21) then
    substring 0 (Z.to_nat n) digits ++ "." ++
    substring (Z.to_nat n) (Z.to_nat (k - n)) digits
  else if (-6 <? n) && (n <=? 0) then
    "0." ++ repeat_char "0" (Z.to_nat (- n)) ++ digits
  else
    let x := (if n - 1 <? 0 then "-" else "+") ++ dec (Z.abs (n - 1)) in
    if k =? 1 then digits ++ "e" ++ x
    else substring 0 1 digits ++ "." ++
         substring 1 (Z.to_nat (k - 1)) digits ++ "e" ++ x.

(** [String(x)] for a number. *)
Definition ToString (x : number) : string :=
  match x with
  | NaN => "NaN"
  | Infinity false => "Infinity"
  | Infinity true => "-Infinity"
  | Finite n =>
      if n =? 0 then "0"
      else (if n <? 0 then "-" else "") ++ ToString_pos (Z.abs n)
  end.

(** ** [Number.prototype.toFixed] *)

(** [x.toFixed(f)]: for a magnitude below 10^21 the integer [N] nearest to
    [x * 10^f] (the larger on a tie) written with [f] digits after the point;
    from 10^21 on, [toFixed] hands over to [ToString]. *)
Definition toFixed (x : number) (f : nat) : string :=
  match x with
  | Finite n =>
      let s := if n <? 0 then "-" else "" in
      let a := Z.abs n in
      if 10 ^ 21 * scale <=? a then s ++ ToString_pos a
      else
        let p := 10 ^ Z.of_nat f in
        let N := (2 * p * a + scale) / (2 * scale) in
        s ++ dec (N / p) ++
        match f with
        | O => ""
        | S _ => "." ++ frac_digits f (N mod p)
        end
  | _ => ToString x
  end.

(** ** [Number(string)] *)

Definition is_e (c : ascii) : bool := ((c =? "e") || (c =? "E"))%char.
Definition is_point (c : ascii) : bool := (c =? ".")%char.

(** An optional sign, then the rest. *)
Definition split_sign (s : string) : bool * string :=
  match s with
  | String c s' =>
      if (c =? "-")%char then (true, s')
      else if (c =? "+")%char then (false, s')
      else (false, s)
  | "" => (false, "")
  end.

(** The exponent part after the [e]: an optional sign and at least one digit. *)
Definition exponent_value (s : string) : option Z :=
  let '(neg, ds) := split_sign s in
  match ds, digits_value ds with
  | String _ _, Some v => Some (if neg then - v else v)
  | _, _ => None
  end.

(** The unsigned decimal literal [int.frac e exp] as mantissa and exponent. *)
Definition decimal_literal (s : string) : option (Z * Z) :=
  let '(mant, ex) := split_at is_e s in
  let '(ip, fp) := split_at is_point mant in
  let fp := match fp with Some t => t | None => "" end in
  match (ip ++ fp)%string, digits_value ip, digits_value fp with
  | String _ _, Some i, Some f =>
      let l := Z.of_nat (String.length fp) in
      match ex with
      | None => Some (i * 10 ^ l + f, - l)
      | Some x =>
          match exponent_value x with
          | Some e => Some (i * 10 ^ l + f, e - l)
          | None => None
          end
      end
  | _, _, _ => None
  end.

Definition negate (x : number) : number :=
  match x with
  | NaN => NaN
  | Infinity s => Infinity (negb s)
  | Finite n => Finite (- n)
  end.

(** [Number(s)] for a string: the decimal literals, [Infinity] and the empty
    string are read; every other string is [NaN].  (White space and the
    [0x], [0o], [0b] literals are left out: the script applies [Number] only
    to results of [toFixed] and to ["N/A"].) *)
Definition StringToNumber (s : string) : number :=
  if (s =? "")%string then Finite 0
  else
    let '(neg, body) := split_sign s in
    let v :=
      if (body =? "Infinity")%string then Infinity false
      else match decimal_literal body with
           | Some (m, e) => of_decimal m e
           | None => NaN
           end in
    if neg then negate v else v.

End JsNumber.

Import JsNumber.

(* ===================================================================== *)
(** * JSON documents *)
(* ===================================================================== *)

(** What [JSON.parse] returns.  An object is the list of its own properties
    in the order [Object.keys] gives them; a key occurs once
    ([distinct_keys]). *)
#[local] Unset Elimination Schemes.
Inductive json : Type :=
  | JNull
  | JBool (b : bool)
  | JNum (n : number)
  | JStr (s : string)
  | JArr (items : list json)
  | JObj (props : list (string * json)).
#[local] Set Elimination Schemes.

(** [v !== null && typeof v === 'object']. *)
Definition is_object (v : json) : bool :=
  match v with
  | JArr _ | JObj _ => true
  | _ => false
  end.

(** The truthiness of a value ([!v] is its negation). *)
Definition truthy (v : json) : bool :=
  match v with
  | JNull => false
  | JBool b => b
  | JNum NaN => false
  | JNum (Finite n) => negb (n =? 0)
  | JNum (Infinity _) => true
  | JStr s => negb (s =? "")%string
  | JArr _ | JObj _ => true
  end.

Fixpoint lookup (k : string) (props : list (string * json)) : option json :=
  match props with
  | [] => None
  | (k', v) :: rest => if (k =? k')%string then Some v else lookup k rest
  end.

(** [v.k] for one of the names the script reads ([current], [value], [ts]):
    [None] is [undefined].  Only an object can own such a property; arrays,
    strings, numbers and booleans have none of these names. *)
Definition prop (v : json) (k : string) : option json :=
  match v with
  | JObj props => lookup k props
  | _ => None
  end.

(** The keys of an array: its indices, as decimal numerals. *)
Definition index_keys (n : nat) : list string :=
  map (fun i => dec (Z.of_nat i)) (seq 0 n).

(** [String(v)]. *)
Fixpoint js_String (v : json) : string :=
  match v with
  | JNull => "null"
  | JBool true => "true"
  | JBool false => "false"
  | JNum n => ToString n
  | JStr s => s
  | JArr items =>
      String.concat ","
        (map (fun x => match x with JNull => "" | _ => js_String x end) items)
  | JObj _ => "[object Object]"
  end.

(* ===================================================================== *)
(** * [minusOneDeg] (lines 33-44) *)
(* ===================================================================== *)

(** [Number((v - 1).toFixed(2))]. *)
Definition minus_one_fixed2 (v : number) : number :=
  StringToNumber (toFixed (sub v (of_Z 1)) 2).

(** [out[k] = x] on the object literal [out], for a key [out] does not own
    yet.  The name [__proto__] is the accessor every object literal inherits
    from [Object.prototype]: assigning to it runs the setter (which changes
    the prototype when [x] is an object and does nothing otherwise) and
    creates no own property, so the key is absent from [Object.keys(out)],
    [JSON.stringify(out)] and [flattenKV(out)]. *)
Definition assign (k : string) (x : json) (rest : list (string * json))
  : list (string * json) :=
  if (k =? "__proto__")%string then rest else (k, x) :: rest.

Fixpoint minusOneDeg (obj : json) : json :=
  match obj with
  | JArr items => JArr (map minusOneDeg items)
  | JObj props =>
      JObj ((fix each (ps : list (string * json)) : list (string * json) :=
               match ps with
               | [] => []
               | (k, v) :: ps' =>
                   assign k
                     match v with
                     | JNum n =>
                         if (k =? "value")%string && isFinite n
                         then JNum (minus_one_fixed2 n)
                         else v
                     | JArr _ | JObj _ => minusOneDeg v
                     | _ => v
                     end
                     (each ps')
               end) props)
  | _ => obj
  end.

(* ===================================================================== *)
(** * [flattenKV] (lines 46-57 and 200-215) *)
(* ===================================================================== *)

(** [Object.keys(obj).sort()] followed by [obj[k]]: the properties in
    ascending order of the code units of their keys (an insertion sort;
    keys are unique). *)
Fixpoint insert_key {A : Type} (e : string * A) (l : list (string * A))
  : list (string * A) :=
  match l with
  | [] => [e]
  | x :: l' =>
      if code_unit_leb (fst e) (fst x) then e :: l else x :: insert_key e l'
  end.

Definition sort_keys {A : Type} (l : list (string * A)) : list (string * A) :=
  fold_right insert_key [] l.

(** [prefix ? `${prefix}.${k}` : k]. *)
Definition join_path (prefix k : string) : string :=
  match prefix with
  | "" => k
  | _ => prefix ++ "." ++ k
  end.

(** [prefix.replace(/\.$/, '')]. *)
Fixpoint strip_final_dot (s : string) : string :=
  match s with
  | "" => ""
  | String "." "" => ""
  | String c s' => String c (strip_final_dot s')
  end.

(** What the loop does with the property [k] once its value is known: a
    function of the prefix and of the lines pushed so far. *)
Definition visitor : Type := string -> list string -> list string.

Definition push_leaf (v : json) : visitor :=
  fun p lines => (lines ++ [(p ++ "=" ++ js_String v)%string])%list.

Definition for_sorted_keys (entries : list (string * visitor)) : visitor :=
  fun prefix lines =>
    fold_left (fun acc e => snd e (join_path prefix (fst e)) acc)
              (sort_keys entries) lines.

Fixpoint flattenKV (obj : json) : visitor :=
  match obj with
  | JObj props =>
      for_sorted_keys
        (map (fun kv : string * json =>
                match kv with
                | (k, v) =>
                    (k, match v with
                        | JArr _ | JObj _ => flattenKV v
                        | _ => push_leaf v
                        end)
                end) props)
  | JArr items =>
      for_sorted_keys
        (combine (index_keys (List.length items))
           (map (fun v => match v with
                          | JArr _ | JObj _ => flattenKV v
                          | _ => push_leaf v
                          end) items))
  | _ =>
      fun prefix lines =>
        (lines ++ [(strip_final_dot prefix ++ "=" ++ js_String obj)%string])%list
  end.

(* ===================================================================== *)
(** * [esc] (lines 59 and 217-222) *)
(* ===================================================================== *)

(** [s.replace(/c/g, r)] for a single character [c]. *)
Fixpoint replace_all (c : ascii) (r : string) (s : string) : string :=
  match s with
  | "" => ""
  | String a s' =>
      (if (a =? c)%char then r else String a "") ++ replace_all c r s'
  end.

Definition esc (s : string) : string :=
  replace_all ">" "&gt;" (replace_all "<" "&lt;" (replace_all "&" "&amp;" s)).

(* ===================================================================== *)
(** * Effects *)
(* ===================================================================== *)

(** A thrown or rejected value: [new Error(message)], or the [TypeError]
    the language itself throws. *)
Inductive js_error : Type :=
  | Error (message : string)
  | TypeError (message : string).

(** [e.message]. *)
Definition message_of (e : js_error) : string :=
  match e with Error m | TypeError m => m end.

(** What the script does to the outside world, in order. *)
Inductive effect : Type :=
  | HttpsGet (attempt : Z) (url : string) (timeoutMs : Z)
      (** [https.get(url, ...)] issued by the [attempt]-th call of [tryOnce],
          with [req.setTimeout(timeoutMs, ...)] *)
  | SetTimeout (delay : Z)
      (** [setTimeout(tryOnce, delay)] *)
  | HttpsPost (hostname path body : string)
      (** [https.request] with method [POST], [req.write(body)] *)
  | Console (level text : string)
      (** [console.log], [console.warn], [console.error] *)
  | MkdirSync (dir : string)
  | WriteFileSync (file content : string).

(** A computation that performs effects and then returns or throws. *)
Definition io (A : Type) : Type := list effect * (js_error + A).

Definition ret {A : Type} (a : A) : io A := ([], inr a).

Definition throw {A : Type} (e : js_error) : io A := ([], inl e).

Definition emit (e : effect) : io unit := ([e], inr tt).

Definition bind {A B : Type} (c : io A) (k : A -> io B) : io B :=
  match c with
  | (t, inl e) => (t, inl e)
  | (t, inr a) => let '(t', r) := k a in (t ++ t', r)%list
  end.

(** [try { c } catch (e) { h e }]. *)
Definition try_catch {A : Type} (c : io A) (h : js_error -> io A) : io A :=
  match c with
  | (t, inl e) => let '(t', r) := h e in (t ++ t', r)%list
  | (t, inr a) => (t, inr a)
  end.

Notation "x <- c ;; k" := (bind c (fun x => k))
  (at level 61, c at next level, right associativity).
Notation "c ;;; k" := (bind c (fun _ => k))
  (at level 61, right associativity).

(** A settled promise. *)
Inductive settled (A : Type) : Type :=
  | Resolved (v : A)
  | Rejected (err : js_error).
Arguments Resolved {A} v.
Arguments Rejected {A} err.

(** [await p], for a promise that performed the effects [fst p]. *)
Definition await {A : Type} (p : list effect * settled A) : io A :=
  (fst p, match snd p with
          | Resolved v => inr v
          | Rejected e => inl e
          end).

(* ===================================================================== *)
(** * [fetchJSONWithRetry] (lines 14-31 and 172-198) *)
(* ===================================================================== *)

(** What [JSON.parse(data)] makes of a response body. *)
Inductive parse_result : Type :=
  | Parsed (v : json)
  | SyntaxError (message : string).

(** What one [https.get] meets. *)
Inductive attempt_outcome : Type :=
  | RequestError (err : js_error)
      (** the request emits ['error'] *)
  | TimedOut
      (** the socket stays idle for [timeoutMs]: the request is destroyed
          with [new Error('Timeout')], which it emits as ['error'] *)
  | Response (statusCode : Z) (body : parse_result)
      (** the response arrives and ends; [body] is its data as [JSON.parse]
          reads it *).

(** The outcome of an attempt: the parsed document, or the error handed to
    [fail]. *)
Definition attempt_result (o : attempt_outcome) : json + js_error :=
  match o with
  | RequestError err => inr err
  | TimedOut => inr (Error "Timeout")
  | Response statusCode body =>
      if negb (statusCode =? 0) && (400 <=? statusCode)
      then inr (Error ("HTTP " ++ (if statusCode <? 0 then "-" else "")
                               ++ dec (Z.abs statusCode)))
      else match body with
           | Parsed v => inl v
           | SyntaxError m => inr (Error ("Parse JSON: " ++ m))
           end
  end.

Section Fetch.

Variable server : Z -> attempt_outcome.
(** [server k] is what the [k]-th request meets. *)

Variables (url : string) (retries baseDelay timeoutMs : Z).

(** [tryOnce], with the value of [attempt] on entry as its argument.  It
    is called again only when [attempt + 1 < retries], so the distance from
    [attempt] to [retries] decreases. *)
Equations? tryOnce (attempt : Z) : list effect * settled json
  by wf (Z.to_nat (retries - attempt)) lt :=
  tryOnce attempt with attempt_result (server (attempt + 1)) := {
    | inl v => ([HttpsGet (attempt + 1) url timeoutMs], Resolved v)
    | inr err with Z_ge_lt_dec (attempt + 1) retries := {
        | left _ => ([HttpsGet (attempt + 1) url timeoutMs], Rejected err)
        | right _ =>
            let next := tryOnce (attempt + 1) in
            (HttpsGet (attempt + 1) url timeoutMs
               :: SetTimeout (baseDelay * 2 ^ (attempt + 1 - 1))
               :: fst next,
             snd next) } }.
Proof. lia. Qed.

End Fetch.

(** [fetchJSONWithRetry(url, retries = 3, baseDelay = 600, timeoutMs = 8000)];
    [None] is an argument left out. *)
Definition fetchJSONWithRetry (server : Z -> attempt_outcome) (url : string)
  (retries baseDelay timeoutMs : option Z) : list effect * settled json :=
  tryOnce server url
    (match retries with Some r => r | None => 3 end)
    (match baseDelay with Some b => b | None => 600 end)
    (match timeoutMs with Some t => t | None => 8000 end)
    0.

(* ===================================================================== *)
(** * The host: library functions and the world of one run *)
(* ===================================================================== *)

(** Library functions the script calls and this development leaves
    uninterpreted. *)
Record runtime : Type := {
  JSON_stringify : json -> string;
    (** [JSON.stringify(v)] *)
  JSON_stringify_indent2 : json -> string;
    (** [JSON.stringify(v, null, 2)] *)
  Date_toLocaleString : option json -> js_error + string;
    (** [new Date(ts).toLocaleString('pt-BR', { timeZone: 'America/Sao_Paulo' })]
        for the value the run holds: the text, or the error thrown.
        [new Date(ts)] converts an object to a primitive and throws a
        [TypeError] when it cannot: an object that owns a property
        [toString], which out of [JSON.parse] is no function, is such an
        object. *)
  inspect : js_error -> string;
    (** what [console.error] prints for the error object: its name, its
        message and its stack *)
  path_join : string -> string -> string
    (** [path.join(dir, name)] *)
}.

(** What the alert's one [https.request] meets. *)
Inductive post_outcome : Type :=
  | PostError (err : js_error)
      (** the request emits ['error'] *)
  | PostTimedOut
      (** the ['timeout'] event: the request is destroyed with
          [new Error('Timeout no envio de e-mail')] *)
  | PostResponse (statusCode : Z) (body : string)
      (** the response arrives and ends *).

(** What one run of the script finds around it. *)
Record world : Type := {
  RTDB_URL : option string;          (** [process.env.RTDB_URL] *)
  OUT_DIR_env : option string;       (** [process.env.OUT_DIR] *)
  BASE_URL_env : option string;      (** [process.env.BASE_URL] *)
  server : Z -> attempt_outcome;     (** what the k-th GET meets *)
  mail_server : post_outcome;        (** what the alert POST meets *)
  dir_exists : string -> bool;       (** [fs.existsSync] *)
  fs_throws : string -> option js_error;
    (** the error [mkdirSync] or [writeFileSync] throws on this path, if any *)
  now_iso : string                   (** [new Date().toISOString()] *)
}.

(** [process.env.X || fallback]: an unset or empty variable is falsy. *)
Definition env_or (v : option string) (fallback : string) : string :=
  match v with
  | Some (String c s) => String c s
  | _ => fallback
  end.

(** [s.replace(/\/$/, '')]: one final slash removed. *)
Fixpoint strip_final_slash (s : string) : string :=
  match s with
  | "" => ""
  | String "/" "" => ""
  | String c s' => String c (strip_final_slash s')
  end.

Definition OUT_DIR (w : world) : string := env_or (OUT_DIR_env w) "public".

Definition BASE_URL (w : world) : string :=
  strip_final_slash (env_or (BASE_URL_env w) "https://arcosland.pages.dev").

(** The double quote, and template text written with ['] in its place. *)
Definition dquote : ascii := ascii_of_nat 34.

Fixpoint q (s : string) : string :=
  match s with
  | "" => ""
  | String c s' => String (if (c =? "'")%char then dquote else c) (q s')
  end.

(* ===================================================================== *)
(** * Validation (lines 63-65 and 287-289) *)
(* ===================================================================== *)

(** [typeof v === 'number'] for a property that may be [undefined]. *)
Definition is_number (v : option json) : bool :=
  match v with
  | Some (JNum _) => true
  | _ => false
  end.

(** The truthiness of a property that may be [undefined]. *)
Definition truthy_prop (v : option json) : bool :=
  match v with
  | Some x => truthy x
  | None => false
  end.

(** The negation of the guard
    [!raw || !raw.current || typeof raw.current.value !== 'number' || !raw.current.ts]:
    the document passes. *)
Definition validate (raw : json) : bool :=
  truthy raw &&
  match prop raw "current" with
  | Some current =>
      truthy current && is_number (prop current "value")
      && truthy_prop (prop current "ts")
  | None => false
  end.

Definition check_shape (raw : json) : io unit :=
  if validate raw then ret tt
  else throw (Error "JSON inesperado: faltando current.ts/value").

(* ===================================================================== *)
(** * [sendAlertEmail] (lines 226-281) *)
(* ===================================================================== *)

Definition alert_subject (tempRaw : number) : string :=
  "[ArcosLand] ALERTA: " ++ toFixed tempRaw 2 ++ " °C".

Definition alert_text (tempRaw : number) (tsBr : string) : string :=
  "Alerta de temperatura em ArcosLand.

" ++ "Data/hora: " ++ tsBr ++ "
" ++ "Temperatura (sem ajuste): " ++ toFixed tempRaw 2 ++ " °C
" ++ "Limites configurados: mínimo 24 °C, máximo 26 °C.

" ++ "Origem: GitHub Actions (.github/scripts/generate.js).".

Definition alert_payload (tempRaw : number) (tsBr : string) : json :=
  JObj [
    ("personalizations",
       JArr [JObj [("to", JArr [JObj [("email", JStr "rodrigosbar@gmail.com")]])]]);
    ("from", JObj [("email", JStr "alerta@github-actions.local");
                   ("name", JStr "ArcosLand Monitor")]);
    ("subject", JStr (alert_subject tempRaw));
    ("content", JArr [JObj [("type", JStr "text/plain");
                            ("value", JStr (alert_text tempRaw tsBr))]])
  ].

(** How the promise settles on what the POST meets. *)
Definition post_result (o : post_outcome) : settled unit :=
  match o with
  | PostError err => Rejected err
  | PostTimedOut => Rejected (Error "Timeout no envio de e-mail")
  | PostResponse statusCode body =>
      if negb (statusCode =? 0) && (400 <=? statusCode)
      then Rejected (Error ("HTTP " ++ (if statusCode <? 0 then "-" else "")
                                    ++ dec (Z.abs statusCode) ++ ": " ++ body))
      else Resolved tt
  end.

Definition sendAlertEmail (rt : runtime) (w : world) (tempRaw : number)
  (tsBr : string) : list effect * settled unit :=
  ([HttpsPost "api.mailchannels.net" "/tx/v1/send"
      (JSON_stringify rt (alert_payload tempRaw tsBr))],
   post_result (mail_server w)).

(* ===================================================================== *)
(** * The artifacts (lines 68-154 and 313-401) *)
(* ===================================================================== *)

Definition nl : string := String (ascii_of_nat 10) "".

Definition headers_file : string :=
"/*
Cache-Control: no-store, no-cache, must-revalidate, max-age=0
Pragma: no-cache
Expires: 0
".

Definition robots_file : string :=
"User-agent: *
Allow: /
".

Definition sitemap_url (base path nowIso priority : string) : string :=
  "  <url><loc>" ++ base ++ path ++ "</loc><lastmod>" ++ nowIso
  ++ "</lastmod><changefreq>always</changefreq><priority>" ++ priority
  ++ "</priority></url>".

Definition sitemap (base nowIso : string) : string :=
  q "<?xml version='1.0' encoding='UTF-8'?>
<urlset xmlns='http://www.sitemaps.org/schemas/sitemap/0.9'>
" ++ sitemap_url base "/" nowIso "1.0" ++ nl
  ++ sitemap_url base "/data.json" nowIso "0.9" ++ nl
  ++ sitemap_url base "/current.txt" nowIso "0.9" ++ nl
  ++ sitemap_url base "/txt" nowIso "0.8" ++ nl
  ++ "</urlset>".

(** The JSON-LD description.  A property whose value is [undefined] is left
    out, as [JSON.stringify] leaves it out. *)
Definition jsonLd (currentStr : string) (ts : option json) : json :=
  JObj [
    ("@context", JStr "https://schema.org");
    ("@type", JStr "Dataset");
    ("name", JStr "ArcosLand Temperatura");
    ("description",
       JStr "Temperatura do aquário ArcosLand publicada periodicamente.");
    ("creator", JObj [("@type", JStr "Person"); ("name", JStr "Rodrigo Soares")]);
    ("variableMeasured",
       JObj ([("@type", JStr "PropertyValue");
              ("name", JStr "Temperatura da água");
              ("value", JNum (StringToNumber currentStr));
              ("unitCode", JStr "CEL")]
             ++ match ts with Some t => [("dateObserved", t)] | None => [] end
             ++ [("measurementTechnique", JStr "DS18B20 via NodeMCU ESP8266")])%list);
    ("distribution",
       JArr [JObj [("@type", JStr "DataDownload");
                   ("encodingFormat", JStr "application/json");
                   ("contentUrl", JStr "./data.json")];
             JObj [("@type", JStr "DataDownload");
                   ("encodingFormat", JStr "text/plain");
                   ("contentUrl", JStr "./current.txt")];
             JObj [("@type", JStr "DataDownload");
                   ("encodingFormat", JStr "text/plain");
                   ("contentUrl", JStr "./txt")]])
  ].

(** The page.  [heading] is the one place where the two variants' templates
    differ. *)
Definition html (rt : runtime) (base tsBr currentStr heading : string)
  (doc ld : json) : string :=
  q "<!DOCTYPE html>
<html lang='pt-BR'>
<head>
  <meta charset='utf-8'>
  <meta name='description' content='Temperatura atual do aquário ArcosLand, extraída do Firebase e publicada a cada 5 minutos.'>
  <meta name='robots' content='index,follow'>
  <meta name='viewport' content='width=device-width, initial-scale=1.0'>
  <title>ArcosLand — Temperatura Atual</title>
  <link rel='canonical' href='" ++ base ++ q "/'>
  <style>
    :root { color-scheme: light dark; }
    body { font-family: ui-monospace, SFMono-Regular, Menlo, Consolas, monospace; background:#f8f9fa; color:#222; margin:0; padding:24px; }
    h1 { font-family: system-ui, -apple-system, Segoe UI, Roboto, Ubuntu, Cantarell, Noto Sans; font-weight:600; text-align:center; margin: 0 0 12px; }
    p.lead { text-align:center; margin: 0 0 20px; }
    .card { background:#fff; border:1px solid #ddd; border-radius:12px; padding:16px; box-shadow:0 2px 8px rgba(0,0,0,.06); max-width:980px; margin:0 auto 16px; }
    pre { margin:0; overflow:auto; }
    .muted { color:#666; font-size:.9em; text-align:center; margin-top:12px; }
  </style>
</head>
<body>
  <h1>🌡️ Temperatura do aquário ArcosLand</h1>
  <p class='lead'>No dia <strong>" ++ tsBr
  ++ "</strong>, a temperatura do aquário é <strong>" ++ currentStr
  ++ q " °C</strong>.</p>

  <div class='card'>
    <h2 style='margin-top:0'>" ++ heading ++ "</h2>
    <pre>" ++ esc (JSON_stringify_indent2 rt doc) ++ q "</pre>
  </div>

  <p class='muted'>Atualizado automaticamente via GitHub Actions (a cada 5 minutos).</p>

  <script type='application/ld+json'>
" ++ esc (JSON_stringify rt ld) ++ "
  </script>
</body>
</html>".

Section Run.

Variable rt : runtime.
Variable w : world.

Definition mkdir_if_absent : io unit :=
  if dir_exists w (OUT_DIR w) then ret tt
  else match fs_throws w (OUT_DIR w) with
       | Some e => throw e
       | None => emit (MkdirSync (OUT_DIR w))
       end.

Definition writeFileSync (name content : string) : io unit :=
  let file := path_join rt (OUT_DIR w) name in
  match fs_throws w file with
  | Some e => throw e
  | None => emit (WriteFileSync file content)
  end.

(** [doc.current], for the reads [doc.current.value] and [doc.current.ts]:
    reading a property of [undefined] or [null] throws. *)
Definition read_current (doc : json) : io json :=
  match prop doc "current" with
  | Some JNull | None => throw (TypeError "Cannot read properties of undefined")
  | Some current => ret current
  end.

(** [Number.isFinite(v) ? v.toFixed(2) : 'N/A']. *)
Definition current_string (v : option json) : string :=
  match v with
  | Some (JNum n) => if isFinite n then toFixed n 2 else "N/A"
  | _ => "N/A"
  end.

(** [new Date(ts).toLocaleString(...)], which returns or throws. *)
Definition localized (ts : option json) : io string :=
  match Date_toLocaleString rt ts with
  | inr tsBr => ret tsBr
  | inl e => throw e
  end.

(** The three files of the data, in the order the script writes them
    (lines 71-73 and 318-320). *)
Definition write_data (doc : json) (currentStr : string) : io unit :=
  writeFileSync "current.txt" currentStr ;;;
  writeFileSync "txt" (String.concat nl (flattenKV doc "" []) ++ nl) ;;;
  writeFileSync "data.json" (JSON_stringify_indent2 rt doc ++ nl).

(** The page and the three files beside it, in the order the script writes
    them, and the closing log line (lines 76-154 and 322-401). *)
Definition write_site (doc : json) (currentStr tsBr heading : string)
  (ts : option json) : io unit :=
  writeFileSync "index.html"
    (html rt (BASE_URL w) tsBr currentStr heading doc (jsonLd currentStr ts)) ;;;
  writeFileSync "_headers" headers_file ;;;
  writeFileSync "robots.txt" robots_file ;;;
  writeFileSync "sitemap.xml" (sitemap (BASE_URL w) (now_iso w)) ;;;
  emit (Console "log" ("✅ OK: arquivos gerados em " ++ OUT_DIR w)).

(** The first variant's body (lines 61-154): the snapshot is published
    after [minusOneDeg]; no alert.  The timestamp is localized (line 75)
    after the three files of the data are written. *)
Definition main_offset (url : string) : io unit :=
  raw <- await (fetchJSONWithRetry (server w) url None None None) ;;
  check_shape raw ;;;
  let adj := minusOneDeg raw in
  mkdir_if_absent ;;;
  current <- read_current adj ;;
  let currentStr := current_string (prop current "value") in
  write_data adj currentStr ;;;
  tsBr <- localized (prop current "ts") ;;
  write_site adj currentStr tsBr "JSON completo (ajustado −1&nbsp;°C)"
    (prop current "ts").

(** The threshold check and the alert (lines 295-310). *)
Definition check_threshold (tempRaw : option json) (tsBr : string) : io unit :=
  match tempRaw with
  | Some (JNum t) =>
      if isFinite t then
        if ltb t (of_Z 24) || gtb t (of_Z 26) then
          emit (Console "log"
                  ("⚠️ Temperatura FORA do intervalo: " ++ toFixed t 2
                   ++ " °C — enviando e-mail...")) ;;;
          try_catch
            (await (sendAlertEmail rt w t tsBr) ;;;
             emit (Console "log"
                     "📧 Alerta de temperatura enviado para rodrigosbar@gmail.com"))
            (fun e =>
               emit (Console "error"
                       ("❌ Erro ao enviar e-mail de alerta: " ++ message_of e)))
        else
          emit (Console "log"
                  ("Temperatura dentro do intervalo: " ++ toFixed t 2 ++ " °C"))
      else
        emit (Console "warn"
                "Temperatura bruta não é número finito, ignorando alerta.")
  | _ =>
      emit (Console "warn"
              "Temperatura bruta não é número finito, ignorando alerta.")
  end.

(** The second variant's body (lines 285-401): the raw snapshot is
    published, after the threshold check.  The timestamp is localized
    (line 293) before the check. *)
Definition main_alert (url : string) : io unit :=
  raw <- await (fetchJSONWithRetry (server w) url None None None) ;;
  check_shape raw ;;;
  current <- read_current raw ;;
  let tempRaw := prop current "value" in
  tsBr <- localized (prop current "ts") ;;
  check_threshold tempRaw tsBr ;;;
  mkdir_if_absent ;;;
  let currentStr := current_string tempRaw in
  write_data raw currentStr ;;;
  write_site raw currentStr tsBr "JSON completo" (prop current "ts").

(** The whole script: the check of [RTDB_URL] (lines 9-12), the body, and
    the final [catch] (lines 155-158), where [console.error('❌ ERRO:', err)]
    prints the error object after the label.  The result is the effects and
    the exit status of the process. *)
Definition script (main : string -> io unit) : list effect * Z :=
  match RTDB_URL w with
  | Some (String c s) =>
      match main (String c s) with
      | (t, inr _) => (t, 0)
      | (t, inl e) => ((t ++ [Console "error" ("❌ ERRO: " ++ inspect rt e)])%list, 1)
      end
  | _ => ([Console "error" "RTDB_URL não definido"], 2)
  end.

End Run.

(** One run of each variant of the script. *)
Definition run_offset (rt : runtime) (w : world) : list effect * Z :=
  script rt w (main_offset rt w).

Definition run_alert (rt : runtime) (w : world) : list effect * Z :=
  script rt w (main_alert rt w).

(* ===================================================================== *)
(** * The vocabulary of the statements *)
(* ===================================================================== *)

(** ** Induction on documents, and paths into them *)

Section JsonInduction.

Variable P : json -> Prop.
Hypothesis HNull : P JNull.
Hypothesis HBool : forall b, P (JBool b).
Hypothesis HNum : forall n, P (JNum n).
Hypothesis HStr : forall s, P (JStr s).
Hypothesis HArr : forall items, Forall P items -> P (JArr items).
Hypothesis HObj :
  forall props, Forall (fun kv => P (snd kv)) props -> P (JObj props).

Fixpoint json_ind (d : json) : P d :=
  match d with
  | JNull => HNull
  | JBool b => HBool b
  | JNum n => HNum n
  | JStr s => HStr s
  | JArr items =>
      HArr items
        ((fix all (l : list json) : Forall P l :=
            match l with
            | [] => Forall_nil P
            | x :: l' => Forall_cons x (json_ind x) (all l')
            end) items)
  | JObj props =>
      HObj props
        ((fix all (l : list (string * json)) : Forall (fun kv => P (snd kv)) l :=
            match l with
            | [] => Forall_nil _
            | kv :: l' => Forall_cons kv (json_ind (snd kv)) (all l')
            end) props)
  end.

End JsonInduction.

(** One step into a document: a property of an object or an element of an
    array. *)
Inductive step : Type :=
  | Key (k : string)
  | Index (i : nat).

(** The value a path leads to, if any. *)
Fixpoint at_path (d : json) (p : list step) : option json :=
  match p with
  | [] => Some d
  | Key k :: p' =>
      match d with
      | JObj props =>
          match lookup k props with
          | Some v => at_path v p'
          | None => None
          end
      | _ => None
      end
  | Index i :: p' =>
      match d with
      | JArr items =>
          match nth_error items i with
          | Some v => at_path v p'
          | None => None
          end
      | _ => None
      end
  end.

(** The key a path ends with, when it ends with a key. *)
Fixpoint last_key (p : list step) : option string :=
  match p with
  | [] => None
  | s :: p' =>
      match p' with
      | [] => match s with Key k => Some k | Index _ => None end
      | _ :: _ => last_key p'
      end
  end.

Definition ends_with_value (p : list step) : bool :=
  match last_key p with
  | Some k => (k =? "value")%string
  | None => false
  end.

(** No step of the path is a key named [__proto__]. *)
Fixpoint proto_free (p : list step) : bool :=
  match p with
  | [] => true
  | Key k :: p' => negb (k =? "__proto__")%string && proto_free p'
  | Index _ :: p' => proto_free p'
  end.

(** ** Escaped text *)

(** What [esc] does to one character. *)
Definition esc_char (c : ascii) : string :=
  if (c =? "&")%char then "&amp;"
  else if (c =? "<")%char then "&lt;"
  else if (c =? ">")%char then "&gt;"
  else String c "".

(** [s] begins with [a]. *)
Fixpoint starts_with (a s : string) : bool :=
  match a, s with
  | "", _ => true
  | String x a', String y s' => (x =? y)%char && starts_with a' s'
  | String _ _, "" => false
  end.

(** Every [&] is followed by [amp;], [lt;] or [gt;]. *)
Fixpoint entities_only (s : string) : bool :=
  match s with
  | "" => true
  | String c s' =>
      (if (c =? "&")%char
       then starts_with "amp;" s' || starts_with "lt;" s' || starts_with "gt;" s'
       else true)
      && entities_only s'
  end.

(** The character [c] does not occur. *)
Fixpoint free_of (c : ascii) (s : string) : bool :=
  match s with
  | "" => true
  | String a s' => negb (a =? c)%char && free_of c s'
  end.

(** ** The kinds of effects, and the files of a run *)

(** The effects that create the output directory or a file in it. *)
Definition touches_files (e : effect) : bool :=
  match e with
  | MkdirSync _ | WriteFileSync _ _ => true
  | _ => false
  end.

(** The alert's request. *)
Definition is_post (e : effect) : bool :=
  match e with
  | HttpsPost _ _ _ => true
  | _ => false
  end.

(** The effects of fetching. *)
Definition is_fetch_effect (e : effect) : bool :=
  match e with
  | HttpsGet _ _ _ | SetTimeout _ => true
  | _ => false
  end.

(** The directory, when the run has to create it. *)
Definition directory (w : world) : list effect :=
  if dir_exists w (OUT_DIR w) then [] else [MkdirSync (OUT_DIR w)].

(** The seven files of a run that publishes [doc]. *)
Definition published (rt : runtime) (w : world) (doc : json)
  (currentStr tsBr heading : string) (ts : option json) : list effect :=
  let file := path_join rt (OUT_DIR w) in
  [ WriteFileSync (file "current.txt") currentStr;
    WriteFileSync (file "txt") (String.concat nl (flattenKV doc "" []) ++ nl);
    WriteFileSync (file "data.json") (JSON_stringify_indent2 rt doc ++ nl);
    WriteFileSync (file "index.html")
      (html rt (BASE_URL w) tsBr currentStr heading doc (jsonLd currentStr ts));
    WriteFileSync (file "_headers") headers_file;
    WriteFileSync (file "robots.txt") robots_file;
    WriteFileSync (file "sitemap.xml") (sitemap (BASE_URL w) (now_iso w)) ].

(** The three files of the data, which a run writes before the page. *)
Definition published_data (rt : runtime) (w : world) (doc : json)
  (currentStr : string) : list effect :=
  let file := path_join rt (OUT_DIR w) in
  [ WriteFileSync (file "current.txt") currentStr;
    WriteFileSync (file "txt") (String.concat nl (flattenKV doc "" []) ++ nl);
    WriteFileSync (file "data.json") (JSON_stringify_indent2 rt doc ++ nl) ].

(** The same world, with another fate for the alert's request. *)
Definition with_mail_server (w : world) (o : post_outcome) : world := {|
  RTDB_URL := RTDB_URL w;
  OUT_DIR_env := OUT_DIR_env w;
  BASE_URL_env := BASE_URL_env w;
  server := server w;
  mail_server := o;
  dir_exists := dir_exists w;
  fs_throws := fs_throws w;
  now_iso := now_iso w
|}.

(** ** The validation, as the specification reads it *)

(** The specification's reading of a valid document: it has a [current]
    object, [current.value] is a finite number, and [current.ts] is present
    with any value other than [null]. *)
Definition spec_valid (raw : json) : bool :=
  match prop raw "current" with
  | Some (JObj current) =>
      match lookup "value" current, lookup "ts" current with
      | Some (JNum v), Some ts =>
          isFinite v && match ts with JNull => false | _ => true end
      | _, _ => false
      end
  | _ => false
  end.

(** ** Numbers with two decimal places *)

(** An optional [-], then the rest. *)
Definition split_sign_minus (s : string) : bool * string :=
  match s with
  | String c s' => if (c =? "-")%char then (true, s') else (false, s)
  | "" => (false, "")
  end.

(** A number written with exactly two decimal places: an optional [-], one
    or more digits, a point, two digits. *)
Definition fixed2 (s : string) : bool :=
  match split_at is_point (snd (split_sign_minus s)) with
  | (String c ip, Some (String a (String b ""))) =>
      all_digits (String c ip) && is_digit a && is_digit b
  | _ => false
  end.

(** The magnitudes [toFixed] writes in fixed notation: below 10^21. *)
Definition below_1e21 (units : Z) : Prop := Z.abs units < 10 ^ 21 * scale.

(** The integer [toFixed(2)] writes for the magnitude [a]: the nearest to
    [100 * a / scale], the larger on a tie. *)
Definition hundredths (a : Z) : Z := (2 * 100 * a + scale) / (2 * scale).

(** ** What [minusOneDeg] does along a path *)

(** What [minusOneDeg] makes of the value [v] of the property [k]. *)
Definition value_rule (k : string) (v : json) : json :=
  match v with
  | JNum n =>
      if (k =? "value")%string && isFinite n then JNum (minus_one_fixed2 n) else v
  | JArr _ | JObj _ => minusOneDeg v
  | _ => v
  end.

Definition entries_rule (props : list (string * json)) : list (string * json) :=
  fold_right (fun kv rest => assign (fst kv) (value_rule (fst kv) (snd kv)) rest)
             [] props.

(** What [minusOneDeg] makes of the value a path leads to. *)
Definition value_at (p : list step) (x : json) : json :=
  match x with
  | JNum n =>
      if ends_with_value p && isFinite n then JNum (minus_one_fixed2 n) else x
  | JArr _ | JObj _ => minusOneDeg x
  | _ => x
  end.

(** ** The lines of [flattenKV] as paths and values *)

(** The lines of [flattenKV] as pairs of a path and a value: what the
    traversal pushes before [`${p}=${String(v)}`] joins the two. *)
Definition entry_visitor : Type := string -> list (string * string).

Definition leaf_entry (v : json) : entry_visitor :=
  fun p => [(p, js_String v)].

Definition entries_of_sorted (entries : list (string * entry_visitor))
  : entry_visitor :=
  fun prefix =>
    flat_map (fun e => snd e (join_path prefix (fst e))) (sort_keys entries).

Fixpoint flatten_entries (obj : json) : entry_visitor :=
  match obj with
  | JObj props =>
      entries_of_sorted
        (map (fun kv : string * json =>
                match kv with
                | (k, v) =>
                    (k, match v with
                        | JArr _ | JObj _ => flatten_entries v
                        | _ => leaf_entry v
                        end)
                end) props)
  | JArr items =>
      entries_of_sorted
        (combine (index_keys (List.length items))
           (map (fun v => match v with
                          | JArr _ | JObj _ => flatten_entries v
                          | _ => leaf_entry v
                          end) items))
  | _ => fun prefix => [(strip_final_dot prefix, js_String obj)]
  end.

Definition line_of (e : string * string) : string :=
  (fst e ++ "=" ++ snd e)%string.

(** The paths of the lines of [flattenKV(obj)]. *)
Definition flatten_paths (obj : json) : list string :=
  map fst (flatten_entries obj "").

(** The properties of a container, keyed as [Object.keys] keys them. *)
Definition members (d : json) : list (string * json) :=
  match d with
  | JObj props => props
  | JArr items => combine (index_keys (List.length items)) items
  | _ => []
  end.

(** What the loop pushes for one property. *)
Definition child_entries (v : json) : entry_visitor :=
  match v with
  | JArr _ | JObj _ => flatten_entries v
  | _ => leaf_entry v
  end.

Definition child_lines (v : json) : visitor :=
  match v with
  | JArr _ | JObj _ => flattenKV v
  | _ => push_leaf v
  end.

Definition on_snd {A B : Type} (g : A -> B) (kv : string * A) : string * B :=
  (fst kv, g (snd kv)).

(** The prefix with its point: what [join_path] puts before the key. *)
Definition path_stem (prefix : string) : string :=
  match prefix with
  | "" => ""
  | _ => (prefix ++ ".")%string
  end.

(** ** The order of keys and of paths *)

(** The order of the paths: that of their code units, as [<=] on strings
    and [sort()] have it. *)
Definition path_le (p q : string) : Prop := code_unit_leb p q = true.

Definition key_le {A : Type} (a b : string * A) : Prop :=
  code_unit_leb (fst a) (fst b) = true.

Definition key_lt {A : Type} (a b : string * A) : Prop :=
  code_unit_compare (fst a) (fst b) = Lt.

(** The code units of the key of [a] are below those of the key of [b]. *)
Definition units_lt {A : Type} (a b : string * A) : Prop :=
  compare_units (units (fst a)) (units (fst b)) = Lt.

(** A suffix that is empty or begins with a point. *)
Definition dotted (s : string) : Prop :=
  s = "" \/ exists s', s = String "." s'.

(** The paths of [v] under any prefix are in order, and under a prefix that
    is not empty each of them is the prefix, a point, and more. *)
Definition paths_in_order (v : json) : Prop :=
  forall prefix,
    well_formed prefix = true ->
    StronglySorted path_le (map fst (flatten_entries v prefix)) /\
    (is_object v = true -> prefix <> "" ->
     forall q, In q (map fst (flatten_entries v prefix)) ->
               exists s, q = (prefix ++ String "." s)%string).

(** ** Well-keyed documents *)

(** The code unit of [v] that follows [u], when [u] begins [v] and [v] is
    longer. *)
Fixpoint next_unit (u v : list N) : option N :=
  match u, v with
  | [], c :: _ => Some c
  | x :: u', y :: v' => if (x =? y)%N then next_unit u' v' else None
  | _, _ => None
  end.

(** The key [k2] continues the key [k1] with a character up to the point
    (U+002E): a space, [-], [+], the point itself and the like. *)
Definition continues_low (k1 k2 : string) : bool :=
  match next_unit (units k1) (units k2) with
  | Some c => (c <=? 46)%N
  | None => false
  end.

(** The two keys are the same JavaScript string. *)
Definition same_units (a b : string) : bool :=
  match compare_units (units a) (units b) with
  | Eq => true
  | _ => false
  end.

Fixpoint distinct_units (l : list string) : bool :=
  match l with
  | [] => true
  | x :: l' => negb (existsb (same_units x) l') && distinct_units l'
  end.

(** The key [k] of the value [v], among the keys [siblings] of its object:
    it is the UTF-8 form of a string; and when [v] is an object or an
    array, [k] is not empty and no sibling continues it with a character
    up to the point. *)
Definition key_fits (siblings : list string) (k : string) (v : json) : bool :=
  well_formed k &&
  (negb (is_object v) ||
   negb (k =? "")%string && forallb (fun k2 => negb (continues_low k k2)) siblings).

(** No string occurs twice in the list. *)
Fixpoint nodupb (l : list string) : bool :=
  match l with
  | [] => true
  | x :: l' => negb (existsb (String.eqb x) l') && nodupb l'
  end.

(** Every object of the document has distinct keys, each of which fits. *)
Fixpoint well_keyed (d : json) : bool :=
  match d with
  | JObj props =>
      distinct_units (map fst props) &&
      (fix all (l : list (string * json)) : bool :=
         match l with
         | [] => true
         | kv :: l' =>
             key_fits (map fst props) (fst kv) (snd kv) && well_keyed (snd kv)
             && all l'
         end) props
  | JArr items =>
      (fix all (l : list json) : bool :=
         match l with
         | [] => true
         | v :: l' => well_keyed v && all l'
         end) items
  | _ => true
  end.

(** The member [kv] of the container [d] fits: its key is well formed; and
    when the member is a container itself, its key is not empty and no key
    of [d] continues it with a character up to the point. *)
Definition fitting_member (d : json) (kv : string * json) : Prop :=
  well_formed (fst kv) = true /\
  (is_object (snd kv) = true ->
   fst kv <> "" /\
   forall kv2, In kv2 (members d) -> continues_low (fst kv) (fst kv2) = false).

(** ** The failures of a request, as the specification lists them *)

(** The four ways an attempt of the fetch fails, with the error each hands
    to [fail]: the request emits an error; the socket times out; the
    response has a status of 400 or more; the body of a response with a
    lower status does not parse. *)
Definition attempt_fails (o : attempt_outcome) (err : js_error) : Prop :=
  o = RequestError err
  \/ (o = TimedOut /\ err = Error "Timeout")
  \/ (exists statusCode body,
        o = Response statusCode body /\ 400 <= statusCode /\
        err = Error ("HTTP " ++ dec statusCode))
  \/ (exists statusCode m,
        o = Response statusCode (SyntaxError m) /\ statusCode < 400 /\
        err = Error ("Parse JSON: " ++ m)).

(** The three ways the alert's request fails, with the error that rejects
    the promise: the request emits an error; it times out; the response has
    a status of 400 or more. *)
Definition post_fails (o : post_outcome) (err : js_error) : Prop :=
  o = PostError err
  \/ (o = PostTimedOut /\ err = Error "Timeout no envio de e-mail")
  \/ (exists statusCode body,
        o = PostResponse statusCode body /\ 400 <= statusCode /\
        err = Error ("HTTP " ++ dec statusCode ++ ": " ++ body)).

(** ** Example documents, runtime and worlds *)

(** A runtime and worlds for the examples: the uninterpreted functions
    return fixed text, the database answers the first request with [doc],
    the output directory is absent and the file system accepts every write.
    The date of an object that owns a property [toString] is the
    [TypeError] of the conversion to a primitive; that of another object is
    [Invalid Date]. *)
Definition stub_runtime : runtime := {|
  JSON_stringify := fun _ => "{...}";
  JSON_stringify_indent2 := fun _ => "{
  ...
}";
  Date_toLocaleString := fun ts =>
    match ts with
    | Some (JObj props) =>
        match lookup "toString" props with
        | Some _ => inl (TypeError "Cannot convert object to primitive value")
        | None => inr "Invalid Date"
        end
    | _ => inr "14/11/2023, 19:13:20"
    end;
  inspect := fun e =>
    match e with
    | Error m => "Error: " ++ m ++ "
    at .github/scripts/generate.js"
    | TypeError m => "TypeError: " ++ m ++ "
    at .github/scripts/generate.js"
    end;
  path_join := fun dir name => dir ++ "/" ++ name
|}.

Definition world_serving (doc : json) (mail : post_outcome) : world := {|
  RTDB_URL := Some "https://db.example/aquario.json";
  OUT_DIR_env := None;
  BASE_URL_env := None;
  server := fun _ => Response 200 (Parsed doc);
  mail_server := mail;
  dir_exists := fun _ => false;
  fs_throws := fun _ => None;
  now_iso := "2023-11-14T22:13:20.000Z"
|}.

(** [{"current": {"value": 23.4, "ts": 1700000000000}}]. *)
Definition doc_cold : json :=
  JObj [("current", JObj [("value", JNum (of_decimal 234 (-1)));
                          ("ts", JNum (of_Z 1700000000000))])].

(** [{"current": {"value": 25}}]: no [current.ts]. *)
Definition doc_missing_ts : json :=
  JObj [("current", JObj [("value", JNum (of_Z 25))])].

(** [{"current": {"value": 25, "ts": 0}}]: the timestamp of the epoch. *)
Definition doc_ts_zero : json :=
  JObj [("current", JObj [("value", JNum (of_Z 25)); ("ts", JNum (of_Z 0))])].

(** [{"current": {"value": 1e309, "ts": 1700000000000}}]: [JSON.parse] reads
    the literal [1e309], which is beyond the largest double, as [Infinity]. *)
Definition doc_value_overflow : json :=
  JObj [("current", JObj [("value", JNum (of_decimal 1 309));
                          ("ts", JNum (of_Z 1700000000000))])].

(** [{"current": {"value": 1e21, "ts": 1700000000000}}]. *)
Definition doc_1e21 : json :=
  JObj [("current", JObj [("value", JNum (of_decimal 1 21));
                          ("ts", JNum (of_Z 1700000000000))])].

(** [{"current": {"value": 25, "ts": 1700000000000},
      "__proto__": {"sensor": "DS18B20"}}]. *)
Definition doc_with_proto : json :=
  JObj [("current", JObj [("value", JNum (of_Z 25));
                          ("ts", JNum (of_Z 1700000000000))]);
        ("__proto__", JObj [("sensor", JStr "DS18B20")])].

(** [{"value": 18014398509481984}]: 2^54, where neighbouring doubles are 4
    apart. *)
Definition doc_2_pow_54 : json :=
  JObj [("value", JNum (of_Z 18014398509481984))].

(** [{"current": {"value": 23.4, "ts": {"toString": 0}}}]: a timestamp that
    [new Date] cannot convert to a primitive. *)
Definition doc_ts_object : json :=
  JObj [("current", JObj [("value", JNum (of_decimal 234 (-1)));
                          ("ts", JObj [("toString", JNum (of_Z 0))])])].

(** [{"current": {"value": 23.4, "ts": 1700000000000},
      "log": {"-NpQ1": {"value": 23.4}, "-NpQ2": {"value": 25}},
      "～": 1, "😀": 2}]: push ids, which begin with a hyphen, and two keys
    beyond ASCII (U+FF5E and U+1F600). *)
Definition doc_push_ids : json :=
  JObj [("current", JObj [("value", JNum (of_decimal 234 (-1)));
                          ("ts", JNum (of_Z 1700000000000))]);
        ("log", JObj [("-NpQ1", JObj [("value", JNum (of_decimal 234 (-1)))]);
                      ("-NpQ2", JObj [("value", JNum (of_Z 25))])]);
        ("～", JNum (of_Z 1));
        ("😀", JNum (of_Z 2))].

(** [{"value": 9007199254740994}]: 2^53 + 2, the double after 2^53. *)
Definition doc_2_pow_53_plus_2 : json :=
  JObj [("value", JNum (of_Z 9007199254740994))].

(** [{"value": 9007199254740996}]: 2^53 + 4, the double after 2^53 + 2. *)
Definition doc_above_2_pow_53 : json :=
  JObj [("value", JNum (of_Z 9007199254740996))].

(** [{"value": -9007199254740991}]: -(2^53 - 1). *)
Definition doc_below_minus_2_pow_53 : json :=
  JObj [("value", JNum (of_Z (-9007199254740991)))].

(** [{"a": {"x": 1}, "a-b": 2}]: the hyphen (U+002D) is below the point. *)
Definition doc_hyphen : json :=
  JObj [("a", JObj [("x", JNum (of_Z 1))]); ("a-b", JNum (of_Z 2))].

(** [{"a": {"z": 1}, "a.b": 2}]: a key with a point in it. *)
Definition doc_dotted_key : json :=
  JObj [("a", JObj [("z", JNum (of_Z 1))]); ("a.b", JNum (of_Z 2))].

(** [{"": {"z": 1}, "a": 2}]: an empty key adds nothing to the path. *)
Definition doc_empty_key : json :=
  JObj [("", JObj [("z", JNum (of_Z 1))]); ("a", JNum (of_Z 2))].

(** ** Schedules of requests *)

(** The requests [a], [a + 1], ..., [n] of them, with the timers between
    them: after the request [j], [setTimeout(tryOnce, baseDelay * 2^(j-1))]. *)
Fixpoint attempts_from (url : string) (baseDelay timeoutMs : Z) (a : Z) (n : nat)
  : list effect :=
  match n with
  | O => []
  | S n' =>
      HttpsGet a url timeoutMs ::
      match n' with
      | O => []
      | S _ =>
          SetTimeout (baseDelay * 2 ^ (a - 1))
            :: attempts_from url baseDelay timeoutMs (a + 1) n'
      end
  end.

(** The number of requests among the effects. *)
Fixpoint requests (t : list effect) : nat :=
  match t with
  | [] => O
  | HttpsGet _ _ _ :: t' => S (requests t')
  | _ :: t' => requests t'
  end.

(** The sum of the delays of the timers among the effects. *)
Fixpoint waited (t : list effect) : Z :=
  match t with
  | [] => 0
  | SetTimeout d :: t' => d + waited t'
  | _ :: t' => waited t'
  end.

(** ** What a run leaves in the file system *)




(** The files written, in order. *)
Fixpoint written_files (t : list effect) : list string :=
  match t with
  | [] => []
  | WriteFileSync file _ :: t' => file :: written_files t'
  | _ :: t' => written_files t'
  end.





(** ** Text with nothing to escape *)

(** None of [&], [<] and [>] occurs. *)
Definition markup_free (s : string) : bool :=
  free_of "&" s && free_of "<" s && free_of ">" s.

(** The number of occurrences of [c]. *)
Fixpoint count_char (c : ascii) (s : string) : nat :=
  match s with
  | "" => O
  | String a s' => ((if (a =? c)%char then 1 else 0) + count_char c s')%nat
  end.

(** ** The text of a number of hundredths *)

(** The text of [N] hundredths: the integer part, a point, two digits. *)
Definition two_decimals (N : Z) : string :=
  dec (N / 100) ++ "." ++ frac_digits 2 (N mod 100).

(** ** Rounding, for one size of numbers *)

(** Rounding a value below [2^53 * H] units moves it by at most half of [H]
    units ([H] a power of two: the distance between neighbouring doubles of
    that size). *)
Definition rounds_within (H : Z) : Prop :=
  forall p q, 0 < q -> Z.abs p < q * (2 ^ 53 * H) ->
    exists r,
      to_double p q = Finite r /\ 2 * Z.abs (r * q - p) <= q * H /\
      (0 <= p -> 0 <= r) /\ (p <= 0 -> r <= 0).

(** ** The leaves of a document and their dotted paths *)

(** The number of values of a document that are not containers: a primitive
    is one, a container has those of its members. *)
Fixpoint leaves (d : json) : nat :=
  match d with
  | JArr items => list_sum (map leaves items)
  | JObj props =>
      list_sum (map (fun kv : string * json =>
                       match kv with (_, v) => leaves v end) props)
  | _ => 1%nat
  end.

(** The key of a step, as [Object.keys] gives it. *)
Definition step_key (s : step) : string :=
  match s with
  | Key k => k
  | Index i => dec (Z.of_nat i)
  end.

(** The dotted path [flattenKV] writes for the steps [p] under [prefix]. *)
Fixpoint path_string (prefix : string) (p : list step) : string :=
  match p with
  | [] => prefix
  | s :: p' => path_string (join_path prefix (step_key s)) p'
  end.

(** Every object of the document has distinct keys, as every JS object has. *)
Fixpoint distinct_keys (d : json) : bool :=
  match d with
  | JObj props =>
      nodupb (map fst props) &&
      (fix all (l : list (string * json)) : bool :=
         match l with
         | [] => true
         | kv :: l' => distinct_keys (snd kv) && all l'
         end) props
  | JArr items =>
      (fix all (l : list json) : bool :=
         match l with
         | [] => true
         | v :: l' => distinct_keys v && all l'
         end) items
  | _ => true
  end.

(** The lines of a container [v] are those of primitive values under it. *)
Definition lines_sound (v : json) : Prop :=
  distinct_keys v = true -> is_object v = true ->
  forall prefix e,
    In e (flatten_entries v prefix) ->
    exists s p x,
      at_path v (s :: p) = Some x /\ is_object x = false /\
      e = (path_string prefix (s :: p), js_String x).

(** ** Documents [minusOneDeg] keeps in shape *)

(** No object of the document has a key named [__proto__]. *)
Fixpoint no_proto_keys (d : json) : bool :=
  match d with
  | JObj props =>
      (fix all (l : list (string * json)) : bool :=
         match l with
         | [] => true
         | kv :: l' =>
             negb (fst kv =? "__proto__")%string && no_proto_keys (snd kv)
             && all l'
         end) props
  | JArr items =>
      (fix all (l : list json) : bool :=
         match l with
         | [] => true
         | v :: l' => no_proto_keys v && all l'
         end) items
  | _ => true
  end.

(** No object of the document has a key named [value] bound to a finite
    number: there is nothing for [minusOneDeg] to adjust. *)
Fixpoint no_finite_value (d : json) : bool :=
  match d with
  | JObj props =>
      (fix all (l : list (string * json)) : bool :=
         match l with
         | [] => true
         | kv :: l' =>
             negb ((fst kv =? "value")%string
                   && match snd kv with JNum n => isFinite n | _ => false end)
             && no_finite_value (snd kv) && all l'
         end) props
  | JArr items =>
      (fix all (l : list json) : bool :=
         match l with
         | [] => true
         | v :: l' => no_finite_value v && all l'
         end) items
  | _ => true
  end.

(** A property with its value changed by a function of the key and the
    value. *)
Definition keyed {A B : Type} (g : string -> A -> B) (kv : string * A)
  : string * B :=
  (fst kv, g (fst kv) (snd kv)).

(** [minusOneDeg] keeps the paths of [v], under every prefix. *)
Definition same_paths (v : json) : Prop :=
  no_proto_keys v = true ->
  forall prefix,
    map fst (flatten_entries (minusOneDeg v) prefix)
    = map fst (flatten_entries v prefix).

(** ** The environment *)

(** The string ends with a slash. *)
Fixpoint ends_with_slash (s : string) : bool :=
  match s with
  | "" => false
  | String c "" => (c =? "/")%char
  | String _ s' => ends_with_slash s'
  end.

(** ** More example worlds and documents *)

(** A world whose database never answers. *)
Definition world_unreachable : world := {|
  RTDB_URL := Some "https://db.example/aquario.json";
  OUT_DIR_env := None;
  BASE_URL_env := None;
  server := fun _ => TimedOut;
  mail_server := PostResponse 202 "";
  dir_exists := fun _ => false;
  fs_throws := fun _ => None;
  now_iso := "2023-11-14T22:13:20.000Z"
|}.

(** A server whose first four requests fail, each in its own way: a status
    500, a body that does not parse, an error of the request, a timeout. *)
Definition four_failures (j : Z) : attempt_outcome :=
  if j =? 1 then Response 500 (Parsed JNull)
  else if j =? 2 then Response 200 (SyntaxError "Unexpected end of JSON input")
  else if j =? 3 then RequestError (Error "read ECONNRESET")
  else TimedOut.

(** A server that answers the third request. *)
Definition third_time_lucky (j : Z) : attempt_outcome :=
  if j <? 3 then TimedOut else Response 200 (Parsed JNull).

(** [{"current": {"value": 25, "ts": 1700000000000}}]: a reading within the
    limits. *)
Definition doc_mild : json :=
  JObj [("current", JObj [("value", JNum (of_Z 25));
                          ("ts", JNum (of_Z 1700000000000))])].

(** [{"current": {"value": "n/a", "ts": 1700000000000}}]: a [value] that is
    not a number. *)
Definition doc_no_reading : json :=
  JObj [("current", JObj [("value", JStr "n/a");
                          ("ts", JNum (of_Z 1700000000000))])].

(* ===================================================================== *)
(** * Properties of [esc] *)
(* ===================================================================== *)

Lemma append_assoc (a b c : string) :
  ((a ++ b) ++ c = a ++ (b ++ c))%string.
Proof. induction a as [|x a IH]; simpl; [reflexivity | now rewrite IH]. Qed.

Lemma append_empty_r (a : string) : (a ++ "")%string = a.
Proof. induction a as [|x a IH]; simpl; [reflexivity | now rewrite IH]. Qed.

Lemma replace_all_app (c : ascii) (r a b : string) :
  replace_all c r (a ++ b) = (replace_all c r a ++ replace_all c r b)%string.
Proof.
  induction a as [|x a IH]; simpl; [reflexivity|].
  now rewrite IH, append_assoc.
Qed.

Lemma esc_cons (c : ascii) (s : string) :
  esc (String c s) = (esc_char c ++ esc s)%string.
Proof.
  unfold esc, esc_char. simpl replace_all at 3.
  rewrite !replace_all_app.
  destruct (c =? "&")%char eqn:Ha; [reflexivity|].
  destruct (c =? "<")%char eqn:Hl.
  - simpl. rewrite Hl. reflexivity.
  - simpl. rewrite Hl. simpl. destruct (c =? ">")%char; reflexivity.
Qed.

Lemma esc_entities_only (s : string) : entities_only (esc s) = true.
Proof.
  induction s as [|c s IH]; [reflexivity|].
  rewrite esc_cons. unfold esc_char.
  destruct (c =? "&")%char eqn:Ha; [simpl; exact IH|].
  destruct (c =? "<")%char eqn:Hl; [simpl; exact IH|].
  destruct (c =? ">")%char eqn:Hg; [simpl; exact IH|].
  simpl. rewrite Ha. exact IH.
Qed.

Lemma esc_free_of_lt (s : string) : free_of "<" (esc s) = true.
Proof.
  induction s as [|c s IH]; [reflexivity|].
  rewrite esc_cons. unfold esc_char.
  destruct (c =? "&")%char eqn:Ha; [simpl; exact IH|].
  destruct (c =? "<")%char eqn:Hl; [simpl; exact IH|].
  destruct (c =? ">")%char eqn:Hg; [simpl; exact IH|].
  simpl. rewrite Hl. exact IH.
Qed.

Lemma esc_free_of_gt (s : string) : free_of ">" (esc s) = true.
Proof.
  induction s as [|c s IH]; [reflexivity|].
  rewrite esc_cons. unfold esc_char.
  destruct (c =? "&")%char eqn:Ha; [simpl; exact IH|].
  destruct (c =? "<")%char eqn:Hl; [simpl; exact IH|].
  destruct (c =? ">")%char eqn:Hg; [simpl; exact IH|].
  simpl. rewrite Hg. exact IH.
Qed.

Lemma free_of_no_occurrence (c : ascii) (s pre post : string) :
  free_of c s = true -> s <> (pre ++ String c post)%string.
Proof.
  revert s. induction pre as [|x pre IH]; intros s Hf Heq; subst s; simpl in Hf.
  - rewrite Ascii.eqb_refl in Hf. discriminate.
  - apply andb_true_iff in Hf. destruct Hf as [_ Hf].
    exact (IH _ Hf eq_refl).
Qed.

Lemma starts_with_split (a s : string) :
  starts_with a s = true -> exists rest, s = (a ++ rest)%string.
Proof.
  revert s. induction a as [|x a IH]; intros s H.
  - exists s. reflexivity.
  - destruct s as [|y s]; simpl in H; [discriminate|].
    apply andb_true_iff in H. destruct H as [Hxy H].
    apply Ascii.eqb_eq in Hxy. subst y.
    destruct (IH _ H) as [rest ->]. exists rest. reflexivity.
Qed.

Lemma entities_only_occurrence (s pre post : string) :
  entities_only s = true -> s = (pre ++ String "&" post)%string ->
  exists rest,
    post = ("amp;" ++ rest)%string \/ post = ("lt;" ++ rest)%string
    \/ post = ("gt;" ++ rest)%string.
Proof.
  revert s. induction pre as [|x pre IH]; intros s Hs Heq; subst s.
  - cbn [append entities_only] in Hs.
    rewrite Ascii.eqb_refl in Hs.
    apply andb_true_iff in Hs. destruct Hs as [Hs _].
    apply orb_true_iff in Hs. destruct Hs as [Hs|Hs].
    + apply orb_true_iff in Hs. destruct Hs as [Hs|Hs];
        apply starts_with_split in Hs; destruct Hs as [rest ->]; exists rest; auto.
    + apply starts_with_split in Hs; destruct Hs as [rest ->]; exists rest; auto.
  - cbn [append entities_only] in Hs.
    apply andb_true_iff in Hs. destruct Hs as [_ Hs].
    exact (IH _ Hs eq_refl).
Qed.

(** C10.  For every input string, the output of [esc] contains no [<] and
    no [>], and every [&] in it is the first character of [&amp;], [&lt;]
    or [&gt;]. *)
Theorem esc_output_is_markup_free (s : string) :
  (forall pre post, esc s <> (pre ++ String "<" post)%string) /\
  (forall pre post, esc s <> (pre ++ String ">" post)%string) /\
  (forall pre post, esc s = (pre ++ String "&" post)%string ->
     exists rest,
       post = ("amp;" ++ rest)%string \/ post = ("lt;" ++ rest)%string
       \/ post = ("gt;" ++ rest)%string).
Proof.
  split; [|split].
  - intros pre post. apply free_of_no_occurrence, esc_free_of_lt.
  - intros pre post. apply free_of_no_occurrence, esc_free_of_gt.
  - intros pre post. apply entities_only_occurrence, esc_entities_only.
Qed.

(** The theorem at [a<b&c]: the [&] of its output [a&lt;b&amp;c] that
    follows [b] starts [&amp;]. *)
Lemma esc_output_is_markup_free_witness :
  exists rest,
    "amp;c" = ("amp;" ++ rest)%string \/ "amp;c" = ("lt;" ++ rest)%string
    \/ "amp;c" = ("gt;" ++ rest)%string.
Proof.
  exact (proj2 (proj2 (esc_output_is_markup_free "a<b&c")) "a&lt;b" "amp;c" eq_refl).
Defined.

(* ===================================================================== *)
(** * Properties of [fetchJSONWithRetry] *)
(* ===================================================================== *)

(** The four ways an attempt fails, and the error each hands to [fail]. *)
Lemma attempt_result_failure (o : attempt_outcome) (err : js_error) :
  attempt_result o = inr err <->
  o = RequestError err
  \/ (o = TimedOut /\ err = Error "Timeout")
  \/ (exists statusCode body,
        o = Response statusCode body /\ 400 <= statusCode /\
        err = Error ("HTTP " ++ dec statusCode))
  \/ (exists statusCode m,
        o = Response statusCode (SyntaxError m) /\ statusCode < 400 /\
        err = Error ("Parse JSON: " ++ m)).
Proof.
  split.
  - destruct o as [e| |sc body]; simpl.
    + intros [= ->]. auto.
    + intros [= <-]. auto.
    + destruct (sc =? 0) eqn:H0; simpl.
      * apply Z.eqb_eq in H0. subst sc.
        destruct body; [discriminate|]. intros [= <-].
        right; right; right. eexists _, _. repeat split; lia.
      * destruct (400 <=? sc) eqn:H4.
        -- apply Z.leb_le in H4. intros [= <-].
           right; right; left. exists sc, body. repeat split; [lia|].
           destruct (sc <? 0) eqn:Hn; [apply Z.ltb_lt in Hn; lia|].
           rewrite Z.abs_eq by lia. reflexivity.
        -- apply Z.leb_gt in H4.
           destruct body; [discriminate|]. intros [= <-].
           right; right; right. eexists _, _. repeat split; lia.
  - intros [->|[[-> ->]|[(sc & body & -> & H4 & ->)|(sc & m & -> & H4 & ->)]]];
      simpl; try reflexivity.
    + destruct (sc =? 0) eqn:H0; [apply Z.eqb_eq in H0; lia|]. simpl.
      destruct (400 <=? sc) eqn:H4'; [|apply Z.leb_gt in H4'; lia].
      destruct (sc <? 0) eqn:Hn; [apply Z.ltb_lt in Hn; lia|].
      rewrite Z.abs_eq by lia. reflexivity.
    + destruct (400 <=? sc) eqn:H4'; [apply Z.leb_le in H4'; lia|].
      rewrite andb_false_r. reflexivity.
Qed.

Section FetchFacts.

Variable server : Z -> attempt_outcome.
Variables (url : string) (retries baseDelay timeoutMs : Z).

Let run := tryOnce server url retries baseDelay timeoutMs.

(** A run starts with its request. *)
Lemma tryOnce_head (attempt : Z) :
  exists rest,
    fst (run attempt) = HttpsGet (attempt + 1) url timeoutMs :: rest.
Proof.
  unfold run.
  funelim (tryOnce server url retries baseDelay timeoutMs attempt);
    cbn [fst]; eexists; reflexivity.
Qed.

(** Everything about the request [k] that the run started at [attempt]
    issues: it comes after [attempt]; if it fails with more attempts left,
    the timer and the next request follow; if it fails with none left, the
    run ends there, rejected with its error. *)
Lemma tryOnce_request (attempt : Z) :
  forall pre k u t post,
    fst (run attempt) = (pre ++ HttpsGet k u t :: post)%list ->
    attempt < k /\
    forall err, attempt_result (server k) = inr err ->
      (k < retries ->
         exists post',
           post = SetTimeout (baseDelay * 2 ^ (k - 1))
                    :: HttpsGet (k + 1) url timeoutMs :: post') /\
      (retries <= k -> post = [] /\ snd (run attempt) = Rejected err).
Proof.
  unfold run.
  funelim (tryOnce server url retries baseDelay timeoutMs attempt);
    intros pre k u t post Htrace; cbn [fst snd] in *.
  - (* the request succeeds *)
    destruct pre as [|x [|y pre]]; simpl in Htrace; try discriminate.
    injection Htrace as <- <- <- <-.
    split; [lia|]. intros err' Herr. congruence.
  - (* the last request fails *)
    destruct pre as [|x [|y pre]]; simpl in Htrace; try discriminate.
    injection Htrace as <- <- <- <-.
    split; [lia|]. intros err' Herr.
    assert (err' = err) by congruence. subst err'.
    split; [lia|]. intros _. split; reflexivity.
  - (* the request fails and another follows *)
    destruct pre as [|x [|y pre]]; simpl in Htrace.
    + injection Htrace as <- <- <- <-.
      split; [lia|]. intros err' Herr. split; [|lia]. intros _.
      destruct (tryOnce_head (attempt + 1)) as [rest Hrest].
      unfold run in Hrest. rewrite Hrest.
      replace (attempt + 1 - 1) with attempt by lia.
      exists rest. reflexivity.
    + discriminate.
    + injection Htrace as _ _ Htrace.
      destruct (H _ _ _ _ _ Htrace) as [Hlt Hk].
      split; [lia|]. exact Hk.
Qed.

End FetchFacts.

(** C1.  In every call [fetchJSONWithRetry(url, maxAttempts, baseDelayMs,
    timeoutMs)] (3 attempts and 600 ms when left out), attempts are counted
    from 1; whenever attempt [k] fails -- the request emits an error, it
    times out, the response has a status of 400 or more, or its body does
    not parse ([attempt_fails]) -- and [k < maxAttempts], what follows is
    the timer of exactly [baseDelayMs * 2^(k-1)] ms and then attempt
    [k + 1]; when attempt [maxAttempts] fails, nothing follows and the
    promise is rejected with that attempt's error. *)
Theorem fetchJSONWithRetry_backoff
  (server : Z -> attempt_outcome) (url : string)
  (retries baseDelay timeoutMs : option Z)
  (pre post : list effect) (k : Z) (u : string) (t : Z) (err : js_error) :
  let maxAttempts := match retries with Some r => r | None => 3 end in
  let baseDelayMs := match baseDelay with Some b => b | None => 600 end in
  let timeout := match timeoutMs with Some t => t | None => 8000 end in
  let call := fetchJSONWithRetry server url retries baseDelay timeoutMs in
  fst call = (pre ++ HttpsGet k u t :: post)%list ->
  attempt_fails (server k) err ->
  1 <= k /\
  (k < maxAttempts ->
     exists post',
       post = SetTimeout (baseDelayMs * 2 ^ (k - 1))
                :: HttpsGet (k + 1) url timeout :: post') /\
  (k = maxAttempts -> post = [] /\ snd call = Rejected err).
Proof.
  intros maxAttempts baseDelayMs timeout call Htrace Herr.
  apply attempt_result_failure in Herr.
  destruct (tryOnce_request server url maxAttempts baseDelayMs timeout 0
              pre k u t post Htrace) as [Hk Hfail].
  destruct (Hfail err Herr) as [Hmore Hlast].
  split; [lia|]. split; [exact Hmore|].
  intros ->. apply Hlast. lia.
Qed.

(** The theorem on a call with four attempts, each of which fails in its
    own way: a status 500, a body that does not parse, an error of the
    request, a timeout.  The timers are 600, 1200 and 2400 ms, and the
    promise is rejected with the error of the fourth. *)
Lemma fetchJSONWithRetry_backoff_witness :
  let call := fetchJSONWithRetry four_failures "u" (Some 4) None None in
  fst call
  = [HttpsGet 1 "u" 8000; SetTimeout 600; HttpsGet 2 "u" 8000; SetTimeout 1200;
     HttpsGet 3 "u" 8000; SetTimeout 2400; HttpsGet 4 "u" 8000] /\
  (exists post',
     [SetTimeout 600; HttpsGet 2 "u" 8000; SetTimeout 1200;
      HttpsGet 3 "u" 8000; SetTimeout 2400; HttpsGet 4 "u" 8000]
     = SetTimeout (600 * 2 ^ (1 - 1)) :: HttpsGet (1 + 1) "u" 8000 :: post') /\
  (exists post',
     [SetTimeout 1200; HttpsGet 3 "u" 8000; SetTimeout 2400; HttpsGet 4 "u" 8000]
     = SetTimeout (600 * 2 ^ (2 - 1)) :: HttpsGet (2 + 1) "u" 8000 :: post') /\
  (exists post',
     [SetTimeout 2400; HttpsGet 4 "u" 8000]
     = SetTimeout (600 * 2 ^ (3 - 1)) :: HttpsGet (3 + 1) "u" 8000 :: post') /\
  snd call = Rejected (Error "Timeout").
Proof.
  intros call.
  assert (H1 : attempt_fails (four_failures 1) (Error "HTTP 500")).
  { right; right; left. exists 500, (Parsed JNull).
    split; [reflexivity|]. split; [lia | reflexivity]. }
  assert (H2 : attempt_fails (four_failures 2)
                 (Error "Parse JSON: Unexpected end of JSON input")).
  { right; right; right. exists 200, "Unexpected end of JSON input".
    split; [reflexivity|]. split; [lia | reflexivity]. }
  assert (H3 : attempt_fails (four_failures 3) (Error "read ECONNRESET")).
  { left. reflexivity. }
  assert (H4 : attempt_fails (four_failures 4) (Error "Timeout")).
  { right; left. split; reflexivity. }
  split; [reflexivity|].
  split; [|split; [|split]].
  - refine (proj1 (proj2 (fetchJSONWithRetry_backoff four_failures "u" (Some 4)
                            None None [] _ 1 "u" 8000 _ eq_refl H1)) _).
    cbv zeta. lia.
  - refine (proj1 (proj2 (fetchJSONWithRetry_backoff four_failures "u" (Some 4)
                            None None [HttpsGet 1 "u" 8000; SetTimeout 600] _
                            2 "u" 8000 _ eq_refl H2)) _).
    cbv zeta. lia.
  - refine (proj1 (proj2 (fetchJSONWithRetry_backoff four_failures "u" (Some 4)
                            None None
                            [HttpsGet 1 "u" 8000; SetTimeout 600;
                             HttpsGet 2 "u" 8000; SetTimeout 1200] _
                            3 "u" 8000 _ eq_refl H3)) _).
    cbv zeta. lia.
  - exact (proj2 (proj2 (proj2 (fetchJSONWithRetry_backoff four_failures "u"
                                  (Some 4) None None
                                  [HttpsGet 1 "u" 8000; SetTimeout 600;
                                   HttpsGet 2 "u" 8000; SetTimeout 1200;
                                   HttpsGet 3 "u" 8000; SetTimeout 2400] _
                                  4 "u" 8000 _ eq_refl H4)) eq_refl)).
Defined.

(** The default policy, run to exhaustion. *)
Example fetchJSONWithRetry_default_exhausted :
  fetchJSONWithRetry (fun _ => TimedOut) "u" None None None
  = ([HttpsGet 1 "u" 8000; SetTimeout 600; HttpsGet 2 "u" 8000;
      SetTimeout 1200; HttpsGet 3 "u" 8000],
     Rejected (Error "Timeout")).
Proof. reflexivity. Qed.

(* ===================================================================== *)
(** * Properties of the validation *)
(* ===================================================================== *)

(** What a document that passes the validation looks like. *)
Lemma validate_true_shape (raw : json) :
  validate raw = true ->
  exists props current v ts,
    raw = JObj props /\
    lookup "current" props = Some (JObj current) /\
    lookup "value" current = Some (JNum v) /\
    lookup "ts" current = Some ts /\
    truthy ts = true.
Proof.
  unfold validate. intros H.
  apply andb_true_iff in H. destruct H as [_ H].
  destruct raw as [| | | | |props]; try discriminate. simpl in H.
  destruct (lookup "current" props) as [cur|] eqn:Hc; [|discriminate].
  apply andb_true_iff in H. destruct H as [H Hts].
  apply andb_true_iff in H. destruct H as [_ Hv].
  destruct cur as [| | | | |current]; try discriminate. simpl in Hv, Hts.
  destruct (lookup "value" current) as [[| |v| | |]|] eqn:Hval; try discriminate.
  destruct (lookup "ts" current) as [ts|] eqn:Hts'; [|discriminate].
  exists props, current, v, ts. auto.
Qed.

(** C4, as stated, fails in both directions: a document whose [ts] is 0 is
    valid in the specification's reading and rejected by the script, and a
    document whose [value] is the number [Infinity] is accepted by the script
    though its value is not finite. *)
Lemma validate_differs_from_spec_valid :
  (spec_valid doc_ts_zero = true /\ validate doc_ts_zero = false) /\
  (spec_valid doc_value_overflow = false /\ validate doc_value_overflow = true).
Proof. vm_compute. repeat split. Qed.

(** C4, amended.  Validation succeeds exactly when the document is an object
    whose [current] is an object that has a [value] of type number (finite
    or not) and a truthy [ts] (so not [null], [false], [0], [NaN] or the
    empty string); and a document that fails it makes the run throw
    [JSON inesperado: faltando current.ts/value]. *)
Theorem validate_iff (raw : json) :
  (validate raw = true <->
   exists props current v ts,
     raw = JObj props /\
     lookup "current" props = Some (JObj current) /\
     lookup "value" current = Some (JNum v) /\
     lookup "ts" current = Some ts /\
     truthy ts = true) /\
  (check_shape raw
   = if validate raw then ret tt
     else throw (Error "JSON inesperado: faltando current.ts/value")).
Proof.
  split; [|reflexivity].
  split; [apply validate_true_shape|].
  intros (props & current & v & ts & -> & Hc & Hv & Hts & Ht).
  unfold validate. simpl. rewrite Hc. simpl. rewrite Hv, Hts. simpl. exact Ht.
Qed.

(* ===================================================================== *)
(** * Properties of a run *)
(* ===================================================================== *)

Lemma tryOnce_effects server url retries baseDelay timeoutMs attempt :
  Forall (fun e => is_fetch_effect e = true)
    (fst (tryOnce server url retries baseDelay timeoutMs attempt)).
Proof.
  funelim (tryOnce server url retries baseDelay timeoutMs attempt);
    cbn [fst]; repeat constructor; assumption.
Qed.

Lemma fetch_effects_filtered (p : effect -> bool) (t : list effect) :
  (forall e, is_fetch_effect e = true -> p e = false) ->
  Forall (fun e => is_fetch_effect e = true) t ->
  filter p t = [].
Proof.
  intros Hp Ht. induction Ht as [|e t He Ht IH]; simpl; [reflexivity|].
  rewrite (Hp e He). exact IH.
Qed.

Lemma fetch_touches_no_file server url retries baseDelay timeoutMs :
  filter touches_files
    (fst (fetchJSONWithRetry server url retries baseDelay timeoutMs)) = [].
Proof.
  apply fetch_effects_filtered; [|apply tryOnce_effects].
  intros [] H; try discriminate; reflexivity.
Qed.

Lemma fetch_posts_nothing server url retries baseDelay timeoutMs :
  filter is_post
    (fst (fetchJSONWithRetry server url retries baseDelay timeoutMs)) = [].
Proof.
  apply fetch_effects_filtered; [|apply tryOnce_effects].
  intros [] H; try discriminate; reflexivity.
Qed.

Lemma bind_ret_l {A B : Type} (a : A) (k : A -> io B) :
  bind (ret a) k = k a.
Proof. unfold bind, ret. destruct (k a). reflexivity. Qed.

Lemma bind_await_resolved {A B : Type} (p : list effect * settled A)
  (v : A) (k : A -> io B) :
  snd p = Resolved v ->
  bind (await p) k = (let '(t, r) := k v in ((fst p ++ t)%list, r)).
Proof. intros H. unfold bind, await. rewrite H. reflexivity. Qed.

(** C5.  When the fetched document fails validation, either variant of the
    script ends with status 1 having neither created the output directory
    nor written a file (and, in the second variant, without having sent an
    alert): its only effect after the fetch is the report of the error
    [JSON inesperado: faltando current.ts/value], as [console.error] prints
    the error object after the label. *)
Theorem invalid_document_writes_nothing
  (rt : runtime) (w : world) (c : ascii) (s : string) (raw : json) :
  let fetched := fetchJSONWithRetry (server w) (String c s) None None None in
  RTDB_URL w = Some (String c s) ->
  snd fetched = Resolved raw ->
  validate raw = false ->
  let report :=
    Console "error"
      ("❌ ERRO: "
       ++ inspect rt (Error "JSON inesperado: faltando current.ts/value")) in
  (run_offset rt w = ((fst fetched ++ [report])%list, 1) /\
   filter touches_files (fst (run_offset rt w)) = []) /\
  (run_alert rt w = ((fst fetched ++ [report])%list, 1) /\
   filter touches_files (fst (run_alert rt w)) = [] /\
   filter is_post (fst (run_alert rt w)) = []).
Proof.
  intros fetched Hurl Hres Hval report.
  assert (Ho : run_offset rt w = ((fst fetched ++ [report])%list, 1)).
  { unfold run_offset, script, main_offset. rewrite Hurl.
    fold fetched. rewrite (bind_await_resolved _ _ _ Hres).
    unfold check_shape. rewrite Hval.
    unfold bind, throw. rewrite app_nil_r. reflexivity. }
  assert (Ha : run_alert rt w = ((fst fetched ++ [report])%list, 1)).
  { unfold run_alert, script, main_alert. rewrite Hurl.
    fold fetched. rewrite (bind_await_resolved _ _ _ Hres).
    unfold check_shape. rewrite Hval.
    unfold bind, throw. rewrite app_nil_r. reflexivity. }
  rewrite Ho, Ha. cbn [fst]. rewrite !filter_app.
  unfold fetched. rewrite fetch_touches_no_file, fetch_posts_nothing.
  repeat split.
Qed.

(** The theorem on a document with no [current.ts]. *)
Lemma invalid_document_writes_nothing_witness :
  let w := world_serving doc_missing_ts (PostResponse 202 "") in
  snd (run_offset stub_runtime w) = 1 /\
  filter touches_files (fst (run_offset stub_runtime w)) = [] /\
  snd (run_alert stub_runtime w) = 1 /\
  filter touches_files (fst (run_alert stub_runtime w)) = [].
Proof.
  intros w.
  pose proof (invalid_document_writes_nothing stub_runtime w
                "h" "ttps://db.example/aquario.json" doc_missing_ts
                eq_refl eq_refl eq_refl) as H.
  cbv zeta in H.
  destruct H as [[Ho Hof] [Ha [Haf _]]].
  rewrite Ho, Ha in *. repeat split; assumption.
Defined.

Lemma write_data_effects rt w doc currentStr :
  (forall p, fs_throws w p = None) ->
  write_data rt w doc currentStr = (published_data rt w doc currentStr, inr tt).
Proof.
  intros Hfs. unfold write_data, writeFileSync, published_data.
  rewrite !Hfs. reflexivity.
Qed.

Lemma write_site_effects rt w doc currentStr tsBr heading ts :
  (forall p, fs_throws w p = None) ->
  write_site rt w doc currentStr tsBr heading ts
  = ((skipn 3 (published rt w doc currentStr tsBr heading ts)
      ++ [Console "log" ("✅ OK: arquivos gerados em " ++ OUT_DIR w)])%list,
     inr tt).
Proof.
  intros Hfs. unfold write_site, writeFileSync, published.
  rewrite !Hfs. reflexivity.
Qed.

Lemma mkdir_if_absent_effects w :
  (forall p, fs_throws w p = None) ->
  mkdir_if_absent w = (directory w, inr tt).
Proof.
  intros Hfs. unfold mkdir_if_absent, directory.
  destruct (dir_exists w (OUT_DIR w)); [reflexivity|].
  rewrite Hfs. reflexivity.
Qed.

(** The threshold check never throws and touches no file. *)
Lemma check_threshold_returns rt w tempRaw tsBr :
  snd (check_threshold rt w tempRaw tsBr) = inr tt /\
  filter touches_files (fst (check_threshold rt w tempRaw tsBr)) = [].
Proof.
  unfold check_threshold.
  destruct tempRaw as [[| |t| | |]|]; try (split; reflexivity).
  destruct (isFinite t); [|split; reflexivity].
  destruct (ltb t (of_Z 24) || gtb t (of_Z 26)); [|split; reflexivity].
  unfold sendAlertEmail.
  destruct (post_result (mail_server w)); split; reflexivity.
Qed.

(** The three ways the alert's request fails. *)
Lemma post_result_failure (o : post_outcome) (err : js_error) :
  post_result o = Rejected err <-> post_fails o err.
Proof.
  unfold post_fails. split.
  - destruct o as [e| |sc body]; simpl.
    + intros [= ->]. auto.
    + intros [= <-]. auto.
    + destruct (sc =? 0) eqn:H0; simpl; [discriminate|].
      destruct (400 <=? sc) eqn:H4; [|discriminate].
      apply Z.leb_le in H4. intros [= <-].
      right; right. exists sc, body. repeat split; [lia|].
      destruct (sc <? 0) eqn:Hn; [apply Z.ltb_lt in Hn; lia|].
      rewrite Z.abs_eq by lia. reflexivity.
  - intros [->|[[-> ->]|(sc & body & -> & H4 & ->)]]; simpl; try reflexivity.
    destruct (sc =? 0) eqn:H0; [apply Z.eqb_eq in H0; lia|]. simpl.
    destruct (400 <=? sc) eqn:H4'; [|apply Z.leb_gt in H4'; lia].
    destruct (sc <? 0) eqn:Hn; [apply Z.ltb_lt in Hn; lia|].
    rewrite Z.abs_eq by lia. reflexivity.
Qed.

(** A document that passes the validation has its [current]. *)
Lemma read_current_valid (raw current : json) :
  validate raw = true -> prop raw "current" = Some current ->
  read_current raw = ret current.
Proof.
  intros Hval Hcur. unfold read_current. rewrite Hcur.
  destruct current; try reflexivity.
  unfold validate in Hval. rewrite Hcur in Hval.
  rewrite andb_false_r in Hval. discriminate.
Qed.

(** A run of the second variant on a valid document whose timestamp
    [new Date] accepts, whatever the alert's request meets: the effects of
    the fetch, those of the threshold check, the directory, the seven files
    and the closing line; status 0. *)
Lemma run_alert_valid rt w c s raw current tsBr :
  let fetched := fetchJSONWithRetry (server w) (String c s) None None None in
  let tempRaw := prop current "value" in
  RTDB_URL w = Some (String c s) ->
  snd fetched = Resolved raw ->
  validate raw = true ->
  prop raw "current" = Some current ->
  Date_toLocaleString rt (prop current "ts") = inr tsBr ->
  (forall p, fs_throws w p = None) ->
  run_alert rt w
  = ((fst fetched
      ++ fst (check_threshold rt w tempRaw tsBr)
      ++ directory w
      ++ published rt w raw (current_string tempRaw) tsBr "JSON completo"
           (prop current "ts")
      ++ [Console "log" ("✅ OK: arquivos gerados em " ++ OUT_DIR w)])%list,
     0).
Proof.
  intros fetched tempRaw Hurl Hres Hval Hcur Hdate Hfs.
  unfold run_alert, script, main_alert. rewrite Hurl. fold fetched.
  rewrite (bind_await_resolved _ _ _ Hres).
  unfold check_shape. rewrite Hval.
  rewrite (read_current_valid raw current Hval Hcur), !bind_ret_l.
  unfold localized. rewrite Hdate, bind_ret_l. fold tempRaw.
  destruct (check_threshold_returns rt w tempRaw tsBr) as [Hret _].
  rewrite mkdir_if_absent_effects, write_data_effects, write_site_effects
    by assumption.
  destruct (check_threshold rt w tempRaw tsBr) as [tc rc].
  simpl in Hret. subst rc. reflexivity.
Qed.

(** A run of the second variant on a valid document whose timestamp
    [new Date] cannot convert: the error is thrown before the threshold
    check, and the run ends with status 1 after the report alone. *)
Lemma run_alert_no_date rt w c s raw current e :
  let fetched := fetchJSONWithRetry (server w) (String c s) None None None in
  RTDB_URL w = Some (String c s) ->
  snd fetched = Resolved raw ->
  validate raw = true ->
  prop raw "current" = Some current ->
  Date_toLocaleString rt (prop current "ts") = inl e ->
  run_alert rt w
  = ((fst fetched ++ [Console "error" ("❌ ERRO: " ++ inspect rt e)])%list, 1).
Proof.
  intros fetched Hurl Hres Hval Hcur Hdate.
  unfold run_alert, script, main_alert. rewrite Hurl. fold fetched.
  rewrite (bind_await_resolved _ _ _ Hres).
  unfold check_shape. rewrite Hval.
  rewrite (read_current_valid raw current Hval Hcur), !bind_ret_l.
  unfold localized. rewrite Hdate.
  unfold bind, throw. rewrite app_nil_r. reflexivity.
Qed.

Lemma filter_touches_directory w :
  filter touches_files (directory w) = directory w.
Proof. unfold directory. destruct (dir_exists w (OUT_DIR w)); reflexivity. Qed.

Lemma filter_touches_published rt w doc currentStr tsBr heading ts :
  filter touches_files (published rt w doc currentStr tsBr heading ts)
  = published rt w doc currentStr tsBr heading ts.
Proof. reflexivity. Qed.

(** The files of a run of the second variant on a valid document, whatever
    the alert's request meets. *)
Lemma run_alert_files rt w c s raw current tsBr :
  let fetched := fetchJSONWithRetry (server w) (String c s) None None None in
  RTDB_URL w = Some (String c s) ->
  snd fetched = Resolved raw ->
  validate raw = true ->
  prop raw "current" = Some current ->
  Date_toLocaleString rt (prop current "ts") = inr tsBr ->
  (forall p, fs_throws w p = None) ->
  filter touches_files (fst (run_alert rt w))
  = (directory w
     ++ published rt w raw (current_string (prop current "value")) tsBr
          "JSON completo" (prop current "ts"))%list
  /\ snd (run_alert rt w) = 0.
Proof.
  intros fetched Hurl Hres Hval Hcur Hdate Hfs.
  rewrite (run_alert_valid rt w c s raw current tsBr Hurl Hres Hval Hcur Hdate Hfs).
  cbn [fst snd]. split; [|reflexivity].
  rewrite !filter_app, fetch_touches_no_file.
  rewrite (proj2 (check_threshold_returns _ _ _ _)).
  rewrite filter_touches_directory, filter_touches_published.
  cbn [filter touches_files app]. rewrite app_nil_r. reflexivity.
Qed.

(** C3.  In a run of the second variant that sends the alert (a valid
    document, a timestamp [new Date] has accepted, a finite reading below 24
    or above 26), when the POST fails -- the request emits an error, it
    times out, or the response has a status of 400 or more ([post_fails])
    -- the failure is caught and logged with the error's message and
    nothing else happens for it; the output directory and the seven files
    are written with the content they have whatever the POST meets (the
    file system accepting the writes), and the process exits with
    status 0. *)
Theorem alert_failure_is_not_fatal
  (rt : runtime) (w : world) (c : ascii) (s : string)
  (raw current : json) (t : number) (tsBr : string) (err : js_error) :
  let fetched := fetchJSONWithRetry (server w) (String c s) None None None in
  let files :=
    (directory w
     ++ published rt w raw (toFixed t 2) tsBr "JSON completo" (prop current "ts"))%list in
  RTDB_URL w = Some (String c s) ->
  snd fetched = Resolved raw ->
  validate raw = true ->
  prop raw "current" = Some current ->
  prop current "value" = Some (JNum t) ->
  Date_toLocaleString rt (prop current "ts") = inr tsBr ->
  isFinite t = true ->
  ltb t (of_Z 24) || gtb t (of_Z 26) = true ->
  post_fails (mail_server w) err ->
  (forall p, fs_throws w p = None) ->
  run_alert rt w
  = ((fst fetched
      ++ [Console "log" ("⚠️ Temperatura FORA do intervalo: " ++ toFixed t 2
                         ++ " °C — enviando e-mail...");
          HttpsPost "api.mailchannels.net" "/tx/v1/send"
            (JSON_stringify rt (alert_payload t tsBr));
          Console "error"
            ("❌ Erro ao enviar e-mail de alerta: " ++ message_of err)]
      ++ files
      ++ [Console "log" ("✅ OK: arquivos gerados em " ++ OUT_DIR w)])%list,
     0) /\
  filter touches_files (fst (run_alert rt w)) = files /\
  List.length (published rt w raw (toFixed t 2) tsBr "JSON completo"
                 (prop current "ts")) = 7%nat /\
  snd (run_alert rt w) = 0 /\
  forall o,
    filter touches_files (fst (run_alert rt (with_mail_server w o))) = files /\
    snd (run_alert rt (with_mail_server w o)) = 0.
Proof.
  intros fetched files Hurl Hres Hval Hcur Hv Hdate Hfin Hout Hpost Hfs.
  apply post_result_failure in Hpost.
  assert (Hcs : current_string (prop current "value") = toFixed t 2).
  { rewrite Hv. unfold current_string. rewrite Hfin. reflexivity. }
  split; [|split; [|split; [|split]]].
  - rewrite (run_alert_valid rt w c s raw current tsBr Hurl Hres Hval Hcur Hdate Hfs).
    rewrite Hcs, Hv. unfold check_threshold. rewrite Hfin, Hout.
    unfold sendAlertEmail. rewrite Hpost. unfold files.
    cbn [await fst snd bind try_catch emit app]. rewrite <- !app_assoc.
    reflexivity.
  - destruct (run_alert_files rt w c s raw current tsBr Hurl Hres Hval Hcur
                Hdate Hfs) as [Hf _].
    rewrite Hf, Hcs. reflexivity.
  - reflexivity.
  - apply (run_alert_files rt w c s raw current tsBr Hurl Hres Hval Hcur Hdate Hfs).
  - intros o.
    destruct (run_alert_files rt (with_mail_server w o) c s raw current tsBr
                Hurl Hres Hval Hcur Hdate Hfs) as [Hf Hs].
    rewrite Hf, Hcs. split; [reflexivity | exact Hs].
Qed.

(** The theorem on a reading of 23.4 whose alert meets, in three worlds, a
    status 500, an error of the request and a timeout: each is logged and
    the run ends with status 0. *)
Lemma alert_failure_is_not_fatal_witness :
  (In (Console "error" "❌ Erro ao enviar e-mail de alerta: HTTP 500: boom")
      (fst (run_alert stub_runtime
              (world_serving doc_cold (PostResponse 500 "boom")))) /\
   snd (run_alert stub_runtime
          (world_serving doc_cold (PostResponse 500 "boom"))) = 0) /\
  (In (Console "error"
         "❌ Erro ao enviar e-mail de alerta: getaddrinfo ENOTFOUND api.mailchannels.net")
      (fst (run_alert stub_runtime
              (world_serving doc_cold
                 (PostError (Error "getaddrinfo ENOTFOUND api.mailchannels.net"))))) /\
   snd (run_alert stub_runtime
          (world_serving doc_cold
             (PostError (Error "getaddrinfo ENOTFOUND api.mailchannels.net")))) = 0) /\
  (In (Console "error"
         "❌ Erro ao enviar e-mail de alerta: Timeout no envio de e-mail")
      (fst (run_alert stub_runtime (world_serving doc_cold PostTimedOut))) /\
   snd (run_alert stub_runtime (world_serving doc_cold PostTimedOut)) = 0).
Proof.
  assert (H : forall o err,
    post_fails o err ->
    In (Console "error" ("❌ Erro ao enviar e-mail de alerta: " ++ message_of err))
       (fst (run_alert stub_runtime (world_serving doc_cold o))) /\
    snd (run_alert stub_runtime (world_serving doc_cold o)) = 0).
  { intros o err Hfail.
    pose proof (alert_failure_is_not_fatal stub_runtime (world_serving doc_cold o)
                  "h" "ttps://db.example/aquario.json" doc_cold
                  (JObj [("value", JNum (of_decimal 234 (-1)));
                         ("ts", JNum (of_Z 1700000000000))])
                  (of_decimal 234 (-1)) "14/11/2023, 19:13:20" err
                  eq_refl eq_refl eq_refl eq_refl eq_refl eq_refl eq_refl eq_refl
                  Hfail (fun _ => eq_refl)) as H.
    cbv zeta in H. destruct H as [Hrun [_ [_ [Hstatus _]]]].
    split; [|exact Hstatus].
    rewrite Hrun. cbn [fst]. apply in_or_app. right. apply in_or_app. left.
    right. right. left. reflexivity. }
  split; [|split].
  - apply (H (PostResponse 500 "boom") (Error "HTTP 500: boom")).
    right; right. exists 500, "boom".
    split; [reflexivity|]. split; [lia | reflexivity].
  - apply (H (PostError (Error "getaddrinfo ENOTFOUND api.mailchannels.net"))
             (Error "getaddrinfo ENOTFOUND api.mailchannels.net")).
    left. reflexivity.
  - apply (H PostTimedOut (Error "Timeout no envio de e-mail")).
    right; left. split; reflexivity.
Defined.

(* ===================================================================== *)
(** * Properties of [toFixed(2)] and of reading its result back *)
(* ===================================================================== *)

Lemma all_digits_string_of_uint (d : Decimal.uint) :
  all_digits (NilEmpty.string_of_uint d) = true.
Proof. induction d; simpl; auto. Qed.

Lemma dec_nonempty_digits (n : Z) :
  exists c s, dec n = String c s /\ all_digits (String c s) = true.
Proof.
  unfold dec, NilZero.string_of_uint.
  destruct (N.to_uint (Z.to_N n)) as [|d|d|d|d|d|d|d|d|d|d];
    eexists _, _; (split; [reflexivity|]);
    first [reflexivity | simpl; apply all_digits_string_of_uint].
Qed.

Lemma digits_value_dec (n : Z) : 0 <= n -> digits_value (dec n) = Some n.
Proof.
  intros Hn. unfold digits_value, dec, NilZero.string_of_uint.
  pose proof (DecimalN.Unsigned.of_to (Z.to_N n)) as Hof.
  destruct (N.to_uint (Z.to_N n)) as [|d|d|d|d|d|d|d|d|d|d] eqn:E.
  1: { simpl in Hof. simpl. f_equal. lia. }
  all: rewrite <- E, NilEmpty.usu, E, Hof, Z2N.id by assumption.
  all: reflexivity.
Qed.

Lemma split_at_none (p : ascii -> bool) (s : string) :
  (forall c, is_digit c = true -> p c = false) ->
  all_digits s = true -> split_at p s = (s, None).
Proof.
  intros Hp. induction s as [|c s IH]; simpl; [reflexivity|].
  intros H. apply andb_true_iff in H. destruct H as [Hc Hs].
  rewrite (Hp c Hc), (IH Hs). reflexivity.
Qed.

Lemma split_at_first (p : ascii -> bool) (a : string) (c : ascii) (b : string) :
  (forall c, is_digit c = true -> p c = false) ->
  all_digits a = true -> p c = true ->
  split_at p (a ++ String c b) = (a, Some b).
Proof.
  intros Hp Ha Hc. induction a as [|x a IH]; simpl.
  - rewrite Hc. reflexivity.
  - simpl in Ha. apply andb_true_iff in Ha. destruct Ha as [Hx Ha].
    rewrite (Hp x Hx), (IH Ha). reflexivity.
Qed.

Lemma split_at_point_e (a : string) (x y : ascii) :
  all_digits a = true -> is_digit x = true -> is_digit y = true ->
  split_at is_e (a ++ String "." (String x (String y "")))
  = ((a ++ String "." (String x (String y "")))%string, None).
Proof.
  intros Ha Hx Hy.
  assert (Hd : forall c, is_digit c = true -> is_e c = false).
  { intros c Hc. unfold is_e.
    destruct (c =? "e")%char eqn:E1;
      [apply Ascii.eqb_eq in E1; subst c; discriminate|].
    destruct (c =? "E")%char eqn:E2;
      [apply Ascii.eqb_eq in E2; subst c; discriminate|].
    reflexivity. }
  induction a as [|c a IH]; simpl.
  - rewrite (Hd x Hx), (Hd y Hy). reflexivity.
  - simpl in Ha. apply andb_true_iff in Ha. destruct Ha as [Hc Ha].
    rewrite (Hd c Hc), (IH Ha). reflexivity.
Qed.

Lemma is_point_not_digit (c : ascii) : is_digit c = true -> is_point c = false.
Proof.
  intros Hc. unfold is_point.
  destruct (c =? ".")%char eqn:E; [|reflexivity].
  apply Ascii.eqb_eq in E. subst c. discriminate.
Qed.

(** The two digits of [r], for [0 <= r < 100]. *)
Lemma frac_digits_2 (r : Z) :
  0 <= r < 100 ->
  exists x y,
    frac_digits 2 r = String x (String y "") /\
    is_digit x = true /\ is_digit y = true /\
    digits_value (String x (String y "")) = Some r.
Proof.
  intros Hr.
  assert (Hall :
    forallb (fun i =>
      match frac_digits 2 (Z.of_nat i) with
      | String x (String y "") =>
          is_digit x && is_digit y &&
          match digits_value (String x (String y "")) with
          | Some v => v =? Z.of_nat i
          | None => false
          end
      | _ => false
      end) (seq 0 100) = true) by (vm_compute; reflexivity).
  rewrite forallb_forall in Hall.
  specialize (Hall (Z.to_nat r)).
  rewrite Z2Nat.id in Hall by lia.
  assert (Hin : In (Z.to_nat r) (seq 0 100)) by (apply in_seq; lia).
  specialize (Hall Hin).
  destruct (frac_digits 2 r) as [|x [|y [|z t]]]; try discriminate.
  exists x, y.
  apply andb_true_iff in Hall. destruct Hall as [Hd Hv].
  apply andb_true_iff in Hd. destruct Hd as [Hx Hy].
  destruct (digits_value (String x (String y ""))) as [v|]; [|discriminate].
  apply Z.eqb_eq in Hv. subst v. auto.
Qed.

(** What [toFixed(2)] writes for a magnitude below 10^21. *)
Lemma toFixed_2_below_1e21 (n : Z) :
  below_1e21 n ->
  exists c ip x y,
    toFixed (Finite n) 2
    = ((if (n <? 0)%Z then "-" else "") ++ String c ip
       ++ String "." (String x (String y "")))%string /\
    all_digits (String c ip) = true /\
    is_digit x = true /\ is_digit y = true /\
    digits_value (String c ip) = Some (hundredths (Z.abs n) / 100) /\
    digits_value (String x (String y "")) = Some (hundredths (Z.abs n) mod 100).
Proof.
  intros Hn. unfold below_1e21 in Hn. unfold toFixed.
  destruct (10 ^ 21 * scale <=? Z.abs n) eqn:Hbig;
    [apply Z.leb_le in Hbig; lia|].
  change (10 ^ Z.of_nat 2) with 100.
  fold (hundredths (Z.abs n)).
  set (N := hundredths (Z.abs n)).
  assert (HN : 0 <= N).
  { unfold N, hundredths. apply Z.div_pos; [|reflexivity].
    pose proof (Z.abs_nonneg n). unfold scale. lia. }
  destruct (dec_nonempty_digits (N / 100)) as (c & ip & Hdec & Hip).
  destruct (frac_digits_2 (N mod 100)) as (x & y & Hfrac & Hx & Hy & Hv);
    [apply Z.mod_pos_bound; lia|].
  exists c, ip, x, y.
  rewrite Hfrac, Hdec. repeat split; try assumption.
  rewrite <- Hdec. apply digits_value_dec. apply Z.div_pos; lia.
Qed.

Lemma fixed2_toFixed (n : Z) :
  below_1e21 n -> fixed2 (toFixed (Finite n) 2) = true.
Proof.
  intros Hn.
  destruct (toFixed_2_below_1e21 n Hn) as (c & ip & x & y & -> & Hip & Hx & Hy & _).
  unfold fixed2.
  assert (Hc : is_digit c = true)
    by (simpl in Hip; apply andb_true_iff in Hip; tauto).
  assert (Hbody :
    snd (split_sign_minus
           ((if (n <? 0)%Z then "-" else "") ++ String c ip
            ++ String "." (String x (String y ""))))
    = (String c ip ++ String "." (String x (String y "")))%string).
  { destruct (n <? 0); simpl; [reflexivity|].
    destruct (c =? "-")%char eqn:E; [|reflexivity].
    apply Ascii.eqb_eq in E. subst c. discriminate. }
  rewrite Hbody.
  rewrite (split_at_first is_point (String c ip) "." _ is_point_not_digit Hip eq_refl).
  rewrite Hip, Hx, Hy. reflexivity.
Qed.

(** [Number(x.toFixed(2))] for a magnitude below 10^21: the double nearest
    to the written hundredths. *)
Lemma StringToNumber_toFixed_2 (n : Z) :
  below_1e21 n ->
  StringToNumber (toFixed (Finite n) 2)
  = let v := of_decimal (hundredths (Z.abs n)) (-2) in
    if n <? 0 then negate v else v.
Proof.
  intros Hn.
  destruct (toFixed_2_below_1e21 n Hn)
    as (c & ip & x & y & -> & Hip & Hx & Hy & Hi & Hf).
  assert (Hc : is_digit c = true)
    by (simpl in Hip; apply andb_true_iff in Hip; tauto).
  set (body := (String c ip ++ String "." (String x (String y "")))%string).
  assert (Hlit : decimal_literal body = Some (hundredths (Z.abs n), -2)).
  { unfold decimal_literal, body.
    rewrite (split_at_point_e (String c ip) x y Hip Hx Hy).
    rewrite (split_at_first is_point (String c ip) "." _ is_point_not_digit Hip eq_refl).
    rewrite Hi, Hf.
    cbn [append String.length Z.of_nat].
    change (10 ^ Z.pos (Pos.of_succ_nat 1)) with 100.
    change (- Z.pos (Pos.of_succ_nat 1)) with (-2).
    rewrite Z.mul_comm, <- Z.div_mod by lia. reflexivity. }
  assert (Hinf : (body =? "Infinity")%string = false).
  { apply String.eqb_neq. unfold body. intros E. injection E as E _.
    subst c. discriminate. }
  assert (Hsplit : split_sign body = (false, body)).
  { unfold body. cbn [append split_sign].
    destruct (c =? "-")%char eqn:E1;
      [apply Ascii.eqb_eq in E1; subst c; discriminate|].
    destruct (c =? "+")%char eqn:E2;
      [apply Ascii.eqb_eq in E2; subst c; discriminate|].
    reflexivity. }
  unfold StringToNumber. fold body.
  destruct (n <? 0).
  - change (("-" ++ body)%string) with (String "-" body).
    cbn [String.eqb split_sign Ascii.eqb Bool.eqb].
    rewrite Hinf, Hlit. reflexivity.
  - change (("" ++ body)%string) with body.
    rewrite Hsplit, Hinf, Hlit.
    destruct (body =? "")%string eqn:E; [|reflexivity].
    apply String.eqb_eq in E. discriminate.
Qed.

(* ===================================================================== *)
(** * Rounding to a double: how far the result is from the exact value *)
(* ===================================================================== *)

Lemma rne_error (p q : Z) :
  0 < q -> 2 * Z.abs (rne p q * q - p) <= q.
Proof.
  intros Hq. unfold rne. cbv zeta.
  pose proof (Z.div_mod p q ltac:(lia)) as Hdm.
  pose proof (Z.mod_pos_bound p q Hq) as Hr.
  set (f := p / q) in *. set (r := p mod q) in *. clearbody f r.
  destruct (2 * r ?= q) eqn:C; cbv beta iota.
  - apply Z.compare_eq in C. destruct (Z.even f); lia.
  - change (2 * r < q) in C. lia.
  - apply Z.compare_gt_iff in C. lia.
Qed.

Lemma rne_nonneg (p q : Z) : 0 <= p -> 0 < q -> 0 <= rne p q.
Proof.
  intros Hp Hq. unfold rne. cbv zeta.
  pose proof (Z.div_pos p q Hp Hq).
  destruct (2 * (p mod q) ?= q); [destruct (Z.even (p / q))| |]; lia.
Qed.

(** Rounding a magnitude below [2^(53+j)] units moves it by at most half of
    [2^j] units. *)
Lemma round_units_error (p q j : Z) :
  0 <= p -> 0 < q -> 0 <= j -> p / q < 2 ^ (53 + j) ->
  2 * Z.abs (round_units p q * q - p) <= q * 2 ^ j /\ 0 <= round_units p q.
Proof.
  intros Hp Hq Hj Hlt. unfold round_units.
  set (sh := Z.max 0 (Z.log2 (p / q) - 52)).
  assert (Hsh : 0 <= sh <= j).
  { unfold sh. split; [lia|].
    pose proof (Z.div_pos p q Hp Hq) as Hf.
    destruct (Z.eq_dec (p / q) 0) as [E|E].
    - rewrite E. simpl. lia.
    - assert (Z.log2 (p / q) < 53 + j)
        by (apply Z.log2_lt_pow2; [lia | exact Hlt]).
      lia. }
  assert (Hpow : 0 < 2 ^ sh) by (apply Z.pow_pos_nonneg; lia).
  assert (Hmono : 2 ^ sh <= 2 ^ j) by (apply Z.pow_le_mono_r; lia).
  pose proof (rne_error p (q * 2 ^ sh) ltac:(nia)) as He.
  pose proof (rne_nonneg p (q * 2 ^ sh) Hp ltac:(nia)) as Hn.
  split; [|nia].
  replace (rne p (q * 2 ^ sh) * 2 ^ sh * q) with (rne p (q * 2 ^ sh) * (q * 2 ^ sh))
    by ring.
  nia.
Qed.

Lemma round_units_0 (q : Z) : 0 < q -> round_units 0 q = 0.
Proof.
  intros Hq. unfold round_units, rne. cbv zeta.
  rewrite !Zdiv_0_l, Zmod_0_l.
  change (Z.max 0 (Z.log2 0 - 52)) with 0. change (2 ^ 0) with 1.
  rewrite !Z.mul_1_r.
  destruct (2 * 0 ?= q) eqn:C;
    [apply Z.compare_eq in C; lia | reflexivity | apply Z.compare_gt_iff in C; lia].
Qed.

(** Rounding a value below [2^(53+j)] units (for [j] up to 1073, that is a
    value below 2^52) moves it by at most half of [2^j] units. *)
Lemma to_double_within (p q j : Z) :
  0 < q -> 0 <= j <= 1073 -> Z.abs p < q * 2 ^ (53 + j) ->
  exists r,
    to_double p q = Finite r /\
    2 * Z.abs (r * q - p) <= q * 2 ^ j /\
    (0 <= p -> 0 <= r) /\ (p <= 0 -> r <= 0).
Proof.
  intros Hq Hj Hp.
  assert (Hdiv : Z.abs p / q < 2 ^ (53 + j))
    by (apply Z.div_lt_upper_bound; lia).
  destruct (round_units_error (Z.abs p) q j (Z.abs_nonneg p) Hq ltac:(lia) Hdiv)
    as [He Hn].
  clear Hdiv.
  set (m := round_units (Z.abs p) q) in *.
  assert (Hmneg : p < 0 -> round_units (- p) q = m)
    by (intros; unfold m; f_equal; lia).
  assert (Hmpos : 0 <= p -> round_units p q = m)
    by (intros; unfold m; f_equal; lia).
  assert (Hm0 : p = 0 -> m = 0)
    by (intros ->; unfold m; apply round_units_0; assumption).
  rewrite Z.pow_add_r in Hp by lia.
  assert (HJ : 0 < 2 ^ j) by (apply Z.pow_pos_nonneg; lia).
  assert (HJK : 2 ^ j <= 2 ^ 1073) by (apply Z.pow_le_mono_r; lia).
  set (J := 2 ^ j) in *.
  set (K := 2 ^ 1073) in HJK.
  assert (Hover : overflow_units = 2 ^ 1025 * K) by reflexivity.
  assert (HK : 0 < K) by reflexivity.
  clearbody J K m.
  assert (Hm : m < overflow_units).
  { rewrite Hover.
    assert (H1 : m * q < q * (2 ^ 54 * J)) by lia.
    assert (H2 : m < 2 ^ 54 * J) by nia.
    assert (H3 : 2 ^ 54 * J <= 2 ^ 54 * K) by lia.
    assert (H4 : 2 ^ 54 * K < 2 ^ 1025 * K).
    { apply Z.mul_lt_mono_pos_r; [exact HK | reflexivity]. }
    lia. }
  unfold to_double.
  destruct (p <? 0) eqn:Hneg.
  - apply Z.ltb_lt in Hneg. rewrite (Hmneg Hneg).
    destruct (overflow_units <=? Z.abs (- m)) eqn:Ho;
      [apply Z.leb_le in Ho; lia|].
    exists (- m). repeat split; lia.
  - apply Z.ltb_ge in Hneg. rewrite (Hmpos Hneg).
    destruct (overflow_units <=? Z.abs m) eqn:Ho;
      [apply Z.leb_le in Ho; lia|].
    exists m. repeat split; lia.
Qed.

Lemma rne_exact (c q : Z) : 0 < q -> rne (c * q) q = c.
Proof.
  intros Hq. unfold rne. cbv zeta.
  rewrite Z.div_mul, Z.mod_mul by lia.
  change (2 * 0) with 0.
  destruct (0 ?= q) eqn:C; [apply Z.compare_eq in C; lia | reflexivity|].
  apply Z.compare_gt_iff in C. lia.
Qed.

Lemma rne_upper (p q : Z) : 0 < q -> rne p q <= p / q + 1.
Proof.
  intros Hq. unfold rne. cbv zeta.
  destruct (2 * (p mod q) ?= q); [destruct (Z.even (p / q))| |]; lia.
Qed.

(** The quotient itself, when the remainder is at most half of [q] and the
    quotient is even. *)
Lemma rne_low (p q f : Z) :
  0 < q -> f * q <= p -> 2 * (p - f * q) <= q -> Z.even f = true ->
  rne p q = f.
Proof.
  intros Hq Hlo Hhi Hev.
  assert (Hf : p / q = f).
  { symmetry. apply (Z.div_unique p q f (p - f * q)); [left; lia | lia]. }
  assert (Hr : p mod q = p - f * q).
  { pose proof (Z.div_mod p q ltac:(lia)) as H. rewrite Hf in H. lia. }
  unfold rne. cbv zeta. rewrite Hf, Hr.
  destruct (2 * (p - f * q) ?= q) eqn:C.
  - rewrite Hev. reflexivity.
  - reflexivity.
  - apply Z.compare_gt_iff in C. lia.
Qed.

(** A value of at most 53 significant bits is a double: rounding leaves it
    as it is. *)
Lemma round_units_exact (m e q : Z) :
  0 < q -> 0 <= e -> 0 <= m <= 2 ^ 53 ->
  round_units (m * 2 ^ e * q) q = m * 2 ^ e.
Proof.
  intros Hq He Hm. unfold round_units. cbv zeta.
  rewrite Z.div_mul by lia.
  set (a := m * 2 ^ e).
  set (sh := Z.max 0 (Z.log2 a - 52)).
  assert (Hsh : 0 <= sh) by (unfold sh; lia).
  assert (Hpe : 0 < 2 ^ e) by (apply Z.pow_pos_nonneg; lia).
  assert (Hc : exists c, a = c * 2 ^ sh).
  { destruct (Z.eq_dec m 0) as [E0|E0].
    { exists 0. unfold a. rewrite E0. reflexivity. }
    destruct (Z.eq_dec m (2 ^ 53)) as [E|E].
    - assert (Ea : a = 2 ^ (53 + e))
        by (unfold a; rewrite E, Z.pow_add_r by lia; reflexivity).
      assert (Es : sh = e + 1).
      { unfold sh. rewrite Ea, Z.log2_pow2 by lia. lia. }
      exists (2 ^ 52). rewrite Es, Ea.
      rewrite <- Z.pow_add_r by lia. f_equal. lia.
    - assert (Ha : 0 < a) by (unfold a; nia).
      assert (Hlt : a < 2 ^ (53 + e)).
      { unfold a. rewrite Z.pow_add_r by lia. nia. }
      apply (Z.log2_lt_pow2 a (53 + e) Ha) in Hlt.
      assert (Hle : sh <= e) by (unfold sh; lia).
      exists (m * 2 ^ (e - sh)). unfold a.
      rewrite <- Z.mul_assoc, <- Z.pow_add_r by lia.
      do 2 f_equal. lia. }
  destruct Hc as [c Hc].
  assert (Hps : 0 < 2 ^ sh) by (apply Z.pow_pos_nonneg; lia).
  replace (a * q) with (c * (q * 2 ^ sh)) by (rewrite Hc; ring).
  rewrite rne_exact by nia. symmetry. exact Hc.
Qed.

(** The result of a rounding has at most 53 significant bits. *)
Lemma round_units_representable (p q : Z) :
  0 <= p -> 0 < q ->
  exists m,
    round_units p q = m * 2 ^ Z.max 0 (Z.log2 (p / q) - 52) /\
    0 <= m <= 2 ^ 53.
Proof.
  intros Hp Hq. unfold round_units. cbv zeta.
  set (sh := Z.max 0 (Z.log2 (p / q) - 52)).
  assert (Hsh : 0 <= sh) by (unfold sh; lia).
  assert (Hps : 0 < 2 ^ sh) by (apply Z.pow_pos_nonneg; lia).
  exists (rne p (q * 2 ^ sh)). split; [reflexivity|].
  split; [apply rne_nonneg; nia|].
  pose proof (rne_upper p (q * 2 ^ sh) ltac:(nia)) as Hu.
  assert (Hf : p / (q * 2 ^ sh) < 2 ^ 53); [|lia].
  rewrite <- Z.div_div by lia.
  pose proof (Z.div_pos p q Hp Hq) as Hf0.
  apply Z.div_lt_upper_bound; [lia|].
  rewrite Z.mul_comm, <- Z.pow_add_r by lia.
  destruct (Z.eq_dec (p / q) 0) as [E|E].
  - rewrite E. apply Z.pow_pos_nonneg; lia.
  - apply Z.log2_lt_pow2; [lia|]. unfold sh. lia.
Qed.

Lemma hundredths_bounds (a : Z) :
  0 <= a ->
  0 <= hundredths a /\
  - scale < 2 * (hundredths a * scale) - 200 * a <= scale.
Proof.
  intros Ha. unfold hundredths.
  assert (Hs : 0 < scale) by reflexivity.
  pose proof (Z.div_mod (2 * 100 * a + scale) (2 * scale) ltac:(lia)) as Hdm.
  pose proof (Z.mod_pos_bound (2 * 100 * a + scale) (2 * scale) ltac:(lia)) as Hr.
  pose proof (Z.div_pos (2 * 100 * a + scale) (2 * scale) ltac:(lia) ltac:(lia)).
  set (N := (2 * 100 * a + scale) / (2 * scale)) in *.
  set (r := (2 * 100 * a + scale) mod (2 * scale)) in *.
  clearbody N r. split; [assumption|]. lia.
Qed.

Lemma of_Z_1 : of_Z 1 = Finite scale.
Proof. vm_compute. reflexivity. Qed.

(** [Number((v - 1).toFixed(2))] where neighbouring doubles are [2^j] units
    apart or less: within 0.005 and one such distance of [v - 1]. *)
Lemma minus_one_fixed2_within (n j : Z) :
  0 <= j <= 1073 ->
  Z.abs (n - scale) + scale <= 2 ^ (53 + j) ->
  exists n',
    minus_one_fixed2 (Finite n) = Finite n' /\
    200 * Z.abs (n' - (n - scale)) <= scale + 200 * 2 ^ j.
Proof.
  intros Hj Hn.
  assert (Hs : 0 < scale) by reflexivity.
  assert (HJ : 0 < 2 ^ j) by (apply Z.pow_pos_nonneg; lia).
  assert (HJS : 2 * 2 ^ j <= scale).
  { change scale with (2 * 2 ^ 1073).
    apply Z.mul_le_mono_nonneg_l; [lia|]. apply Z.pow_le_mono_r; lia. }
  assert (Htop : 2 ^ (53 + j) <= 2 ^ 52 * scale).
  { change (2 ^ 52 * scale) with (2 ^ (53 + 1073)).
    apply Z.pow_le_mono_r; lia. }
  unfold minus_one_fixed2. rewrite of_Z_1. cbn [sub].
  destruct (to_double_within (n - scale) 1 j ltac:(lia) Hj ltac:(lia))
    as (x1 & -> & Hx1 & _ & _).
  remember (2 ^ (53 + j)) as T eqn:ET. remember (2 ^ j) as J eqn:EJ.
  assert (HT : T = 2 ^ 53 * J) by (subst T J; apply Z.pow_add_r; lia).
  assert (Hb : below_1e21 x1) by (unfold below_1e21; lia).
  rewrite (StringToNumber_toFixed_2 x1 Hb). cbv zeta.
  destruct (hundredths_bounds (Z.abs x1) (Z.abs_nonneg x1)) as [HN0 HN].
  set (N := hundredths (Z.abs x1)) in *.
  change (of_decimal N (-2)) with (to_double (N * scale) 100).
  set (P := N * scale) in *.
  assert (HP : 0 <= P) by (unfold P; nia).
  clearbody P.
  destruct (to_double_within P 100 j ltac:(lia) Hj)
    as (r2 & -> & Hr2 & Hr2pos & _).
  { rewrite <- ET. lia. }
  rewrite <- EJ in Hr2.
  specialize (Hr2pos HP).
  destruct (x1 <? 0) eqn:Hneg.
  - apply Z.ltb_lt in Hneg. exists (- r2). split; [reflexivity|]. lia.
  - apply Z.ltb_ge in Hneg. exists r2. split; [reflexivity|]. lia.
Qed.

(** The doubles from 2^51 on are multiples of one half, which [toFixed(2)]
    writes exactly and [Number] reads back as they are: from 2^52 - 1 up to
    2^53 + 1, [Number((v - 1).toFixed(2))] is the double nearest to
    [v - 1]. *)
Lemma minus_one_fixed2_integers (n : Z) :
  (2 ^ 52 - 1) * scale < Z.abs (n - scale) ->
  - (2 ^ 53 * scale) < n <= (2 ^ 53 + 2) * scale ->
  exists n',
    minus_one_fixed2 (Finite n) = Finite n' /\
    n' < n /\ n - 2 * scale <= n' /\
    (- ((2 ^ 53 - 1) * scale) <= n - scale -> - (2 ^ 53 * scale) < n').
Proof.
  intros Hlo Hn.
  assert (Hs : 0 < scale) by reflexivity.
  set (p := n - scale) in *.
  set (a := Z.abs p) in *.
  assert (Ha : a = Z.abs p) by reflexivity.
  assert (Hahi : a <= (2 ^ 53 + 1) * scale) by lia.
  assert (Hneg : p < 0 -> a < (2 ^ 53 + 1) * scale) by lia.
  (* the rounding of the magnitude *)
  set (X := round_units a 1).
  destruct (round_units_representable a 1 ltac:(lia) ltac:(lia)) as (m & HX & Hm).
  fold X in HX. rewrite Z.div_1_r in HX.
  assert (Hlog : 1125 <= Z.log2 a).
  { apply Z.log2_le_pow2; [lia|].
    change (2 ^ 1125) with (2 ^ 51 * scale). lia. }
  set (e := Z.max 0 (Z.log2 a - 52)) in HX.
  assert (He : 1073 <= e) by (unfold e; lia).
  (* how far the rounding goes, and on which side *)
  assert (Herr : 2 * Z.abs (X - a) <= 2 * scale /\ 0 <= X /\
                 (2 ^ 53 * scale <= a -> X = 2 ^ 53 * scale) /\
                 (a < 2 ^ 53 * scale -> 2 * Z.abs (X - a) <= scale)).
  { destruct (Z_lt_le_dec a (2 ^ 53 * scale)) as [Hsmall|Hbig].
    - destruct (round_units_error a 1 1074 ltac:(lia) ltac:(lia) ltac:(lia))
        as [H1 H2].
      { rewrite Z.div_1_r. change (2 ^ (53 + 1074)) with (2 ^ 53 * scale).
        exact Hsmall. }
      fold X in H1, H2. change (2 ^ 1074) with scale in H1.
      repeat split; lia.
    - assert (E : X = 2 ^ 53 * scale).
      { unfold X, round_units. cbv zeta. rewrite Z.div_1_r.
        assert (El : Z.log2 a = 1127).
        { apply Z.log2_unique; [lia|].
          change (2 ^ 1127) with (2 ^ 53 * scale).
          change (2 ^ Z.succ 1127) with (2 ^ 54 * scale). lia. }
        rewrite El. change (Z.max 0 (1127 - 52)) with 1075.
        rewrite (rne_low a (1 * 2 ^ 1075) (2 ^ 52)).
        - reflexivity.
        - reflexivity.
        - change (2 ^ 52 * (1 * 2 ^ 1075)) with (2 ^ 53 * scale). exact Hbig.
        - change (2 ^ 52 * (1 * 2 ^ 1075)) with (2 ^ 53 * scale).
          change (1 * 2 ^ 1075) with (2 * scale). lia.
        - reflexivity. }
      rewrite E. repeat split; lia. }
  destruct Herr as (Herr & HX0 & Hbig & Hsmall).
  (* the rounded magnitude is a multiple of one half *)
  assert (Hk : exists k, 0 <= k /\ 2 * X = k * scale).
  { exists (m * 2 ^ (e - 1073)). split.
    - apply Z.mul_nonneg_nonneg; [lia|]. apply Z.pow_nonneg. lia.
    - rewrite HX. change scale with (2 * 2 ^ 1073).
      replace e with (e - 1073 + 1073) at 1 by lia.
      rewrite Z.pow_add_r by lia. ring. }
  destruct Hk as (k & Hk0 & Hk).
  assert (Hhund : hundredths X * scale = X * 100).
  { assert (E : hundredths X = 50 * k).
    { unfold hundredths. symmetry.
      apply (Z.div_unique _ _ (50 * k) scale); [left; lia | nia]. }
    rewrite E. nia. }
  assert (Hread : of_decimal (hundredths X) (-2) = Finite X).
  { change (of_decimal (hundredths X) (-2))
      with (to_double (hundredths X * scale) 100).
    rewrite Hhund. unfold to_double.
    destruct (X * 100 <? 0) eqn:C; [apply Z.ltb_lt in C; lia|].
    replace (X * 100) with (m * 2 ^ e * 100) by (rewrite HX; reflexivity).
    rewrite round_units_exact by lia. rewrite <- HX.
    destruct (overflow_units <=? Z.abs X) eqn:Ho; [|reflexivity].
    apply Z.leb_le in Ho.
    change overflow_units with (2 ^ 1024 * scale) in Ho. lia. }
  (* the number itself *)
  set (x1 := if p <? 0 then - X else X).
  assert (Hx1 : to_double p 1 = Finite x1).
  { unfold to_double, x1.
    assert (E : (if p <? 0 then - p else p) = a)
      by (unfold a; destruct (p <? 0) eqn:C;
          [apply Z.ltb_lt in C | apply Z.ltb_ge in C]; lia).
    assert (E' : (if p <? 0 then - round_units (- p) 1 else round_units p 1)
                 = if p <? 0 then - X else X).
    { unfold X. rewrite <- E. destruct (p <? 0); reflexivity. }
    rewrite E'.
    destruct (overflow_units <=? Z.abs (if p <? 0 then - X else X)) eqn:Ho;
      [|reflexivity].
    apply Z.leb_le in Ho.
    change overflow_units with (2 ^ 1024 * scale) in Ho.
    destruct (p <? 0); lia. }
  assert (Habs : Z.abs x1 = X) by (unfold x1; destruct (p <? 0); lia).
  assert (Hb : below_1e21 x1).
  { unfold below_1e21. rewrite Habs. lia. }
  exists x1. split.
  - unfold minus_one_fixed2. rewrite of_Z_1. cbn [sub]. fold p.
    rewrite Hx1, (StringToNumber_toFixed_2 x1 Hb). cbv zeta.
    rewrite Habs, Hread. unfold x1.
    destruct (p <? 0) eqn:C.
    + assert (C' : (- X <? 0) = true).
      { apply Z.ltb_lt. apply Z.ltb_lt in C. lia. }
      rewrite C'. reflexivity.
    + assert (C' : (X <? 0) = false) by (apply Z.ltb_ge; lia).
      rewrite C'. reflexivity.
  - unfold x1. destruct (p <? 0) eqn:C;
      [apply Z.ltb_lt in C | apply Z.ltb_ge in C].
    + specialize (Hneg C).
      destruct (Z_lt_le_dec a (2 ^ 53 * scale)) as [H1|H1].
      * specialize (Hsmall H1). repeat split; lia.
      * rewrite (Hbig H1). repeat split; lia.
    + destruct (Z_lt_le_dec a (2 ^ 53 * scale)) as [H1|H1].
      * specialize (Hsmall H1). repeat split; lia.
      * rewrite (Hbig H1). repeat split; lia.
Qed.

(** [Number((v - 1).toFixed(2))] is below [v], by at most 2, for every [v]
    above -2^53 and up to 2^53 + 2. *)
Lemma minus_one_fixed2_lowers (n : Z) :
  - (2 ^ 53 * scale) < n <= (2 ^ 53 + 2) * scale ->
  exists n',
    minus_one_fixed2 (Finite n) = Finite n' /\
    n - 2 * scale <= n' < n /\
    (- ((2 ^ 53 - 2) * scale) <= n -> - (2 ^ 53 * scale) < n').
Proof.
  intros Hn.
  assert (Hs : 0 < scale) by reflexivity.
  destruct (Z_le_gt_dec (Z.abs (n - scale)) ((2 ^ 52 - 1) * scale)) as [H|H].
  - destruct (minus_one_fixed2_within n 1073 ltac:(lia)) as (n' & E & Hnear).
    { change (2 ^ (53 + 1073)) with (2 ^ 52 * scale). lia. }
    change (2 ^ 1073) with (scale / 2) in Hnear.
    assert (Hhalf : 2 * (scale / 2) = scale) by reflexivity.
    exists n'. split; [exact E|]. lia.
  - destruct (minus_one_fixed2_integers n ltac:(lia) Hn) as (n' & E & H1 & H2 & H3).
    exists n'. split; [exact E|]. split; [lia|]. intros Hlo. apply H3. lia.
Qed.

(* ===================================================================== *)
(** * Properties of [minusOneDeg] *)
(* ===================================================================== *)

Lemma minusOneDeg_obj (props : list (string * json)) :
  minusOneDeg (JObj props) = JObj (entries_rule props).
Proof.
  simpl. f_equal.
  induction props as [|[k v] ps IH]; simpl; [reflexivity|].
  rewrite IH. reflexivity.
Qed.

Lemma minusOneDeg_arr (items : list json) :
  minusOneDeg (JArr items) = JArr (map minusOneDeg items).
Proof. reflexivity. Qed.

(** A value that is not a finite number under the key [value] is treated
    as [minusOneDeg] treats it on its own. *)
Lemma value_rule_container (k : string) (v : json) :
  is_object v = true -> value_rule k v = minusOneDeg v.
Proof. destruct v; try discriminate; reflexivity. Qed.

Lemma lookup_entries_rule (k : string) (props : list (string * json)) :
  lookup k (entries_rule props)
  = if (k =? "__proto__")%string then None
    else option_map (value_rule k) (lookup k props).
Proof.
  induction props as [|[k' v] ps IH]; simpl.
  - destruct (k =? "__proto__")%string; reflexivity.
  - unfold assign.
    destruct (k' =? "__proto__")%string eqn:Hp'.
    + apply String.eqb_eq in Hp'. subst k'. rewrite IH.
      destruct (k =? "__proto__")%string; reflexivity.
    + simpl. destruct (k =? k')%string eqn:Hk.
      * apply String.eqb_eq in Hk. subst k'. rewrite Hp'. reflexivity.
      * exact IH.
Qed.

Lemma at_path_container (v : json) (s : step) (p : list step) (x : json) :
  at_path v (s :: p) = Some x -> is_object v = true.
Proof. destruct s, v; simpl; try discriminate; reflexivity. Qed.

Lemma value_at_cons (s : step) (s' : step) (p : list step) (x : json) :
  value_at (s :: s' :: p) x = value_at (s' :: p) x.
Proof. reflexivity. Qed.

Lemma value_at_key (k : string) (x : json) :
  value_at [Key k] x = value_rule k x.
Proof. reflexivity. Qed.

Lemma value_at_other (p : list step) (x : json) :
  last_key p = None -> value_at p x = minusOneDeg x.
Proof.
  intros H. unfold value_at, ends_with_value. rewrite H.
  destruct x; reflexivity.
Qed.

(** The value at a path of the result, for a path that exists in the
    document and has no [__proto__] step. *)
Lemma minusOneDeg_at_path (p : list step) :
  forall d x,
    at_path d p = Some x -> proto_free p = true ->
    at_path (minusOneDeg d) p = Some (value_at p x).
Proof.
  induction p as [|s p IH]; intros d x Hx Hfree.
  - injection Hx as <-. simpl. rewrite value_at_other by reflexivity. reflexivity.
  - destruct s as [k|i].
    + destruct d as [| | | | |props]; try discriminate.
      simpl in Hx, Hfree.
      apply andb_true_iff in Hfree. destruct Hfree as [Hk Hfree].
      apply negb_true_iff in Hk.
      destruct (lookup k props) as [v|] eqn:Hv; [|discriminate].
      rewrite minusOneDeg_obj. cbn [at_path].
      rewrite lookup_entries_rule, Hk, Hv. cbn [option_map].
      destruct p as [|s' p'].
      * injection Hx as <-. reflexivity.
      * rewrite value_rule_container by exact (at_path_container _ _ _ _ Hx).
        rewrite value_at_cons. apply IH; assumption.
    + destruct d as [| | | |items|]; try discriminate.
      simpl in Hx, Hfree.
      destruct (nth_error items i) as [v|] eqn:Hv; [|discriminate].
      rewrite minusOneDeg_arr. cbn [at_path].
      rewrite nth_error_map, Hv. cbn [option_map].
      destruct p as [|s' p'].
      * injection Hx as <-. simpl.
        rewrite value_at_other by reflexivity. reflexivity.
      * rewrite value_at_cons. apply IH; assumption.
Qed.

(** Every path of the result is a path of the document. *)
Lemma minusOneDeg_no_new_path (p : list step) :
  forall d y,
    at_path (minusOneDeg d) p = Some y -> exists x, at_path d p = Some x.
Proof.
  induction p as [|s p IH]; intros d y Hy.
  - exists d. reflexivity.
  - destruct s as [k|i].
    + destruct d as [| | | | |props]; try discriminate.
      rewrite minusOneDeg_obj in Hy. cbn [at_path] in *.
      rewrite lookup_entries_rule in Hy.
      destruct (k =? "__proto__")%string; [discriminate|].
      destruct (lookup k props) as [v|] eqn:Hv; [|discriminate].
      cbn [option_map] in Hy.
      destruct p as [|s' p']; [exists v; reflexivity|].
      assert (Hobj : is_object v = true).
      { destruct v as [| |n| | |]; try reflexivity; simpl in Hy;
          try destruct ((k =? "value")%string && isFinite n);
          destruct s'; discriminate. }
      rewrite (value_rule_container _ _ Hobj) in Hy.
      exact (IH _ _ Hy).
    + destruct d as [| | | |items|]; try discriminate.
      rewrite minusOneDeg_arr in Hy. cbn [at_path] in *.
      rewrite nth_error_map in Hy.
      destruct (nth_error items i) as [v|] eqn:Hv; [|discriminate].
      cbn [option_map] in Hy. exact (IH _ _ Hy).
Qed.

(** C7 fails on a key that is not named [value], by a slip of the code: the
    loop copies every own key of the object, but the assignment
    [out[k] = ...] to the key [__proto__] runs the setter every object
    inherits and gives [out] no property.  The result does not own the
    property [__proto__] of the document above, so the string under it is
    in the lines of the document and in none of the lines of the result. *)
Lemma minusOneDeg_drops_proto :
  at_path doc_with_proto [Key "__proto__"; Key "sensor"] = Some (JStr "DS18B20") /\
  at_path (minusOneDeg doc_with_proto) [Key "__proto__"; Key "sensor"] = None /\
  minusOneDeg doc_with_proto
  = JObj [("current", JObj [("value", JNum (of_Z 24));
                            ("ts", JNum (of_Z 1700000000000))])] /\
  flattenKV doc_with_proto "" []
  = ["__proto__.sensor=DS18B20"; "current.ts=1700000000000"; "current.value=25"] /\
  flattenKV (minusOneDeg doc_with_proto) "" []
  = ["current.ts=1700000000000"; "current.value=24"].
Proof. vm_compute. repeat split. Qed.

(** C7, for every key the assignment copies.  Along every path of the
    document that has no step named [__proto__]: a finite number under a
    key named [value] is replaced by
    [Number((v - 1).toFixed(2))]; a nested object or array is replaced by
    its own transform; every other value (under a key not named [value], a
    number that is not finite, a [value] that is not a number, an element of
    an array) is unchanged.  Where [v - 1] is below 10^21 in magnitude, the
    replacement is the double nearest to [v - 1] rounded to hundredths (the
    larger magnitude on a tie).  The result has no path the document has
    not. *)
Theorem minusOneDeg_transforms (d : json) (p : list step) (x : json) :
  at_path d p = Some x ->
  proto_free p = true ->
  at_path (minusOneDeg d) p
  = Some match x with
         | JNum n =>
             if ends_with_value p && isFinite n
             then JNum (minus_one_fixed2 n) else x
         | JArr _ | JObj _ => minusOneDeg x
         | _ => x
         end
  /\ (forall n x1,
        sub (Finite n) (of_Z 1) = Finite x1 -> below_1e21 x1 ->
        minus_one_fixed2 (Finite n)
        = let r := of_decimal (hundredths (Z.abs x1)) (-2) in
          if x1 <? 0 then negate r else r)
  /\ (forall q y,
        at_path (minusOneDeg d) q = Some y -> exists x', at_path d q = Some x').
Proof.
  intros Hx Hfree. split; [|split].
  - exact (minusOneDeg_at_path p d x Hx Hfree).
  - intros n x1 Hsub Hb. unfold minus_one_fixed2. rewrite Hsub.
    exact (StringToNumber_toFixed_2 x1 Hb).
  - intros q y. apply minusOneDeg_no_new_path.
Qed.

(** [{"current": {"value": 23.4, "ts": 1700000000000, "unit": "C"}}]: the
    theorem at [current.value], which becomes 22.4. *)
Lemma minusOneDeg_transforms_witness :
  at_path
    (minusOneDeg
       (JObj [("current", JObj [("value", JNum (of_decimal 234 (-1)));
                                ("ts", JNum (of_Z 1700000000000));
                                ("unit", JStr "C")])]))
    [Key "current"; Key "value"]
  = Some (JNum (of_decimal 224 (-1))).
Proof.
  pose proof (proj1 (minusOneDeg_transforms
                       (JObj [("current", JObj [("value", JNum (of_decimal 234 (-1)));
                                                ("ts", JNum (of_Z 1700000000000));
                                                ("unit", JStr "C")])])
                       [Key "current"; Key "value"]
                       (JNum (of_decimal 234 (-1))) eq_refl eq_refl)) as H.
  vm_compute in H |- *. exact H.
Defined.

(* ===================================================================== *)
(** * Applying [minusOneDeg] twice *)
(* ===================================================================== *)

(** C9, as stated, fails on large numbers.  2^54 - 1 is not a double and
    rounds back to 2^54, so the transform leaves the document as it is.
    Nearer to 0, the first numbers at which twice gives what once gives are
    2^53 + 4, which the transform leaves as it is, and -(2^53 - 1), which it
    takes to -2^53, where it stays. *)
Lemma minusOneDeg_fixed_point :
  (at_path doc_2_pow_54 [Key "value"] = Some (JNum (Finite (2 ^ 54 * scale))) /\
   minusOneDeg doc_2_pow_54 = doc_2_pow_54 /\
   minusOneDeg (minusOneDeg doc_2_pow_54) = minusOneDeg doc_2_pow_54) /\
  (at_path doc_above_2_pow_53 [Key "value"]
   = Some (JNum (Finite ((2 ^ 53 + 4) * scale))) /\
   minusOneDeg doc_above_2_pow_53 = doc_above_2_pow_53 /\
   minusOneDeg (minusOneDeg doc_above_2_pow_53) = minusOneDeg doc_above_2_pow_53) /\
  (at_path doc_below_minus_2_pow_53 [Key "value"]
   = Some (JNum (Finite (- ((2 ^ 53 - 1) * scale)))) /\
   at_path (minusOneDeg doc_below_minus_2_pow_53) [Key "value"]
   = Some (JNum (Finite (- (2 ^ 53 * scale)))) /\
   minusOneDeg (minusOneDeg doc_below_minus_2_pow_53)
   = minusOneDeg doc_below_minus_2_pow_53).
Proof. vm_compute. repeat split. Qed.

Lemma last_key_app (p : list step) (k : string) :
  last_key (p ++ [Key k]) = Some k.
Proof.
  induction p as [|s p IH]; [reflexivity|].
  cbn [app last_key]. destruct (p ++ [Key k])%list eqn:E.
  - destruct p; discriminate.
  - exact IH.
Qed.

Lemma proto_free_app (p : list step) (k : string) :
  proto_free p = true -> (k =? "__proto__")%string = false ->
  proto_free (p ++ [Key k]) = true.
Proof.
  intros Hp Hk. induction p as [|s p IH]; simpl.
  - rewrite Hk. reflexivity.
  - destruct s as [k'|i]; simpl in Hp.
    + apply andb_true_iff in Hp. destruct Hp as [H1 H2].
      rewrite H1. exact (IH H2).
    + exact (IH Hp).
Qed.

(** C9, amended.  When the document has, along a path with no step named
    [__proto__], an object key named [value] bound to a finite number from
    -(2^53 - 2) to 2^53 + 2 (the doubles next to these are -(2^53 - 1) and
    2^53 + 4), each application of the transform lowers that number, by at
    most 2 -- and by 1 to within 0.01 when its magnitude is at most 2^44 --
    so applying it twice gives a document different from applying it
    once. *)
Theorem minusOneDeg_not_idempotent (d : json) (p : list step) (n : Z) :
  at_path d (p ++ [Key "value"]) = Some (JNum (Finite n)) ->
  proto_free p = true ->
  - ((2 ^ 53 - 2) * scale) <= n <= (2 ^ 53 + 2) * scale ->
  exists n1 n2,
    at_path (minusOneDeg d) (p ++ [Key "value"]) = Some (JNum (Finite n1)) /\
    at_path (minusOneDeg (minusOneDeg d)) (p ++ [Key "value"])
    = Some (JNum (Finite n2)) /\
    n - 2 * scale <= n1 < n /\ n1 - 2 * scale <= n2 < n1 /\
    (Z.abs n <= 2 ^ 44 * scale ->
     100 * Z.abs (n1 - (n - scale)) <= scale /\
     100 * Z.abs (n2 - (n1 - scale)) <= scale) /\
    minusOneDeg (minusOneDeg d) <> minusOneDeg d.
Proof.
  intros Hx Hfree Hn.
  assert (Hs : 0 < scale) by reflexivity.
  set (P := (p ++ [Key "value"])%list) in *.
  assert (HP : proto_free P = true) by (apply proto_free_app; auto).
  assert (Hend : ends_with_value P = true)
    by (unfold ends_with_value, P; rewrite last_key_app; reflexivity).
  destruct (minus_one_fixed2_lowers n ltac:(lia)) as (n1 & E1 & Hn1 & Hlow).
  specialize (Hlow ltac:(lia)).
  destruct (minus_one_fixed2_lowers n1 ltac:(lia)) as (n2 & E2 & Hn2 & _).
  pose proof (minusOneDeg_at_path P d _ Hx HP) as H1.
  unfold value_at in H1. rewrite Hend in H1. cbn [isFinite andb] in H1.
  rewrite E1 in H1.
  pose proof (minusOneDeg_at_path P (minusOneDeg d) _ H1 HP) as H2.
  unfold value_at in H2. rewrite Hend in H2. cbn [isFinite andb] in H2.
  rewrite E2 in H2.
  exists n1, n2. repeat split; try assumption; try lia.
  - destruct (minus_one_fixed2_within n 1066 ltac:(lia)) as (n1' & E1' & Hnear).
    { change (2 ^ (53 + 1066)) with (2 ^ 45 * scale). lia. }
    rewrite E1 in E1'. injection E1' as <-.
    change (2 ^ 1066) with (scale / 256) in Hnear.
    assert (Hq : 256 * (scale / 256) = scale) by reflexivity.
    lia.
  - destruct (minus_one_fixed2_within n1 1066 ltac:(lia)) as (n2' & E2' & Hnear).
    { change (2 ^ (53 + 1066)) with (2 ^ 45 * scale). lia. }
    rewrite E2 in E2'. injection E2' as <-.
    change (2 ^ 1066) with (scale / 256) in Hnear.
    assert (Hq : 256 * (scale / 256) = scale) by reflexivity.
    lia.
  - intros Heq. rewrite Heq, H1 in H2. injection H2 as H2. lia.
Qed.

(** The theorem on [{"current": {"value": 23.4}}]: 22.4 after one
    application, 21.4 after two; and on [{"value": 9007199254740994}], the
    largest number of the theorem: 2^53 after one application, 2^53 - 1
    after two. *)
Lemma minusOneDeg_not_idempotent_witness :
  (exists n1 n2,
     at_path (minusOneDeg doc_cold) [Key "current"; Key "value"]
     = Some (JNum (Finite n1)) /\
     at_path (minusOneDeg (minusOneDeg doc_cold)) [Key "current"; Key "value"]
     = Some (JNum (Finite n2)) /\
     n2 < n1) /\
  minusOneDeg (minusOneDeg doc_2_pow_53_plus_2) <> minusOneDeg doc_2_pow_53_plus_2.
Proof.
  split.
  - destruct (minusOneDeg_not_idempotent doc_cold [Key "current"]
                match of_decimal 234 (-1) with Finite u => u | _ => 0 end)
      as (n1 & n2 & H1 & H2 & _ & Hlt & _).
    + vm_compute. reflexivity.
    + reflexivity.
    + vm_compute. split; discriminate.
    + exists n1, n2. exact (conj H1 (conj H2 (proj2 Hlt))).
  - destruct (minusOneDeg_not_idempotent doc_2_pow_53_plus_2 []
                ((2 ^ 53 + 2) * scale))
      as (n1 & n2 & _ & _ & _ & _ & _ & Hne).
    + vm_compute. reflexivity.
    + reflexivity.
    + vm_compute. split; discriminate.
    + exact Hne.
Defined.

(* ===================================================================== *)
(** * The content of [current.txt] *)
(* ===================================================================== *)

(** C8, as stated, fails from 10^21 on, where [toFixed] hands over to
    [String]: for the finite value 1e21 both variants write [1e+21] to
    [current.txt], which has no decimal places. *)
Lemma current_txt_at_1e21 :
  let w := world_serving doc_1e21 (PostResponse 202 "") in
  isFinite (of_decimal 1 21) = true /\
  current_string (Some (JNum (of_decimal 1 21))) = "1e+21" /\
  fixed2 "1e+21" = false /\
  nth_error (filter touches_files (fst (run_alert stub_runtime w))) 1
  = Some (WriteFileSync "public/current.txt" "1e+21") /\
  nth_error (filter touches_files (fst (run_offset stub_runtime w))) 1
  = Some (WriteFileSync "public/current.txt" "1e+21").
Proof. vm_compute. repeat split. Qed.

(** From 10^21 on, [toFixed] is [String]. *)
Lemma toFixed_from_1e21 (n : Z) (f : nat) :
  ~ below_1e21 n -> toFixed (Finite n) f = ToString (Finite n).
Proof.
  intros Hn. unfold below_1e21 in Hn. unfold toFixed, ToString.
  assert (Hpos : 0 < 10 ^ 21 * scale) by (unfold scale; lia).
  destruct (10 ^ 21 * scale <=? Z.abs n) eqn:Hbig;
    [|apply Z.leb_gt in Hbig; contradiction].
  destruct (n =? 0) eqn:H0; [|reflexivity].
  apply Z.eqb_eq in H0. subst n. apply Z.leb_le in Hbig.
  change (Z.abs 0) with 0 in Hbig. lia.
Qed.

(** C8, amended.  The string [Number.isFinite(v) ? v.toFixed(2) : 'N/A']
    that is written to [current.txt]: for a finite value of magnitude below
    10^21 it is a number with exactly two decimal places (an optional [-],
    digits, a point, two digits), and reading it back gives the double
    nearest to [v] rounded to hundredths; for a finite value of magnitude
    10^21 or more it is [String(v)]; for a value that is not finite it is
    [N/A]. *)
Theorem current_string_format (v : number) :
  (forall n, v = Finite n -> below_1e21 n ->
     fixed2 (current_string (Some (JNum v))) = true /\
     StringToNumber (current_string (Some (JNum v)))
     = let r := of_decimal (hundredths (Z.abs n)) (-2) in
       if n <? 0 then negate r else r) /\
  (forall n, v = Finite n -> ~ below_1e21 n ->
     current_string (Some (JNum v)) = ToString v) /\
  (isFinite v = false -> current_string (Some (JNum v)) = "N/A").
Proof.
  split; [|split].
  - intros n -> Hn. cbn [current_string isFinite]. split.
    + exact (fixed2_toFixed n Hn).
    + exact (StringToNumber_toFixed_2 n Hn).
  - intros n -> Hn. cbn [current_string isFinite].
    exact (toFixed_from_1e21 n 2 Hn).
  - intros Hv. unfold current_string. rewrite Hv. reflexivity.
Qed.

(** The theorem at 23.4, written as [23.40], and at 1e21, written as
    [String] writes it. *)
Lemma current_string_format_witness :
  fixed2 (current_string (Some (JNum (of_decimal 234 (-1))))) = true /\
  current_string (Some (JNum (of_decimal 234 (-1)))) = "23.40" /\
  current_string (Some (JNum (of_decimal 1 21))) = ToString (of_decimal 1 21).
Proof.
  set (v := of_decimal 234 (-1)).
  set (n := match v with Finite u => u | _ => 0 end).
  assert (E : v = Finite n) by (vm_compute; reflexivity).
  assert (B : below_1e21 n) by (vm_compute; reflexivity).
  pose proof (proj1 (current_string_format v) n E B) as H.
  split; [exact (proj1 H)|]. split; [vm_compute; reflexivity|].
  set (v' := of_decimal 1 21).
  set (n' := match v' with Finite u => u | _ => 0 end).
  assert (E' : v' = Finite n') by (vm_compute; reflexivity).
  assert (B' : ~ below_1e21 n') by (vm_compute; intros B'; discriminate B').
  exact (proj1 (proj2 (current_string_format v')) n' E' B').
Defined.

(* ===================================================================== *)
(** * The alert *)
(* ===================================================================== *)

Lemma filter_bind {A B : Type} (f : effect -> bool) (c : io A) (k : A -> io B) :
  filter f (fst (bind c k))
  = (filter f (fst c)
     ++ match snd c with
        | inr a => filter f (fst (k a))
        | inl _ => []
        end)%list.
Proof.
  destruct c as [t [e|a]]; simpl.
  - rewrite app_nil_r. reflexivity.
  - destruct (k a). simpl. apply filter_app.
Qed.

Lemma posts_writeFileSync rt w name content :
  filter is_post (fst (writeFileSync rt w name content)) = [].
Proof.
  unfold writeFileSync.
  destruct (fs_throws w (path_join rt (OUT_DIR w) name)); reflexivity.
Qed.

Lemma posts_mkdir_if_absent w : filter is_post (fst (mkdir_if_absent w)) = [].
Proof.
  unfold mkdir_if_absent.
  destruct (dir_exists w (OUT_DIR w)); [reflexivity|].
  destruct (fs_throws w (OUT_DIR w)); reflexivity.
Qed.

Ltac no_post_in_writes :=
  repeat (rewrite filter_bind, posts_writeFileSync; cbn [app];
          match goal with
          | |- context [snd (writeFileSync ?a ?b ?c ?d)] =>
              destruct (snd (writeFileSync a b c d)); [reflexivity|]
          end).

Lemma posts_write_site rt w doc currentStr tsBr heading ts :
  filter is_post (fst (write_site rt w doc currentStr tsBr heading ts)) = [].
Proof. unfold write_site. no_post_in_writes. reflexivity. Qed.

Lemma posts_write_data rt w doc currentStr (k : io unit) :
  filter is_post (fst k) = [] ->
  filter is_post (fst (write_data rt w doc currentStr ;;; k)) = [].
Proof.
  intros Hk. rewrite filter_bind.
  assert (Hd : filter is_post (fst (write_data rt w doc currentStr)) = []).
  { unfold write_data. no_post_in_writes. apply posts_writeFileSync. }
  rewrite Hd. destruct (snd (write_data rt w doc currentStr)); [reflexivity|].
  exact Hk.
Qed.

Lemma posts_script rt w (main : string -> io unit) c s :
  RTDB_URL w = Some (String c s) ->
  filter is_post (fst (script rt w main)) = filter is_post (fst (main (String c s))).
Proof.
  intros Hurl. unfold script. rewrite Hurl.
  destruct (main (String c s)) as [t [e|u]]; cbn [fst]; [|reflexivity].
  rewrite filter_app. cbn. apply app_nil_r.
Qed.

(** The requests the threshold check sends. *)
Lemma posts_check_threshold rt w t tsBr :
  filter is_post (fst (check_threshold rt w (Some (JNum t)) tsBr))
  = if isFinite t && (ltb t (of_Z 24) || gtb t (of_Z 26))
    then [HttpsPost "api.mailchannels.net" "/tx/v1/send"
            (JSON_stringify rt (alert_payload t tsBr))]
    else [].
Proof.
  unfold check_threshold.
  destruct (isFinite t); [|reflexivity].
  destruct (ltb t (of_Z 24) || gtb t (of_Z 26)); [|reflexivity].
  unfold sendAlertEmail.
  destruct (post_result (mail_server w)); reflexivity.
Qed.

(** C2, as stated, fails.  It does not hold of every validated snapshot:
    the document [{"current": {"value": 23.4, "ts": {"toString": 0}}}]
    passes the validation and its reading is finite and below 24, but
    [new Date(raw.current.ts)] throws before the threshold check, and the
    run ends with status 1 having sent no alert and written no file.  And
    its last part fails from 10^21 on: the reading 1e21 is finite and above
    26, the alert is sent, and its text gives the value as [1e+21], with no
    decimal places. *)
Lemma alert_not_sent_or_not_two_decimals :
  (let t := of_decimal 234 (-1) in
   let run := run_alert stub_runtime
                (world_serving doc_ts_object (PostResponse 202 "")) in
   validate doc_ts_object = true /\
   at_path doc_ts_object [Key "current"; Key "value"] = Some (JNum t) /\
   isFinite t && (ltb t (of_Z 24) || gtb t (of_Z 26)) = true /\
   filter is_post (fst run) = [] /\
   filter touches_files (fst run) = [] /\
   snd run = 1) /\
  (let t := of_decimal 1 21 in
   isFinite t && (ltb t (of_Z 24) || gtb t (of_Z 26)) = true /\
   toFixed t 2 = "1e+21" /\
   fixed2 (toFixed t 2) = false /\
   alert_subject t = "[ArcosLand] ALERTA: 1e+21 °C" /\
   filter is_post
     (fst (run_alert stub_runtime (world_serving doc_1e21 (PostResponse 202 ""))))
   = [HttpsPost "api.mailchannels.net" "/tx/v1/send" "{...}"]).
Proof. vm_compute. repeat split. Qed.

(** C2, amended.  For every validated snapshot whose timestamp
    [new Date(raw.current.ts).toLocaleString(...)] accepts, whatever happens
    afterwards: the alert is sent exactly once when the raw [current.value]
    is finite and below 24 or above 26, and not at all otherwise; when the
    value is not finite the check only logs a warning; the message that is
    sent has, as its text, a text that contains the localized timestamp and
    [tempRaw.toFixed(2)] of the raw value, which has exactly two decimal
    places when the value's magnitude is below 10^21 and is [String] of the
    value from 10^21 on.  When [new Date] throws on the timestamp, no alert
    is sent: the run ends with status 1 after the report of that error. *)
Theorem alert_dispatch
  (rt : runtime) (w : world) (c : ascii) (s : string)
  (raw current : json) (t : number) :
  let fetched := fetchJSONWithRetry (server w) (String c s) None None None in
  RTDB_URL w = Some (String c s) ->
  snd fetched = Resolved raw ->
  validate raw = true ->
  prop raw "current" = Some current ->
  prop current "value" = Some (JNum t) ->
  (forall tsBr,
     Date_toLocaleString rt (prop current "ts") = inr tsBr ->
     filter is_post (fst (run_alert rt w))
     = (if isFinite t && (ltb t (of_Z 24) || gtb t (of_Z 26))
        then [HttpsPost "api.mailchannels.net" "/tx/v1/send"
                (JSON_stringify rt (alert_payload t tsBr))]
        else []) /\
     (isFinite t = false ->
      fst (check_threshold rt w (Some (JNum t)) tsBr)
      = [Console "warn"
           "Temperatura bruta não é número finito, ignorando alerta."]) /\
     at_path (alert_payload t tsBr) [Key "content"; Index 0; Key "value"]
     = Some (JStr (alert_text t tsBr)) /\
     (exists before between after,
        alert_text t tsBr
        = (before ++ tsBr ++ between ++ toFixed t 2 ++ after)%string)) /\
  (forall e,
     Date_toLocaleString rt (prop current "ts") = inl e ->
     run_alert rt w
     = ((fst fetched ++ [Console "error" ("❌ ERRO: " ++ inspect rt e)])%list, 1) /\
     filter is_post (fst (run_alert rt w)) = []) /\
  (forall n, t = Finite n -> below_1e21 n -> fixed2 (toFixed t 2) = true) /\
  (forall n, t = Finite n -> ~ below_1e21 n -> toFixed t 2 = ToString t).
Proof.
  intros fetched Hurl Hres Hval Hcur Hv.
  split; [|split; [|split]].
  - intros tsBr Hdate. split; [|split; [|split]].
    + unfold run_alert. rewrite (posts_script rt w _ c s Hurl).
      unfold main_alert. fold fetched.
      rewrite filter_bind. unfold fetched at 1. unfold await at 1. cbn [fst].
      rewrite fetch_posts_nothing. cbn [app].
      unfold await. cbn [snd]. rewrite Hres.
      unfold check_shape. rewrite Hval, bind_ret_l.
      rewrite (read_current_valid raw current Hval Hcur), bind_ret_l, Hv.
      unfold localized. rewrite Hdate, bind_ret_l.
      rewrite filter_bind, posts_check_threshold.
      rewrite (proj1 (check_threshold_returns rt w (Some (JNum t)) tsBr)).
      rewrite filter_bind, posts_mkdir_if_absent. cbn [app].
      destruct (snd (mkdir_if_absent w)); [apply app_nil_r|].
      rewrite posts_write_data; [apply app_nil_r | apply posts_write_site].
    + intros Hfin. unfold check_threshold. rewrite Hfin. reflexivity.
    + reflexivity.
    + exists ("Alerta de temperatura em ArcosLand.

" ++ "Data/hora: ")%string, ("
" ++ "Temperatura (sem ajuste): ")%string, (" °C
" ++ "Limites configurados: mínimo 24 °C, máximo 26 °C.

" ++ "Origem: GitHub Actions (.github/scripts/generate.js).")%string.
      reflexivity.
  - intros e Hdate.
    rewrite (run_alert_no_date rt w c s raw current e Hurl Hres Hval Hcur Hdate).
    split; [reflexivity|]. cbn [fst]. rewrite filter_app.
    unfold fetched. rewrite fetch_posts_nothing. reflexivity.
  - intros n -> Hn. exact (fixed2_toFixed n Hn).
  - intros n -> Hn. exact (toFixed_from_1e21 n 2 Hn).
Qed.

(** The theorem on a reading of 23.4: one request. *)
Lemma alert_dispatch_witness :
  filter is_post
    (fst (run_alert stub_runtime (world_serving doc_cold (PostResponse 202 ""))))
  = [HttpsPost "api.mailchannels.net" "/tx/v1/send" "{...}"].
Proof.
  pose proof (proj1 (proj1 (alert_dispatch stub_runtime
                       (world_serving doc_cold (PostResponse 202 ""))
                       "h" "ttps://db.example/aquario.json" doc_cold
                       (JObj [("value", JNum (of_decimal 234 (-1)));
                              ("ts", JNum (of_Z 1700000000000))])
                       (of_decimal 234 (-1))
                       eq_refl eq_refl eq_refl eq_refl eq_refl)
                     "14/11/2023, 19:13:20" eq_refl)) as H.
  rewrite H. vm_compute. reflexivity.
Defined.

(* ===================================================================== *)
(** * The paths of [flattenKV] *)
(* ===================================================================== *)

(** ** The order on strings *)

Lemma ascii_compare_refl (c : ascii) : Ascii.compare c c = Eq.
Proof. unfold Ascii.compare. apply N.compare_refl. Qed.

Lemma string_compare_refl (s : string) : String.compare s s = Eq.
Proof.
  induction s as [|c s IH]; simpl; [reflexivity|].
  rewrite ascii_compare_refl. exact IH.
Qed.

Lemma ascii_compare_lt_trans (a b c : ascii) :
  Ascii.compare a b = Lt -> Ascii.compare b c = Lt -> Ascii.compare a c = Lt.
Proof.
  unfold Ascii.compare. rewrite !N.compare_lt_iff. apply N.lt_trans.
Qed.

Lemma string_compare_lt_trans (a : string) :
  forall b c,
    String.compare a b = Lt -> String.compare b c = Lt -> String.compare a c = Lt.
Proof.
  induction a as [|x a IH]; intros [|y b] [|z c]; simpl;
    try discriminate; try reflexivity.
  destruct (Ascii.compare x y) eqn:Hxy; try discriminate.
  - apply Ascii.compare_eq_iff in Hxy. subst y.
    destruct (Ascii.compare x z) eqn:Hxz; try discriminate; try reflexivity.
    apply IH.
  - intros _. destruct (Ascii.compare y z) eqn:Hyz; try discriminate.
    + apply Ascii.compare_eq_iff in Hyz. subst z. rewrite Hxy. reflexivity.
    + rewrite (ascii_compare_lt_trans _ _ _ Hxy Hyz). reflexivity.
Qed.

Lemma compare_units_refl (a : list N) : compare_units a a = Eq.
Proof.
  induction a as [|x a IH]; simpl; [reflexivity|].
  rewrite N.compare_refl. exact IH.
Qed.

Lemma compare_units_eq (a : list N) :
  forall b, compare_units a b = Eq -> a = b.
Proof.
  induction a as [|x a IH]; intros [|y b]; simpl; try discriminate; [reflexivity|].
  destruct (x ?= y)%N eqn:E; try discriminate.
  apply N.compare_eq in E. subst y. intros H. rewrite (IH _ H). reflexivity.
Qed.

Lemma compare_units_antisym (a : list N) :
  forall b, compare_units b a = CompOpp (compare_units a b).
Proof.
  induction a as [|x a IH]; intros [|y b]; simpl; try reflexivity.
  rewrite (N.compare_antisym x y).
  destruct (x ?= y)%N; simpl; [apply IH | reflexivity | reflexivity].
Qed.

Lemma compare_units_lt_trans (a : list N) :
  forall b c,
    compare_units a b = Lt -> compare_units b c = Lt -> compare_units a c = Lt.
Proof.
  induction a as [|x a IH]; intros [|y b] [|z c]; simpl;
    try discriminate; try reflexivity.
  destruct (x ?= y)%N eqn:Hxy; try discriminate.
  - apply N.compare_eq in Hxy. subst y.
    destruct (x ?= z)%N; try discriminate; try reflexivity. apply IH.
  - intros _. destruct (y ?= z)%N eqn:Hyz; try discriminate.
    + apply N.compare_eq in Hyz. subst z. rewrite Hxy. reflexivity.
    + apply N.compare_lt_iff in Hxy. apply N.compare_lt_iff in Hyz.
      assert (H : (x ?= z)%N = Lt)
        by (apply N.compare_lt_iff; exact (N.lt_trans _ _ _ Hxy Hyz)).
      rewrite H. reflexivity.
Qed.

Lemma compare_units_app_l (u x y : list N) :
  compare_units (u ++ x) (u ++ y) = compare_units x y.
Proof.
  induction u as [|c u IH]; simpl; [reflexivity|].
  rewrite N.compare_refl. exact IH.
Qed.

(** The code units of a string, by its first byte. *)
Lemma units_cons (c0 : ascii) (s0 : string) :
  units (String c0 s0)
  = let b0 := N_of_ascii c0 in
    let stray := (65536 + b0 :: units s0)%N in
    if (b0 <? 128)%N then b0 :: units s0
    else if (b0 <? 192)%N then stray
    else
      match s0 with
      | "" => stray
      | String c1 s1 =>
          if negb (is_continuation c1) then stray
          else if (b0 <? 224)%N then
            ((b0 - 192) * 64 + continuation_bits c1 :: units s1)%N
          else
            match s1 with
            | "" => stray
            | String c2 s2 =>
                if negb (is_continuation c2) then stray
                else if (b0 <? 240)%N then
                  ((b0 - 224) * 4096 + continuation_bits c1 * 64
                   + continuation_bits c2 :: units s2)%N
                else
                  match s2 with
                  | "" => stray
                  | String c3 s3 =>
                      let cp := ((b0 - 240) * 262144
                                 + continuation_bits c1 * 4096
                                 + continuation_bits c2 * 64
                                 + continuation_bits c3)%N in
                      if is_continuation c3 && (65536 <=? cp)%N
                         && (cp <? 1114112)%N
                      then (55296 + (cp - 65536) / 1024
                            :: 56320 + (cp - 65536) mod 1024
                            :: units s3)%N
                      else stray
                  end
            end
      end.
Proof. reflexivity. Qed.

Lemma well_formed_cons (c0 : ascii) (s0 : string) :
  well_formed (String c0 s0)
  = let b0 := N_of_ascii c0 in
    if (b0 <? 128)%N then well_formed s0
    else if (b0 <? 192)%N then false
    else
      match s0 with
      | "" => false
      | String c1 s1 =>
          if negb (is_continuation c1) then false
          else if (b0 <? 224)%N then well_formed s1
          else
            match s1 with
            | "" => false
            | String c2 s2 =>
                if negb (is_continuation c2) then false
                else if (b0 <? 240)%N then well_formed s2
                else
                  match s2 with
                  | "" => false
                  | String c3 s3 =>
                      let cp := ((b0 - 240) * 262144
                                 + continuation_bits c1 * 4096
                                 + continuation_bits c2 * 64
                                 + continuation_bits c3)%N in
                      is_continuation c3 && (65536 <=? cp)%N
                      && (cp <? 1114112)%N && well_formed s3
                  end
            end
      end.
Proof. reflexivity. Qed.

(** A string made of whole sequences keeps its code units, and stays so,
    whatever is put after it. *)
Lemma units_app_bounded (n : nat) :
  forall a, (String.length a <= n)%nat -> well_formed a = true ->
  forall b,
    units (a ++ b) = (units a ++ units b)%list /\
    well_formed (a ++ b) = well_formed b.
Proof.
  induction n as [|n IH]; intros a Hn Hwf b.
  - destruct a; [split; reflexivity | simpl in Hn; lia].
  - destruct a as [|c0 s0]; [split; reflexivity|].
    cbn [append String.length] in *.
    rewrite (units_cons c0 (s0 ++ b)), (units_cons c0 s0).
    rewrite (well_formed_cons c0 (s0 ++ b)).
    rewrite well_formed_cons in Hwf. cbv zeta in *.
    destruct (N_of_ascii c0 <? 128)%N.
    { destruct (IH s0 ltac:(lia) Hwf b) as [-> ->]. split; reflexivity. }
    destruct (N_of_ascii c0 <? 192)%N; [discriminate|].
    destruct s0 as [|c1 s1]; cbn [append String.length] in *; [discriminate|].
    destruct (is_continuation c1); cbn [negb] in *; [|discriminate].
    destruct (N_of_ascii c0 <? 224)%N.
    { destruct (IH s1 ltac:(lia) Hwf b) as [-> ->]. split; reflexivity. }
    destruct s1 as [|c2 s2]; cbn [append String.length] in *; [discriminate|].
    destruct (is_continuation c2); cbn [negb] in *; [|discriminate].
    destruct (N_of_ascii c0 <? 240)%N.
    { destruct (IH s2 ltac:(lia) Hwf b) as [-> ->]. split; reflexivity. }
    destruct s2 as [|c3 s3]; cbn [append String.length] in *; [discriminate|].
    match type of Hwf with
    | andb ?t (well_formed s3) = true =>
        destruct t; cbn [andb] in *; [|discriminate]
    end.
    destruct (IH s3 ltac:(lia) Hwf b) as [-> ->]. split; reflexivity.
Qed.

Lemma units_app (a b : string) :
  well_formed a = true -> units (a ++ b) = (units a ++ units b)%list.
Proof.
  intros H. exact (proj1 (units_app_bounded (String.length a) a (le_n _) H b)).
Qed.

Lemma well_formed_app (a b : string) :
  well_formed a = true -> well_formed b = true -> well_formed (a ++ b) = true.
Proof.
  intros Ha Hb.
  rewrite (proj2 (units_app_bounded (String.length a) a (le_n _) Ha b)).
  exact Hb.
Qed.

Lemma code_unit_compare_refl (s : string) : code_unit_compare s s = Eq.
Proof.
  unfold code_unit_compare. rewrite compare_units_refl. apply string_compare_refl.
Qed.

Lemma code_unit_compare_antisym (a b : string) :
  code_unit_compare b a = CompOpp (code_unit_compare a b).
Proof.
  unfold code_unit_compare.
  rewrite (compare_units_antisym (units a) (units b)).
  destruct (compare_units (units a) (units b)); simpl; try reflexivity.
  apply String.compare_antisym.
Qed.

Lemma code_unit_compare_lt_trans (a b c : string) :
  code_unit_compare a b = Lt -> code_unit_compare b c = Lt ->
  code_unit_compare a c = Lt.
Proof.
  unfold code_unit_compare.
  destruct (compare_units (units a) (units b)) eqn:Hab; try discriminate;
    destruct (compare_units (units b) (units c)) eqn:Hbc; try discriminate.
  - apply compare_units_eq in Hab. apply compare_units_eq in Hbc.
    rewrite Hab, Hbc, compare_units_refl. apply string_compare_lt_trans.
  - apply compare_units_eq in Hab. rewrite Hab, Hbc. reflexivity.
  - apply compare_units_eq in Hbc. rewrite <- Hbc, Hab. reflexivity.
  - rewrite (compare_units_lt_trans _ _ _ Hab Hbc). reflexivity.
Qed.

Lemma path_le_refl (p : string) : path_le p p.
Proof.
  unfold path_le, code_unit_leb. rewrite code_unit_compare_refl. reflexivity.
Qed.

Lemma code_unit_not_gt (a b : string) :
  code_unit_leb a b = true -> a = b \/ code_unit_compare a b = Lt.
Proof.
  unfold code_unit_leb. destruct (code_unit_compare a b) eqn:E; try discriminate.
  - left. unfold code_unit_compare in E.
    destruct (compare_units (units a) (units b)); try discriminate.
    apply String.compare_eq_iff. exact E.
  - right. reflexivity.
Qed.

Lemma code_unit_leb_total (a b : string) :
  code_unit_leb a b = true \/ code_unit_leb b a = true.
Proof.
  unfold code_unit_leb. rewrite (code_unit_compare_antisym a b).
  destruct (code_unit_compare a b); simpl; auto.
Qed.

Lemma code_unit_leb_trans (a b c : string) :
  code_unit_leb a b = true -> code_unit_leb b c = true -> code_unit_leb a c = true.
Proof.
  intros Hab Hbc.
  destruct (code_unit_not_gt _ _ Hab) as [->|Hab']; [exact Hbc|].
  destruct (code_unit_not_gt _ _ Hbc) as [<-|Hbc']; [exact Hab|].
  unfold code_unit_leb.
  rewrite (code_unit_compare_lt_trans _ _ _ Hab' Hbc'). reflexivity.
Qed.

Lemma string_lt_le (a b : string) :
  code_unit_compare a b = Lt -> path_le a b.
Proof. intros H. unfold path_le, code_unit_leb. rewrite H. reflexivity. Qed.

(** Keys in order give paths in order, whatever follows the keys, unless
    the smaller key is followed by a point and the larger key continues it
    with a code unit up to the point. *)
Lemma units_order_paths (u1 : list N) :
  forall u2 x y,
    compare_units u1 u2 = Lt ->
    (x = [] \/
     (exists x', x = 46%N :: x') /\
     (forall c, next_unit u1 u2 = Some c -> (46 < c)%N)) ->
    compare_units (u1 ++ x) (u2 ++ y) = Lt.
Proof.
  induction u1 as [|a u1 IH]; intros [|b u2] x y Hlt Hx;
    simpl in Hlt; try discriminate.
  - (* the smaller key begins the larger *)
    destruct Hx as [->|[[x' ->] Hc]]; [reflexivity|].
    cbn [app compare_units].
    specialize (Hc b eq_refl). apply N.compare_lt_iff in Hc.
    rewrite Hc. reflexivity.
  - cbn [app compare_units].
    destruct (a ?= b)%N eqn:Hab; try discriminate; [|reflexivity].
    apply IH; [exact Hlt|].
    destruct Hx as [->|[Hx Hc]]; [left; reflexivity|].
    right. split; [exact Hx|]. intros c Hnext. apply Hc.
    cbn [next_unit]. apply N.compare_eq in Hab. subst b.
    rewrite N.eqb_refl. exact Hnext.
Qed.

Lemma keys_order_paths (stem k1 k2 s1 s2 : string) :
  well_formed stem = true -> well_formed k1 = true -> well_formed k2 = true ->
  compare_units (units k1) (units k2) = Lt ->
  (s1 = "" \/ (exists s', s1 = String "." s') /\ continues_low k1 k2 = false) ->
  code_unit_compare (stem ++ k1 ++ s1) (stem ++ k2 ++ s2) = Lt.
Proof.
  intros Hstem H1 H2 Hlt Hs1. unfold code_unit_compare.
  rewrite !(units_app stem) by exact Hstem. rewrite compare_units_app_l.
  rewrite (units_app k1), (units_app k2) by assumption.
  rewrite (units_order_paths _ _ _ _ Hlt); [reflexivity|].
  destruct Hs1 as [->|[[s' ->] Hc]]; [left; reflexivity|].
  right. split; [exists (units s'); reflexivity|].
  intros c Hnext. unfold continues_low in Hc. rewrite Hnext in Hc.
  apply N.leb_gt in Hc. exact Hc.
Qed.

Lemma insert_key_perm {A : Type} (e : string * A) (l : list (string * A)) :
  Permutation (insert_key e l) (e :: l).
Proof.
  induction l as [|x l IH]; simpl; [reflexivity|].
  destruct (code_unit_leb (fst e) (fst x)); [reflexivity|].
  rewrite IH. apply perm_swap.
Qed.

Lemma sort_keys_perm {A : Type} (l : list (string * A)) :
  Permutation (sort_keys l) l.
Proof.
  induction l as [|x l IH]; simpl; [reflexivity|].
  rewrite insert_key_perm. constructor. exact IH.
Qed.

Lemma insert_key_sorted {A : Type} (e : string * A) (l : list (string * A)) :
  StronglySorted key_le l -> StronglySorted key_le (insert_key e l).
Proof.
  intros Hl. induction Hl as [|x l Hl IH Hx]; simpl.
  - repeat constructor.
  - destruct (code_unit_leb (fst e) (fst x)) eqn:Hex.
    + constructor; [constructor; assumption|].
      constructor; [exact Hex|].
      rewrite Forall_forall in *. intros y Hy.
      exact (code_unit_leb_trans _ _ _ Hex (Hx y Hy)).
    + constructor; [exact IH|].
      assert (Hxe : code_unit_leb (fst x) (fst e) = true).
      { destruct (code_unit_leb_total (fst e) (fst x)) as [H|H]; congruence. }
      rewrite Forall_forall in *. intros y Hy.
      apply (Permutation_in _ (insert_key_perm e l)) in Hy.
      destruct Hy as [<-|Hy]; [exact Hxe | exact (Hx y Hy)].
Qed.

Lemma sort_keys_sorted {A : Type} (l : list (string * A)) :
  StronglySorted key_le (sort_keys l).
Proof.
  induction l as [|x l IH]; simpl; [constructor|].
  apply insert_key_sorted. exact IH.
Qed.

(** With distinct keys the order is strict. *)
Lemma sorted_distinct_strict {A : Type} (l : list (string * A)) :
  StronglySorted key_le l -> NoDup (map fst l) -> StronglySorted key_lt l.
Proof.
  intros Hl. induction Hl as [|x l Hl IH Hx]; intros Hnd; [constructor|].
  simpl in Hnd. inversion Hnd as [|? ? Hnotin Hnd']; subst.
  constructor; [exact (IH Hnd')|].
  rewrite Forall_forall in *. intros y Hy.
  destruct (code_unit_not_gt _ _ (Hx y Hy)) as [E|Hlt]; [|exact Hlt].
  exfalso. apply Hnotin. rewrite E. apply in_map. exact Hy.
Qed.

(** With keys that are distinct JavaScript strings, the code units decide. *)
Lemma sorted_distinct_units {A : Type} (l : list (string * A)) :
  StronglySorted key_le l -> NoDup (map (fun kv => units (fst kv)) l) ->
  StronglySorted units_lt l.
Proof.
  intros Hl. induction Hl as [|x l Hl IH Hx]; intros Hnd; [constructor|].
  simpl in Hnd. inversion Hnd as [|? ? Hnotin Hnd']; subst.
  constructor; [exact (IH Hnd')|].
  rewrite Forall_forall in *. intros y Hy.
  specialize (Hx y Hy). unfold key_le, code_unit_leb, code_unit_compare in Hx.
  unfold units_lt.
  destruct (compare_units (units (fst x)) (units (fst y))) eqn:E;
    [|reflexivity|discriminate].
  exfalso. apply Hnotin. apply compare_units_eq in E. rewrite E.
  exact (in_map (fun kv => units (fst kv)) l y Hy).
Qed.

Lemma insert_key_map {A B : Type} (g : A -> B) (e : string * A)
  (l : list (string * A)) :
  insert_key (on_snd g e) (map (on_snd g) l) = map (on_snd g) (insert_key e l).
Proof.
  induction l as [|x l IH]; simpl; [reflexivity|].
  destruct (code_unit_leb (fst e) (fst x)); simpl; [reflexivity|].
  rewrite IH. reflexivity.
Qed.

Lemma sort_keys_map {A B : Type} (g : A -> B) (l : list (string * A)) :
  sort_keys (map (on_snd g) l) = map (on_snd g) (sort_keys l).
Proof.
  induction l as [|x l IH]; simpl; [reflexivity|].
  rewrite IH. apply insert_key_map.
Qed.

Lemma combine_map_r {A B C : Type} (g : B -> C) (l1 : list A) (l2 : list B) :
  combine l1 (map g l2) = map (fun kv => (fst kv, g (snd kv))) (combine l1 l2).
Proof.
  revert l2. induction l1 as [|a l1 IH]; intros [|b l2]; simpl; try reflexivity.
  rewrite IH. reflexivity.
Qed.

(** ** The traversal, over the sorted members *)

Lemma flatten_entries_members (d : json) (prefix : string) :
  is_object d = true ->
  flatten_entries d prefix
  = flat_map (fun kv => child_entries (snd kv) (join_path prefix (fst kv)))
             (sort_keys (members d)).
Proof.
  intros Hd.
  assert (H : flatten_entries d = entries_of_sorted (map (on_snd child_entries) (members d))).
  { destruct d as [| | | |items|props]; try discriminate; simpl.
    - f_equal. apply combine_map_r.
    - f_equal. apply map_ext. intros [k v]. reflexivity. }
  rewrite H. unfold entries_of_sorted.
  rewrite sort_keys_map, flat_map_concat_map, map_map, <- flat_map_concat_map.
  reflexivity.
Qed.

Lemma flattenKV_members (d : json) (prefix : string) (lines : list string) :
  is_object d = true ->
  flattenKV d prefix lines
  = fold_left (fun acc kv => child_lines (snd kv) (join_path prefix (fst kv)) acc)
              (sort_keys (members d)) lines.
Proof.
  intros Hd.
  assert (H : flattenKV d = for_sorted_keys (map (on_snd child_lines) (members d))).
  { destruct d as [| | | |items|props]; try discriminate; simpl.
    - f_equal. apply combine_map_r.
    - f_equal. apply map_ext. intros [k v]. reflexivity. }
  rewrite H. unfold for_sorted_keys.
  rewrite sort_keys_map.
  generalize (sort_keys (members d)) lines. clear.
  intros l. induction l as [|x l IH]; intros lines; simpl; [reflexivity|].
  apply IH.
Qed.

(** The children of a container, for an induction on the document. *)
Lemma members_children (P : json -> Prop) (d : json) :
  match d with
  | JArr items => Forall P items
  | JObj props => Forall (fun kv => P (snd kv)) props
  | _ => True
  end ->
  Forall (fun kv => P (snd kv)) (members d).
Proof.
  destruct d as [| | | |items|props]; simpl; try constructor; try tauto.
  intros H. apply Forall_forall. intros [k v] Hin.
  apply in_combine_r in Hin. rewrite Forall_forall in H. exact (H v Hin).
Qed.

(** The lines of [flattenKV] are its entries, each joined by [=] and pushed
    after the lines already there. *)
Lemma flattenKV_entries (d : json) :
  forall prefix lines,
    flattenKV d prefix lines
    = (lines ++ map line_of (flatten_entries d prefix))%list.
Proof.
  induction d as [| b | n | s | items IH | props IH] using json_ind;
    intros prefix lines; try reflexivity.
  all: rewrite flattenKV_members, flatten_entries_members by reflexivity.
  all: match goal with
       | |- context [members ?d] =>
           pose proof (members_children
                         (fun v => forall prefix lines,
                              flattenKV v prefix lines
                              = (lines ++ map line_of (flatten_entries v prefix))%list)
                         d IH) as Hch
       end.
  all: apply (Permutation_Forall (Permutation_sym (sort_keys_perm _))) in Hch.
  all: revert lines; induction Hch as [|[k v] l Hv Hl IHl]; intros lines;
    [simpl; rewrite app_nil_r; reflexivity|].
  all: cbn [fold_left flat_map fst snd]; rewrite IHl, map_app, app_assoc; f_equal.
  all: destruct v; try reflexivity; apply Hv.
Qed.

(** ** Well-keyed documents *)

Lemma nodupb_NoDup (l : list string) : nodupb l = true -> NoDup l.
Proof.
  induction l as [|x l IH]; simpl; intros H; [constructor|].
  apply andb_true_iff in H. destruct H as [Hx Hl].
  constructor; [|exact (IH Hl)].
  intros Hin. apply negb_true_iff in Hx.
  assert (existsb (String.eqb x) l = true); [|congruence].
  apply existsb_exists. exists x. split; [exact Hin | apply String.eqb_refl].
Qed.

Lemma distinct_units_NoDup (l : list string) :
  distinct_units l = true -> NoDup (map units l).
Proof.
  induction l as [|x l IH]; simpl; intros H; [constructor|].
  apply andb_true_iff in H. destruct H as [Hx Hl].
  constructor; [|exact (IH Hl)].
  intros Hin. apply negb_true_iff in Hx.
  assert (existsb (same_units x) l = true); [|congruence].
  apply in_map_iff in Hin. destruct Hin as (y & Hy & Hin).
  apply existsb_exists. exists y. split; [exact Hin|].
  unfold same_units. rewrite Hy, compare_units_refl. reflexivity.
Qed.

Lemma well_keyed_obj (props : list (string * json)) :
  well_keyed (JObj props)
  = distinct_units (map fst props)
    && forallb (fun kv => key_fits (map fst props) (fst kv) (snd kv)
                          && well_keyed (snd kv)) props.
Proof. reflexivity. Qed.

Lemma well_keyed_arr (items : list json) :
  well_keyed (JArr items) = forallb well_keyed items.
Proof. reflexivity. Qed.

Lemma dec_injective (a b : Z) : 0 <= a -> 0 <= b -> dec a = dec b -> a = b.
Proof.
  intros Ha Hb E.
  pose proof (digits_value_dec a Ha) as H1.
  pose proof (digits_value_dec b Hb) as H2.
  rewrite E in H1. congruence.
Qed.

Lemma NoDup_map_injective {A B : Type} (f : A -> B) (l : list A) :
  (forall x y, In x l -> In y l -> f x = f y -> x = y) ->
  NoDup l -> NoDup (map f l).
Proof.
  intros Hinj Hl. induction Hl as [|x l Hx Hl IH]; simpl; constructor.
  - intros Hin. apply in_map_iff in Hin. destruct Hin as (y & Hy & Hin).
    assert (y = x) by (apply Hinj; simpl; auto). subst y. contradiction.
  - apply IH. intros a b Ha Hb. apply Hinj; simpl; auto.
Qed.

Lemma index_keys_NoDup (n : nat) : NoDup (index_keys n).
Proof.
  unfold index_keys. apply NoDup_map_injective; [|apply seq_NoDup].
  intros x y _ _ E. apply dec_injective in E; lia.
Qed.

(** A digit is one byte and one code unit, above the point. *)
Lemma units_digit (c : ascii) (s : string) :
  is_digit c = true ->
  units (String c s) = N_of_ascii c :: units s /\
  well_formed (String c s) = well_formed s /\
  (46 < N_of_ascii c)%N.
Proof.
  intros Hc. unfold is_digit in Hc. apply andb_true_iff in Hc.
  destruct Hc as [Hlo Hhi]. apply N.leb_le in Hlo. apply N.leb_le in Hhi.
  rewrite units_cons, well_formed_cons. cbv zeta.
  assert (H : (N_of_ascii c <? 128)%N = true) by (apply N.ltb_lt; lia).
  rewrite H. repeat split. lia.
Qed.

Lemma units_digits (s : string) :
  all_digits s = true ->
  well_formed s = true /\ Forall (fun c => (46 < c)%N) (units s).
Proof.
  induction s as [|c s IH]; [intros _; split; [reflexivity | constructor]|].
  cbn [all_digits]. intros H. apply andb_true_iff in H. destruct H as [Hc Hs].
  destruct (units_digit c s Hc) as (-> & -> & Hlow).
  destruct (IH Hs) as [Hwf Hall]. split; [exact Hwf|].
  constructor; assumption.
Qed.

Lemma units_digits_injective (a : string) :
  forall b, all_digits a = true -> all_digits b = true ->
            units a = units b -> a = b.
Proof.
  induction a as [|c a IH]; intros [|d b]; cbn [all_digits]; intros Ha Hb E.
  - reflexivity.
  - apply andb_true_iff in Hb. destruct Hb as [Hd _].
    rewrite (proj1 (units_digit d b Hd)) in E. discriminate.
  - apply andb_true_iff in Ha. destruct Ha as [Hc _].
    rewrite (proj1 (units_digit c a Hc)) in E. discriminate.
  - apply andb_true_iff in Ha. destruct Ha as [Hc Ha].
    apply andb_true_iff in Hb. destruct Hb as [Hd Hb].
    rewrite (proj1 (units_digit c a Hc)), (proj1 (units_digit d b Hd)) in E.
    injection E as Hcd E.
    rewrite (IH b Ha Hb E).
    rewrite <- (ascii_N_embedding c), <- (ascii_N_embedding d), Hcd.
    reflexivity.
Qed.

Lemma index_keys_digits (n : nat) :
  Forall (fun k => k <> "" /\ all_digits k = true) (index_keys n).
Proof.
  unfold index_keys. apply Forall_forall. intros k Hk.
  apply in_map_iff in Hk. destruct Hk as (i & <- & _).
  destruct (dec_nonempty_digits (Z.of_nat i)) as (c & s & -> & Hd).
  split; [discriminate | exact Hd].
Qed.

Lemma index_keys_distinct_units (n : nat) : NoDup (map units (index_keys n)).
Proof.
  apply NoDup_map_injective; [|apply index_keys_NoDup].
  pose proof (index_keys_digits n) as Hd. rewrite Forall_forall in Hd.
  intros x y Hx Hy E.
  exact (units_digits_injective x y (proj2 (Hd x Hx)) (proj2 (Hd y Hy)) E).
Qed.

Lemma index_keys_length (n : nat) : List.length (index_keys n) = n.
Proof. unfold index_keys. rewrite length_map. apply length_seq. Qed.

Lemma map_fst_combine {A B : Type} (l1 : list A) (l2 : list B) :
  List.length l1 = List.length l2 -> map fst (combine l1 l2) = l1.
Proof.
  revert l2. induction l1 as [|a l1 IH]; intros [|b l2] H; simpl in *;
    try discriminate; [reflexivity|].
  rewrite IH by lia. reflexivity.
Qed.

Lemma next_unit_in (u : list N) :
  forall v c, next_unit u v = Some c -> In c v.
Proof.
  induction u as [|x u IH]; intros [|y v] c; cbn [next_unit]; try discriminate.
  - intros [= ->]. left. reflexivity.
  - destruct (x =? y)%N; [|discriminate]. intros H. right. exact (IH _ _ H).
Qed.

(** No key made of digits continues another key with a character up to the
    point. *)
Lemma digits_continue_high (k1 k2 : string) :
  all_digits k2 = true -> continues_low k1 k2 = false.
Proof.
  intros Hd. unfold continues_low.
  destruct (next_unit (units k1) (units k2)) as [c|] eqn:Hnext; [|reflexivity].
  apply next_unit_in in Hnext.
  destruct (units_digits k2 Hd) as [_ Hall]. rewrite Forall_forall in Hall.
  apply N.leb_gt. exact (Hall c Hnext).
Qed.

(** What [well_keyed] says of the members of a container: their keys are
    distinct JavaScript strings, each member fits, and the members are well
    keyed. *)
Lemma well_keyed_members (d : json) :
  well_keyed d = true ->
  NoDup (map (fun kv => units (fst kv)) (members d)) /\
  Forall (fun kv => fitting_member d kv /\ well_keyed (snd kv) = true) (members d).
Proof.
  destruct d as [| | | |items|props]; try (intros _; split; constructor).
  - rewrite well_keyed_arr. intros H. cbn [members].
    pose proof (index_keys_digits (List.length items)) as Hd.
    rewrite Forall_forall in Hd.
    split.
    + rewrite <- (map_map fst units).
      rewrite map_fst_combine by apply index_keys_length.
      apply index_keys_distinct_units.
    + apply Forall_forall. intros [k v] Hin. cbn [fst snd].
      destruct (Hd k (in_combine_l _ _ _ _ Hin)) as [Hne Hk].
      split; [split|].
      * exact (proj1 (units_digits k Hk)).
      * intros _. split; [exact Hne|]. intros [k2 v2] Hin2. cbn [fst].
        apply digits_continue_high.
        exact (proj2 (Hd k2 (in_combine_l _ _ _ _ Hin2))).
      * rewrite forallb_forall in H. apply H. exact (in_combine_r _ _ _ _ Hin).
  - rewrite well_keyed_obj. intros H. cbn [members].
    apply andb_true_iff in H. destruct H as [Hnd Hall].
    split.
    + rewrite <- (map_map fst units). exact (distinct_units_NoDup _ Hnd).
    + apply Forall_forall. intros kv Hin.
      rewrite forallb_forall in Hall. specialize (Hall kv Hin).
      apply andb_true_iff in Hall. destruct Hall as [Hfit Hkv].
      split; [|exact Hkv].
      unfold key_fits in Hfit. apply andb_true_iff in Hfit.
      destruct Hfit as [Hwf Hfit]. split; [exact Hwf|].
      intros Hobj. rewrite Hobj in Hfit. cbn [negb orb] in Hfit.
      apply andb_true_iff in Hfit. destruct Hfit as [Hne Hsib].
      split.
      * intros E. rewrite E in Hne. discriminate.
      * intros kv2 Hin2. rewrite forallb_forall in Hsib.
        specialize (Hsib (fst kv2) (in_map fst _ _ Hin2)).
        apply negb_true_iff in Hsib. exact Hsib.
Qed.

(** ** Sortedness *)

Lemma StronglySorted_app_between {A : Type} (R : A -> A -> Prop) (l1 l2 : list A) :
  StronglySorted R l1 -> StronglySorted R l2 ->
  (forall x y, In x l1 -> In y l2 -> R x y) ->
  StronglySorted R (l1 ++ l2).
Proof.
  intros H1 H2 Hx. induction H1 as [|a l1 H1 IH Ha]; simpl; [exact H2|].
  constructor.
  - apply IH. intros x y Hin. apply Hx. simpl. auto.
  - apply Forall_app. split; [exact Ha|].
    apply Forall_forall. intros y Hy. apply Hx; simpl; auto.
Qed.

Lemma StronglySorted_flat_map {A B : Type} (Rk : A -> A -> Prop)
  (R : B -> B -> Prop) (f : A -> list B) (l : list A) :
  StronglySorted Rk l ->
  (forall a, In a l -> StronglySorted R (f a)) ->
  (forall a b, In a l -> In b l -> Rk a b ->
     forall x y, In x (f a) -> In y (f b) -> R x y) ->
  StronglySorted R (flat_map f l).
Proof.
  intros Hl. induction Hl as [|a l Hl IH Ha]; intros Hin Hcross; simpl;
    [constructor|].
  apply StronglySorted_app_between.
  - apply Hin. simpl. auto.
  - apply IH.
    + intros b Hb. apply Hin. simpl. auto.
    + intros b c Hb Hc. apply Hcross; simpl; auto.
  - intros x y Hx Hy. apply in_flat_map in Hy. destruct Hy as (b & Hb & Hy).
    rewrite Forall_forall in Ha.
    apply (Hcross a b); simpl; auto.
Qed.

Lemma map_flat_map {A B C : Type} (g : B -> C) (f : A -> list B) (l : list A) :
  map g (flat_map f l) = flat_map (fun a => map g (f a)) l.
Proof.
  induction l as [|a l IH]; simpl; [reflexivity|].
  rewrite map_app, IH. reflexivity.
Qed.

Lemma join_path_stem (prefix k : string) :
  join_path prefix k = (path_stem prefix ++ k)%string.
Proof.
  destruct prefix as [|c p]; [reflexivity|].
  unfold join_path, path_stem. rewrite append_assoc. reflexivity.
Qed.

Lemma path_stem_well_formed (prefix : string) :
  well_formed prefix = true -> well_formed (path_stem prefix) = true.
Proof.
  intros H. destruct prefix as [|c p]; [reflexivity|].
  unfold path_stem. apply well_formed_app; [exact H | reflexivity].
Qed.

(** The paths under one property: in order, and each of them the stem, the
    key, and nothing or -- under a container -- a point and more. *)
Lemma member_paths (prefix k : string) (v : json) :
  well_formed prefix = true -> well_formed k = true ->
  (is_object v = true -> k <> "") ->
  paths_in_order v ->
  StronglySorted path_le (map fst (child_entries v (join_path prefix k))) /\
  forall q,
    In q (map fst (child_entries v (join_path prefix k))) ->
    exists s,
      q = (path_stem prefix ++ k ++ s)%string /\
      (s = "" \/ is_object v = true /\ exists s', s = String "." s').
Proof.
  intros Hprefix Hk Hne Hv.
  assert (Hwf : well_formed (join_path prefix k) = true).
  { rewrite join_path_stem.
    apply well_formed_app; [apply path_stem_well_formed|]; assumption. }
  destruct (Hv (join_path prefix k) Hwf) as [Hs Hp].
  destruct (is_object v) eqn:Hobj.
  - assert (E : child_entries v = flatten_entries v)
      by (destruct v; try discriminate; reflexivity).
    rewrite E. split; [exact Hs|].
    assert (Hjoin : join_path prefix k <> "").
    { rewrite join_path_stem. destruct (path_stem prefix); [|discriminate].
      exact (Hne eq_refl). }
    intros q Hq. destruct (Hp eq_refl Hjoin q Hq) as [s ->].
    exists (String "." s). split.
    + rewrite join_path_stem, !append_assoc. reflexivity.
    + right. split; [reflexivity|]. eexists. reflexivity.
  - assert (E : child_entries v = leaf_entry v)
      by (destruct v; try discriminate; reflexivity).
    rewrite E. split; [repeat constructor|].
    intros q [<-|[]]. exists "". split.
    + rewrite join_path_stem, append_empty_r. reflexivity.
    + left. reflexivity.
Qed.

Lemma container_paths_in_order (d : json) :
  is_object d = true ->
  NoDup (map (fun kv => units (fst kv)) (members d)) ->
  Forall (fun kv => fitting_member d kv /\ paths_in_order (snd kv)) (members d) ->
  paths_in_order d.
Proof.
  intros Hd Hnd Hmem prefix Hprefix.
  rewrite (flatten_entries_members d prefix Hd), map_flat_map.
  set (L := sort_keys (members d)).
  assert (HL : Permutation L (members d)) by apply sort_keys_perm.
  assert (Hsorted : StronglySorted units_lt L).
  { apply sorted_distinct_units; [apply sort_keys_sorted|].
    exact (Permutation_NoDup
             (Permutation_map (fun kv => units (fst kv)) (Permutation_sym HL))
             Hnd). }
  rewrite Forall_forall in Hmem.
  assert (HinL : forall kv, In kv L -> In kv (members d))
    by (intros kv Hin; exact (Permutation_in _ HL Hin)).
  clearbody L. clear HL Hnd.
  assert (Hshape :
    forall kv, In kv L ->
      StronglySorted path_le
        (map fst (child_entries (snd kv) (join_path prefix (fst kv)))) /\
      forall q,
        In q (map fst (child_entries (snd kv) (join_path prefix (fst kv)))) ->
        exists s,
          q = (path_stem prefix ++ fst kv ++ s)%string /\
          (s = "" \/ is_object (snd kv) = true /\ exists s', s = String "." s')).
  { intros kv Hin. destruct (Hmem kv (HinL kv Hin)) as [[Hk Hc] Hv].
    apply member_paths; try assumption.
    intros Hobj. exact (proj1 (Hc Hobj)). }
  split.
  - apply (StronglySorted_flat_map units_lt); [exact Hsorted | apply Hshape |].
    intros a b Ha Hb Hab x y Hx Hy.
    destruct (proj2 (Hshape a Ha) x Hx) as (s1 & -> & Hs1).
    destruct (proj2 (Hshape b Hb) y Hy) as (s2 & -> & _).
    destruct (Hmem a (HinL a Ha)) as [[Hka Hca] _].
    destruct (Hmem b (HinL b Hb)) as [[Hkb _] _].
    apply string_lt_le.
    apply keys_order_paths;
      [apply path_stem_well_formed; exact Hprefix | exact Hka | exact Hkb
      | exact Hab |].
    destruct Hs1 as [->|[Hobj Hs1]]; [left; reflexivity|].
    right. split; [exact Hs1|].
    exact (proj2 (Hca Hobj) b (HinL b Hb)).
  - intros _ Hne q Hq. apply in_flat_map in Hq. destruct Hq as (kv & Hin & Hq).
    destruct (proj2 (Hshape kv Hin) q Hq) as (s & -> & _).
    destruct prefix as [|c p]; [congruence|].
    exists (fst kv ++ s)%string. cbn [path_stem].
    rewrite append_assoc. reflexivity.
Qed.

Lemma flatten_entries_sorted (d : json) :
  well_keyed d = true -> paths_in_order d.
Proof.
  induction d as [| b | n | s | items IH | props IH] using json_ind; intros Hok;
    try (intros prefix _; split; [repeat constructor | discriminate]).
  all: destruct (well_keyed_members _ Hok) as [Hnd Hmem].
  all: apply container_paths_in_order; [reflexivity | exact Hnd |].
  - pose proof (members_children
                  (fun v => well_keyed v = true -> paths_in_order v)
                  (JArr items) IH) as Hch.
    rewrite Forall_forall in *. intros kv Hin.
    destruct (Hmem kv Hin) as [Hk Hv]. split; [exact Hk | exact (Hch kv Hin Hv)].
  - pose proof (members_children
                  (fun v => well_keyed v = true -> paths_in_order v)
                  (JObj props) IH) as Hch.
    rewrite Forall_forall in *. intros kv Hin.
    destruct (Hmem kv Hin) as [Hk Hv]. split; [exact Hk | exact (Hch kv Hin Hv)].
Qed.

(** C6, as stated, fails: the keys of each level are visited in ascending
    order, but the paths are not in order when a key continues the key of a
    sibling object with a character up to the point, or when the key of an
    object is empty. *)
Lemma flatten_paths_out_of_order :
  (flattenKV doc_hyphen "" [] = ["a.x=1"; "a-b=2"] /\
   flatten_paths doc_hyphen = ["a.x"; "a-b"] /\
   ~ Sorted path_le (flatten_paths doc_hyphen)) /\
  (flatten_paths doc_dotted_key = ["a.z"; "a.b"] /\
   ~ Sorted path_le (flatten_paths doc_dotted_key)) /\
  (flatten_paths doc_empty_key = ["z"; "a"] /\
   ~ Sorted path_le (flatten_paths doc_empty_key)).
Proof.
  assert (E1 : flatten_paths doc_hyphen = ["a.x"; "a-b"]) by (vm_compute; reflexivity).
  assert (E2 : flatten_paths doc_dotted_key = ["a.z"; "a.b"]) by (vm_compute; reflexivity).
  assert (E3 : flatten_paths doc_empty_key = ["z"; "a"]) by (vm_compute; reflexivity).
  assert (Hfirst : forall a b, code_unit_leb a b = false -> ~ Sorted path_le [a; b]).
  { intros a b Hab H. inversion H as [|? ? _ Hd]; subst.
    inversion Hd as [|? ? Hle]; subst. unfold path_le in Hle. congruence. }
  rewrite E1, E2, E3.
  split; [split; [vm_compute; reflexivity | split; [reflexivity|]]
         | split; (split; [reflexivity|])];
    apply Hfirst; vm_compute; reflexivity.
Qed.

(** C6, amended.  For every JSON document in which no key of an object or
    array is continued by a sibling key with a character up to the point
    (U+002E: a space, [-], the point and the like) and no object or array
    has the empty key -- every key being a string, and no object having a
    key twice, as [JSON.parse] gives them -- the lines of [flattenKV] are
    its entries in order, each as [path=value], and the sequence of their
    paths is non-decreasing in the order of their UTF-16 code units, which
    is the order of [<] on strings and of [sort()]. *)
Theorem flatten_paths_sorted (d : json) :
  well_keyed d = true ->
  flattenKV d "" [] = map line_of (flatten_entries d "") /\
  Sorted path_le (flatten_paths d).
Proof.
  intros Hok. split.
  - apply (flattenKV_entries d "" []).
  - apply StronglySorted_Sorted.
    exact (proj1 (flatten_entries_sorted d Hok "" eq_refl)).
Qed.

(** The theorem on a document with push ids, which begin with a hyphen, and
    with the keys U+FF5E and U+1F600, which [sort()] puts in the order of
    their code units: the surrogate pair before U+FF5E. *)
Lemma flatten_paths_sorted_witness :
  flattenKV doc_push_ids "" []
  = ["current.ts=1700000000000"; "current.value=23.4";
     "log.-NpQ1.value=23.4"; "log.-NpQ2.value=25"; "😀=2"; "～=1"] /\
  Sorted path_le
    ["current.ts"; "current.value"; "log.-NpQ1.value"; "log.-NpQ2.value";
     "😀"; "～"].
Proof.
  destruct (flatten_paths_sorted doc_push_ids eq_refl) as [Hlines Hsorted].
  split.
  - rewrite Hlines. vm_compute. reflexivity.
  - exact Hsorted.
Defined.

(* ===================================================================== *)
(** * A run of the first variant on a valid document *)
(* ===================================================================== *)

(** X7.  A run of the first variant on a document that passes the
    validation, with a file system that accepts every write: the effects of
    the fetch, the directory when it is absent, the seven files of the
    adjusted document [minusOneDeg(raw)] and the closing line, with status
    0, when [new Date] accepts the adjusted timestamp; and when it throws
    (line 75, after the three files of the data are written), those three
    files and the report of the error, with status 1.  With
    [run_alert_valid], this is where [current.txt] receives [current_string]
    of the chosen value: the adjusted one here, the raw one there. *)
Lemma run_offset_valid rt w c s raw current :
  let fetched := fetchJSONWithRetry (server w) (String c s) None None None in
  let adj := minusOneDeg raw in
  let current' := minusOneDeg current in
  let currentStr := current_string (prop current' "value") in
  RTDB_URL w = Some (String c s) ->
  snd fetched = Resolved raw ->
  validate raw = true ->
  prop raw "current" = Some current ->
  (forall p, fs_throws w p = None) ->
  prop adj "current" = Some current' /\
  (forall tsBr,
     Date_toLocaleString rt (prop current' "ts") = inr tsBr ->
     run_offset rt w
     = ((fst fetched
         ++ directory w
         ++ published rt w adj currentStr tsBr
              "JSON completo (ajustado −1&nbsp;°C)" (prop current' "ts")
         ++ [Console "log" ("✅ OK: arquivos gerados em " ++ OUT_DIR w)])%list,
        0)) /\
  (forall e,
     Date_toLocaleString rt (prop current' "ts") = inl e ->
     run_offset rt w
     = ((fst fetched
         ++ directory w
         ++ published_data rt w adj currentStr
         ++ [Console "error" ("❌ ERRO: " ++ inspect rt e)])%list,
        1)).
Proof.
  intros fetched adj current' currentStr Hurl Hres Hval Hcur Hfs.
  destruct (validate_true_shape raw Hval)
    as (props & cur & v & ts & -> & Hc & Hv & Hts & Ht).
  simpl in Hcur. rewrite Hc in Hcur. injection Hcur as <-.
  assert (Hadj : prop adj "current" = Some current').
  { unfold adj, current'. rewrite minusOneDeg_obj. cbn [prop].
    rewrite lookup_entries_rule. cbn [String.eqb Ascii.eqb Bool.eqb].
    rewrite Hc. reflexivity. }
  split; [exact Hadj|].
  assert (Hrc : read_current adj = ret current').
  { unfold read_current. rewrite Hadj. unfold current'.
    rewrite minusOneDeg_obj. reflexivity. }
  assert (Hrun : forall r : js_error + string,
    Date_toLocaleString rt (prop current' "ts") = r ->
    run_offset rt w
    = match r with
      | inr tsBr =>
          ((fst fetched
            ++ directory w
            ++ published rt w adj currentStr tsBr
                 "JSON completo (ajustado −1&nbsp;°C)" (prop current' "ts")
            ++ [Console "log" ("✅ OK: arquivos gerados em " ++ OUT_DIR w)])%list,
           0)
      | inl e =>
          ((fst fetched
            ++ directory w
            ++ published_data rt w adj currentStr
            ++ [Console "error" ("❌ ERRO: " ++ inspect rt e)])%list,
           1)
      end).
  { intros r Hdate.
    unfold run_offset, script, main_offset. rewrite Hurl. fold fetched.
    rewrite (bind_await_resolved _ _ _ Hres).
    unfold check_shape. rewrite Hval, bind_ret_l.
    fold adj.
    rewrite mkdir_if_absent_effects by assumption.
    rewrite Hrc.
    unfold bind at 1. rewrite bind_ret_l. fold currentStr.
    rewrite write_data_effects by assumption.
    unfold localized. rewrite Hdate.
    destruct r as [e|tsBr].
    - cbn [bind throw fst snd app]. rewrite app_nil_r, <- !app_assoc.
      reflexivity.
    - unfold bind at 1. rewrite bind_ret_l.
      rewrite write_site_effects by assumption.
      cbn [fst snd app]. reflexivity. }
  split.
  - intros tsBr Hdate. exact (Hrun _ Hdate).
  - intros e Hdate. exact (Hrun _ Hdate).
Qed.

(** The theorem on [{"current": {"value": 23.4, "ts": 1700000000000}}]: the
    run ends with status 0 and the adjusted document has its [current]; and
    on [{"current": {"value": 23.4, "ts": {"toString": 0}}}]: the run ends
    with status 1 after the three files of the data. *)
Lemma run_offset_valid_witness :
  (snd (run_offset stub_runtime (world_serving doc_cold (PostResponse 202 ""))) = 0 /\
   prop (minusOneDeg doc_cold) "current"
   = Some (minusOneDeg (JObj [("value", JNum (of_decimal 234 (-1)));
                              ("ts", JNum (of_Z 1700000000000))]))) /\
  (snd (run_offset stub_runtime
          (world_serving doc_ts_object (PostResponse 202 ""))) = 1 /\
   written_files
     (fst (run_offset stub_runtime
             (world_serving doc_ts_object (PostResponse 202 ""))))
   = ["public/current.txt"; "public/txt"; "public/data.json"]).
Proof.
  split.
  - pose proof (run_offset_valid stub_runtime
                  (world_serving doc_cold (PostResponse 202 ""))
                  "h" "ttps://db.example/aquario.json" doc_cold
                  (JObj [("value", JNum (of_decimal 234 (-1)));
                         ("ts", JNum (of_Z 1700000000000))])
                  eq_refl eq_refl eq_refl eq_refl (fun _ => eq_refl)) as H.
    cbv zeta in H. destruct H as [Hcur [Hrun _]].
    split; [rewrite (Hrun "14/11/2023, 19:13:20" eq_refl); reflexivity
           | exact Hcur].
  - pose proof (run_offset_valid stub_runtime
                  (world_serving doc_ts_object (PostResponse 202 ""))
                  "h" "ttps://db.example/aquario.json" doc_ts_object
                  (JObj [("value", JNum (of_decimal 234 (-1)));
                         ("ts", JObj [("toString", JNum (of_Z 0))])])
                  eq_refl eq_refl eq_refl eq_refl (fun _ => eq_refl)) as H.
    cbv zeta in H. destruct H as [_ [_ Hrun]].
    rewrite (Hrun (TypeError "Cannot convert object to primitive value") eq_refl).
    split; reflexivity.
Defined.

(* ===================================================================== *)
(** * Further properties of [esc] *)
(* ===================================================================== *)

Lemma length_append (a b : string) :
  String.length (a ++ b) = (String.length a + String.length b)%nat.
Proof. induction a as [|x a IH]; simpl; [reflexivity | now rewrite IH]. Qed.

(** The three characters [esc] rewrites, and the rest. *)
Lemma esc_char_cases (c : ascii) :
  (c = "&"%char /\ esc_char c = "&amp;")
  \/ (c = "<"%char /\ esc_char c = "&lt;")
  \/ (c = ">"%char /\ esc_char c = "&gt;")
  \/ (c <> "&"%char /\ c <> "<"%char /\ c <> ">"%char /\ esc_char c = String c "").
Proof.
  unfold esc_char.
  destruct (c =? "&")%char eqn:Ha; [apply Ascii.eqb_eq in Ha; auto|].
  destruct (c =? "<")%char eqn:Hl; [apply Ascii.eqb_eq in Hl; auto|].
  destruct (c =? ">")%char eqn:Hg; [apply Ascii.eqb_eq in Hg; auto 6|].
  apply Ascii.eqb_neq in Ha, Hl, Hg. auto 8.
Qed.

Lemma esc_length (s : string) :
  String.length (esc s)
  = (String.length s + 4 * count_char "&" s
     + 3 * count_char "<" s + 3 * count_char ">" s)%nat.
Proof.
  induction s as [|c s IH]; [reflexivity|].
  rewrite esc_cons, length_append, IH.
  destruct (esc_char_cases c) as [[-> ->]|[[-> ->]|[[-> ->]|(Ha & Hl & Hg & ->)]]];
    cbn [count_char String.length Ascii.eqb Bool.eqb]; try lia.
  apply Ascii.eqb_neq in Ha, Hl, Hg. rewrite Ha, Hl, Hg. lia.
Qed.

Lemma markup_free_cons (c : ascii) (s : string) :
  markup_free (String c s)
  = negb (c =? "&")%char && negb (c =? "<")%char && negb (c =? ">")%char
    && markup_free s.
Proof.
  unfold markup_free. cbn [free_of].
  destruct (c =? "&")%char, (c =? "<")%char, (c =? ">")%char,
    (free_of "&" s), (free_of "<" s), (free_of ">" s); reflexivity.
Qed.

Lemma free_of_append (c : ascii) (a b : string) :
  free_of c (a ++ b) = free_of c a && free_of c b.
Proof.
  induction a as [|x a IH]; simpl; [reflexivity|].
  rewrite IH. apply andb_assoc.
Qed.

(** The output has no [&] exactly when there was nothing to escape. *)
Lemma esc_ampersand_free (s : string) :
  free_of "&" (esc s) = markup_free s.
Proof.
  induction s as [|c s IH]; [reflexivity|].
  rewrite esc_cons, free_of_append, IH, markup_free_cons.
  destruct (esc_char_cases c) as [[-> ->]|[[-> ->]|[[-> ->]|(Ha & Hl & Hg & ->)]]];
    try reflexivity.
  apply Ascii.eqb_neq in Ha, Hl, Hg. cbn [free_of]. rewrite Ha, Hl, Hg.
  reflexivity.
Qed.

Lemma esc_markup_free (s : string) : markup_free s = true -> esc s = s.
Proof.
  induction s as [|c s IH]; [reflexivity|].
  rewrite markup_free_cons, esc_cons. intros H.
  apply andb_true_iff in H. destruct H as [H Hs].
  apply andb_true_iff in H. destruct H as [H Hg].
  apply andb_true_iff in H. destruct H as [Ha Hl].
  unfold esc_char.
  apply negb_true_iff in Ha, Hl, Hg. rewrite Ha, Hl, Hg, (IH Hs). reflexivity.
Qed.

Lemma esc_unchanged (s : string) : esc s = s -> markup_free s = true.
Proof.
  induction s as [|c s IH]; [reflexivity|].
  rewrite esc_cons, markup_free_cons. intros H.
  pose proof (esc_length s) as Hlen.
  destruct (esc_char_cases c) as [[-> E]|[[-> E]|[[-> E]|(Ha & Hl & Hg & E)]]];
    rewrite E in H.
  1-3: cbn [append] in H;
       first [ discriminate H
             | injection H as H; apply (f_equal String.length) in H;
               rewrite ?length_append in H; cbn [String.length] in H; lia ].
  injection H as H. apply Ascii.eqb_neq in Ha, Hl, Hg.
  rewrite Ha, Hl, Hg, (IH H). reflexivity.
Qed.

Lemma esc_char_nonempty (c : ascii) : exists x t, esc_char c = String x t.
Proof.
  destruct (esc_char_cases c) as [[_ ->]|[[_ ->]|[[_ ->]|(_ & _ & _ & ->)]]];
    eexists _, _; reflexivity.
Qed.

(** X12.  [esc] returns a text as it is exactly when the text has none of
    [&], [<] and [>]; and escaping twice gives what escaping once gives on
    exactly those texts: on every other text the second pass rewrites the
    [&] of the entities the first pass wrote. *)
Theorem esc_fixed_points (s : string) :
  (esc s = s <-> markup_free s = true) /\
  (esc (esc s) = esc s <-> markup_free s = true).
Proof.
  split.
  - split; [apply esc_unchanged | apply esc_markup_free].
  - split.
    + intros H. apply esc_unchanged in H.
      rewrite <- esc_ampersand_free.
      unfold markup_free in H.
      apply andb_true_iff in H. destruct H as [H _].
      apply andb_true_iff in H. tauto.
    + intros H. rewrite (esc_markup_free s H). exact (esc_markup_free s H).
Qed.

(** X13.  [esc] works piece by piece: the escape of a concatenation is the
    concatenation of the escapes; and its output is longer than its input
    by 4 characters for every [&] and by 3 for every [<] and every [>]. *)
Theorem esc_pieces (a b : string) :
  esc (a ++ b) = (esc a ++ esc b)%string /\
  String.length (esc a)
  = (String.length a + 4 * count_char "&" a
     + 3 * count_char "<" a + 3 * count_char ">" a)%nat.
Proof.
  split.
  - unfold esc. rewrite !replace_all_app. reflexivity.
  - apply esc_length.
Qed.

(** X14.  [esc] loses nothing: two texts with the same escape are the same
    text. *)
Theorem esc_injective (a b : string) : esc a = esc b <-> a = b.
Proof.
  split; [|intros ->; reflexivity].
  revert b. induction a as [|c a IH]; intros [|d b] H.
  - reflexivity.
  - rewrite esc_cons in H. destruct (esc_char_nonempty d) as (x & t & E).
    rewrite E in H. discriminate.
  - rewrite esc_cons in H. destruct (esc_char_nonempty c) as (x & t & E).
    rewrite E in H. discriminate.
  - rewrite !esc_cons in H.
    destruct (esc_char_cases c) as [[-> Ec]|[[-> Ec]|[[-> Ec]|(Ha & Hl & Hg & Ec)]]];
    destruct (esc_char_cases d) as [[-> Ed]|[[-> Ed]|[[-> Ed]|(Ha' & Hl' & Hg' & Ed)]]];
      rewrite ?Ec, ?Ed in H; cbn [append] in H;
      try discriminate;
      try (injection H as H; f_equal; apply IH; exact H);
      try (injection H as H1 H; congruence).
  injection H as -> H. f_equal. apply IH. exact H.
Qed.

(* ===================================================================== *)
(** * Further properties of [fetchJSONWithRetry]: whole calls *)
(* ===================================================================== *)

Section FetchRuns.

Variable server : Z -> attempt_outcome.
Variables (url : string) (retries baseDelay timeoutMs : Z).

Let run := tryOnce server url retries baseDelay timeoutMs.
Let sched := attempts_from url baseDelay timeoutMs.

(** [tryOnce], one step. *)
Lemma tryOnce_step (attempt : Z) :
  run attempt
  = match attempt_result (server (attempt + 1)) with
    | inl v => ([HttpsGet (attempt + 1) url timeoutMs], Resolved v)
    | inr err =>
        if Z_ge_lt_dec (attempt + 1) retries
        then ([HttpsGet (attempt + 1) url timeoutMs], Rejected err)
        else (HttpsGet (attempt + 1) url timeoutMs
                :: SetTimeout (baseDelay * 2 ^ (attempt + 1 - 1))
                :: fst (run (attempt + 1)),
              snd (run (attempt + 1)))
    end.
Proof.
  unfold run.
  funelim (tryOnce server url retries baseDelay timeoutMs attempt).
  - rewrite Heq. reflexivity.
  - rewrite Heq0, Heq. reflexivity.
  - rewrite Heq0, Heq. reflexivity.
Qed.

Lemma sched_S (a : Z) (n : nat) :
  sched a (S (S n))
  = HttpsGet a url timeoutMs :: SetTimeout (baseDelay * 2 ^ (a - 1))
      :: sched (a + 1) (S n).
Proof. reflexivity. Qed.

(** The run that meets [k] failures and then a success. *)
Lemma tryOnce_resolves (k : nat) :
  forall attempt v,
    (forall j, attempt < j <= attempt + Z.of_nat k ->
               exists e, attempt_result (server j) = inr e) ->
    attempt_result (server (attempt + Z.of_nat k + 1)) = inl v ->
    attempt + Z.of_nat k < retries \/ k = O ->
    run attempt = (sched (attempt + 1) (S k), Resolved v).
Proof.
  induction k as [|k IH]; intros attempt v Hfail Hok Hr.
  - rewrite tryOnce_step.
    replace (attempt + Z.of_nat 0 + 1) with (attempt + 1) in Hok by lia.
    rewrite Hok. reflexivity.
  - rewrite tryOnce_step.
    destruct (Hfail (attempt + 1) ltac:(lia)) as [e He]. rewrite He.
    destruct (Z_ge_lt_dec (attempt + 1) retries) as [Hge|Hlt]; [lia|].
    rewrite (IH (attempt + 1) v).
    + rewrite sched_S. replace (attempt + 1 - 1) with attempt by lia.
      reflexivity.
    + intros j Hj. apply Hfail. lia.
    + replace (attempt + 1 + Z.of_nat k + 1)
        with (attempt + Z.of_nat (S k) + 1) by lia.
      exact Hok.
    + left. lia.
Qed.

(** The run all of whose requests fail. *)
Lemma tryOnce_rejects (n : nat) :
  forall attempt err,
    Z.of_nat (S n) = Z.max 1 (retries - attempt) ->
    (forall j, attempt < j <= attempt + Z.of_nat (S n) ->
               exists e, attempt_result (server j) = inr e) ->
    attempt_result (server (attempt + Z.of_nat (S n))) = inr err ->
    run attempt = (sched (attempt + 1) (S n), Rejected err).
Proof.
  induction n as [|n IH]; intros attempt err Hn Hfail Hlast.
  - rewrite tryOnce_step.
    replace (attempt + Z.of_nat 1) with (attempt + 1) in Hlast by lia.
    rewrite Hlast.
    destruct (Z_ge_lt_dec (attempt + 1) retries) as [Hge|Hlt]; [reflexivity|lia].
  - rewrite tryOnce_step.
    destruct (Hfail (attempt + 1) ltac:(lia)) as [e He]. rewrite He.
    destruct (Z_ge_lt_dec (attempt + 1) retries) as [Hge|Hlt]; [lia|].
    rewrite (IH (attempt + 1) err).
    + rewrite sched_S. replace (attempt + 1 - 1) with attempt by lia.
      reflexivity.
    + lia.
    + intros j Hj. apply Hfail. lia.
    + replace (attempt + 1 + Z.of_nat (S n))
        with (attempt + Z.of_nat (S (S n))) by lia.
      exact Hlast.
Qed.

(** Whatever the requests meet, the effects of a run are a schedule of at
    least one request and of no more than reach [retries]. *)
Lemma tryOnce_trace (attempt : Z) :
  exists k : nat,
    Z.of_nat (S k) <= Z.max 1 (retries - attempt) /\
    fst (run attempt) = sched (attempt + 1) (S k).
Proof.
  unfold run.
  funelim (tryOnce server url retries baseDelay timeoutMs attempt); cbn [fst].
  - exists O. split; [lia | reflexivity].
  - exists O. split; [lia | reflexivity].
  - destruct H as (k & Hk & Ht). exists (S k). split; [lia|].
    unfold sched. rewrite sched_S. fold sched.
    replace (attempt + 1 - 1) with attempt by lia.
    unfold sched in Ht. rewrite Ht. reflexivity.
Qed.

Lemma requests_sched (n : nat) : forall a, requests (sched a n) = n.
Proof.
  induction n as [|n IH]; intros a; [reflexivity|].
  destruct n as [|n]; [reflexivity|].
  unfold sched. rewrite sched_S. fold sched. cbn [requests]. now rewrite IH.
Qed.

Lemma waited_sched (n : nat) :
  forall a, 1 <= a ->
    waited (sched a (S n)) = baseDelay * 2 ^ (a - 1) * (2 ^ Z.of_nat n - 1).
Proof.
  induction n as [|n IH]; intros a Ha.
  - cbn [sched attempts_from waited Z.of_nat]. change (2 ^ 0) with 1. lia.
  - unfold sched. rewrite sched_S. fold sched. cbn [waited].
    rewrite (IH (a + 1)) by lia.
    replace (a + 1 - 1) with (Z.succ (a - 1)) by lia.
    rewrite Nat2Z.inj_succ, !Z.pow_succ_r by lia. ring.
Qed.

End FetchRuns.

(** X1.  A call of [fetchJSONWithRetry] stops at the first success: when the
    first [k] requests fail and request [k + 1] succeeds ([k] below
    [retries], or no failure at all), the promise resolves with the document
    of request [k + 1], and the effects are the requests 1 to [k + 1] with
    the timers [baseDelay * 2^(j-1)] between them, and nothing after. *)
Theorem fetchJSONWithRetry_first_success
  (server : Z -> attempt_outcome) (url : string)
  (retries baseDelay timeoutMs : option Z) (k : nat) (v : json) :
  let maxAttempts := match retries with Some r => r | None => 3 end in
  let baseDelayMs := match baseDelay with Some b => b | None => 600 end in
  let timeout := match timeoutMs with Some t => t | None => 8000 end in
  (forall j, 1 <= j <= Z.of_nat k -> exists e, attempt_result (server j) = inr e) ->
  attempt_result (server (Z.of_nat k + 1)) = inl v ->
  Z.of_nat k < maxAttempts \/ k = O ->
  fetchJSONWithRetry server url retries baseDelay timeoutMs
  = (attempts_from url baseDelayMs timeout 1 (S k), Resolved v).
Proof.
  intros maxAttempts baseDelayMs timeout Hfail Hok Hk.
  unfold fetchJSONWithRetry.
  apply (tryOnce_resolves server url maxAttempts baseDelayMs timeout k 0 v).
  - intros j Hj. apply Hfail. lia.
  - exact Hok.
  - destruct Hk as [Hk|Hk]; [left; lia | right; exact Hk].
Qed.

(** The theorem on the default call against a server that answers the third
    request. *)
Lemma fetchJSONWithRetry_first_success_witness :
  fetchJSONWithRetry third_time_lucky "u" None None None
  = ([HttpsGet 1 "u" 8000; SetTimeout 600; HttpsGet 2 "u" 8000;
      SetTimeout 1200; HttpsGet 3 "u" 8000],
     Resolved JNull).
Proof.
  apply (fetchJSONWithRetry_first_success third_time_lucky "u" None None None
           2 JNull).
  - intros j Hj. assert (C : j = 1 \/ j = 2) by lia.
    destruct C as [-> | ->]; eexists; reflexivity.
  - reflexivity.
  - left. reflexivity.
Defined.

(** X2.  When every request fails, a call makes [max(1, retries)] requests,
    with the timers between them, and the promise is rejected with the
    error of the last one; with [retries] of 1 or less (0, negative) that
    is one request and no timer. *)
Theorem fetchJSONWithRetry_exhausted
  (server : Z -> attempt_outcome) (url : string)
  (retries baseDelay timeoutMs : option Z) (err : js_error) :
  let maxAttempts := match retries with Some r => r | None => 3 end in
  let baseDelayMs := match baseDelay with Some b => b | None => 600 end in
  let timeout := match timeoutMs with Some t => t | None => 8000 end in
  let n := Z.max 1 maxAttempts in
  (forall j, 1 <= j <= n -> exists e, attempt_result (server j) = inr e) ->
  attempt_result (server n) = inr err ->
  fetchJSONWithRetry server url retries baseDelay timeoutMs
  = (attempts_from url baseDelayMs timeout 1 (Z.to_nat n), Rejected err).
Proof.
  intros maxAttempts baseDelayMs timeout n Hfail Hlast.
  unfold fetchJSONWithRetry.
  assert (Hn : Z.to_nat n = S (Z.to_nat (n - 1)))
    by (unfold n; lia).
  rewrite Hn.
  apply (tryOnce_rejects server url maxAttempts baseDelayMs timeout
           (Z.to_nat (n - 1)) 0 err).
  - unfold n. lia.
  - intros j Hj. apply Hfail. unfold n in *. lia.
  - replace (0 + Z.of_nat (S (Z.to_nat (n - 1)))) with n by (unfold n; lia).
    exact Hlast.
Qed.

(** The theorem on a call with [retries = 0] against a server that answers
    503: one request, no timer. *)
Lemma fetchJSONWithRetry_exhausted_witness :
  fetchJSONWithRetry (fun _ => Response 503 (Parsed JNull)) "u"
    (Some 0) None None
  = ([HttpsGet 1 "u" 8000], Rejected (Error "HTTP 503")).
Proof.
  apply (fetchJSONWithRetry_exhausted (fun _ => Response 503 (Parsed JNull))
           "u" (Some 0) None None (Error "HTTP 503")).
  - intros j _. eexists. reflexivity.
  - reflexivity.
Defined.

(** X3.  Whatever the requests meet, a call makes at least one request and
    at most [max(1, retries)]; its effects are the requests 1 to [k] with
    the timers between them, and the delays of its timers add up to
    [baseDelay * (2^(k-1) - 1)]: with the defaults, at most 3 requests and
    1800 ms of delays. *)
Theorem fetchJSONWithRetry_bounded
  (server : Z -> attempt_outcome) (url : string)
  (retries baseDelay timeoutMs : option Z) :
  let maxAttempts := match retries with Some r => r | None => 3 end in
  let baseDelayMs := match baseDelay with Some b => b | None => 600 end in
  let timeout := match timeoutMs with Some t => t | None => 8000 end in
  let trace := fst (fetchJSONWithRetry server url retries baseDelay timeoutMs) in
  exists k : nat,
    1 <= Z.of_nat k <= Z.max 1 maxAttempts /\
    trace = attempts_from url baseDelayMs timeout 1 k /\
    requests trace = k /\
    waited trace = baseDelayMs * (2 ^ (Z.of_nat k - 1) - 1).
Proof.
  intros maxAttempts baseDelayMs timeout trace.
  destruct (tryOnce_trace server url maxAttempts baseDelayMs timeout 0)
    as (k & Hk & Ht).
  exists (S k). unfold trace, fetchJSONWithRetry.
  fold maxAttempts baseDelayMs timeout. rewrite Ht.
  split; [lia|]. split; [reflexivity|]. split.
  - apply requests_sched.
  - rewrite waited_sched by lia.
    change (2 ^ (0 + 1 - 1)) with 1.
    replace (Z.of_nat (S k) - 1) with (Z.of_nat k) by lia. ring.
Qed.

(* ===================================================================== *)
(** * The exit status and the files of a run *)
(* ===================================================================== *)






Lemma bind_effects {A B : Type} (c : io A) (k : A -> io B) :
  fst (bind c k)
  = (fst c ++ match snd c with inr a => fst (k a) | inl _ => [] end)%list.
Proof.
  destruct c as [t [e|a]]; simpl; [now rewrite app_nil_r|].
  destruct (k a). reflexivity.
Qed.



Section Publish.

Variables (rt : runtime) (w : world).












End Publish.





(** X4.  Either variant exits with status 2 exactly when [RTDB_URL] is unset
    or empty, and then its only effect is the line [RTDB_URL não definido]
    on the error output; with [RTDB_URL] set, the first effect is the
    request 1 to that URL, with the timeout of 8000 ms. *)
Theorem missing_url_exits_2 (rt : runtime) (w : world) :
  let unset := RTDB_URL w = None \/ RTDB_URL w = Some "" in
  let report := [Console "error" "RTDB_URL não definido"] in
  (unset <-> run_offset rt w = (report, 2)) /\
  (unset <-> run_alert rt w = (report, 2)) /\
  (unset <-> snd (run_offset rt w) = 2) /\
  (unset <-> snd (run_alert rt w) = 2) /\
  (forall url, RTDB_URL w = Some url -> url <> "" ->
     (exists rest, fst (run_offset rt w) = HttpsGet 1 url 8000 :: rest) /\
     (exists rest, fst (run_alert rt w) = HttpsGet 1 url 8000 :: rest)).
Proof.
  assert (Hscript : forall main : string -> io unit,
    (RTDB_URL w = None \/ RTDB_URL w = Some "" -> script rt w main
       = ([Console "error" "RTDB_URL não definido"], 2)) /\
    (snd (script rt w main) = 2 -> RTDB_URL w = None \/ RTDB_URL w = Some "")).
  { intros main. unfold script. split.
    - intros [->| ->]; reflexivity.
    - destruct (RTDB_URL w) as [[|c s]|]; auto.
      destruct (main (String c s)) as [t [e|u]]; cbn [snd]; discriminate. }
  assert (Hhead : forall main : string -> io unit,
    (forall url, exists rest, fst (main url) = HttpsGet 1 url 8000 :: rest) ->
    forall url, RTDB_URL w = Some url -> url <> "" ->
      exists rest, fst (script rt w main) = HttpsGet 1 url 8000 :: rest).
  { intros main Hmain url Hurl Hne. unfold script. rewrite Hurl.
    destruct url as [|c s]; [congruence|].
    destruct (Hmain (String c s)) as [rest Hrest].
    destruct (main (String c s)) as [t [e|u]]; cbn [fst] in *; subst t.
    - eexists. reflexivity.
    - eexists. reflexivity. }
  assert (Hfetch : forall url (k : json -> io unit),
    exists rest,
      fst (bind (await (fetchJSONWithRetry (server w) url None None None)) k)
      = HttpsGet 1 url 8000 :: rest).
  { intros url k. rewrite bind_effects. unfold await at 1. cbn [fst].
    destruct (tryOnce_head (server w) url 3 600 8000 0) as [rest Hrest].
    unfold fetchJSONWithRetry at 1. rewrite Hrest. eexists. reflexivity. }
  intros unset report. unfold run_offset, run_alert.
  split; [|split; [|split; [|split]]].
  - split; [apply Hscript|]. intros H. apply (Hscript (main_offset rt w)).
    rewrite H. reflexivity.
  - split; [apply Hscript|]. intros H. apply (Hscript (main_alert rt w)).
    rewrite H. reflexivity.
  - split; [|apply Hscript]. intros H.
    rewrite (proj1 (Hscript (main_offset rt w)) H). reflexivity.
  - split; [|apply Hscript]. intros H.
    rewrite (proj1 (Hscript (main_alert rt w)) H). reflexivity.
  - intros url Hurl Hne. split; apply Hhead; try assumption; intros u; apply Hfetch.
Qed.

(** X5.  When the three requests of the fetch fail, the promise is rejected
    with the error of the third, and either variant ends with status 1
    after exactly the requests 1, 2 and 3 with the timers of 600 and
    1200 ms between them and one report on the error output: no alert is
    sent, no directory is created and no file is written. *)
Theorem failed_fetch_exits_1
  (rt : runtime) (w : world) (c : ascii) (s : string) (err : js_error) :
  let url := String c s in
  let trace :=
    [HttpsGet 1 url 8000; SetTimeout 600; HttpsGet 2 url 8000;
     SetTimeout 1200; HttpsGet 3 url 8000] in
  RTDB_URL w = Some url ->
  (forall j, 1 <= j <= 3 -> exists e, attempt_result (server w j) = inr e) ->
  attempt_result (server w 3) = inr err ->
  snd (fetchJSONWithRetry (server w) url None None None) = Rejected err /\
  exists report,
    run_offset rt w = ((trace ++ [Console "error" report])%list, 1) /\
    run_alert rt w = ((trace ++ [Console "error" report])%list, 1).
Proof.
  intros url trace Hurl Hfail Hlast.
  assert (Hf : fetchJSONWithRetry (server w) url None None None
               = (trace, Rejected err)).
  { unfold fetchJSONWithRetry.
    rewrite (tryOnce_step (server w) url 3 600 8000 0).
    destruct (Hfail 1 ltac:(lia)) as [e1 H1]. cbn [Z.add]. rewrite H1.
    destruct (Z_ge_lt_dec 1 3) as [?|_]; [lia|].
    rewrite (tryOnce_step (server w) url 3 600 8000 1).
    destruct (Hfail 2 ltac:(lia)) as [e2 H2]. cbn [Z.add Pos.add]. rewrite H2.
    destruct (Z_ge_lt_dec 2 3) as [?|_]; [lia|].
    rewrite (tryOnce_step (server w) url 3 600 8000 2).
    cbn [Z.add Pos.add Pos.succ]. rewrite Hlast.
    destruct (Z_ge_lt_dec 3 3) as [_|?]; [|lia].
    reflexivity. }
  split; [rewrite Hf; reflexivity|].
  exists ("❌ ERRO: " ++ inspect rt err)%string.
  unfold run_offset, run_alert, script, main_offset, main_alert.
  rewrite Hurl. subst url. cbv iota. rewrite Hf. split; reflexivity.
Qed.

(** The theorem on a database that never answers. *)
Lemma failed_fetch_exits_1_witness :
  snd (run_offset stub_runtime world_unreachable) = 1 /\
  snd (run_alert stub_runtime world_unreachable) = 1 /\
  filter touches_files (fst (run_alert stub_runtime world_unreachable)) = [].
Proof.
  pose proof (failed_fetch_exits_1 stub_runtime world_unreachable
                "h" "ttps://db.example/aquario.json" (Error "Timeout")
                eq_refl (fun _ _ => ex_intro _ (Error "Timeout") eq_refl)
                eq_refl) as H.
  cbv zeta in H. destruct H as [_ (report & Ho & Ha)].
  rewrite Ho, Ha. repeat split.
Defined.

(* ===================================================================== *)
(** * What the threshold check logs about the alert *)
(* ===================================================================== *)

Lemma post_result_resolved (o : post_outcome) :
  post_result o = Resolved tt <->
  exists statusCode body, o = PostResponse statusCode body /\ statusCode < 400.
Proof.
  split.
  - destruct o as [e| |sc body]; simpl; try discriminate.
    destruct (sc =? 0) eqn:H0; simpl.
    + apply Z.eqb_eq in H0. intros _. exists sc, body. split; [reflexivity | lia].
    + destruct (400 <=? sc) eqn:H4; [discriminate|].
      apply Z.leb_gt in H4. intros _. exists sc, body. auto.
  - intros (sc & body & -> & H). simpl.
    destruct (400 <=? sc) eqn:H4; [apply Z.leb_le in H4; lia|].
    rewrite andb_false_r. reflexivity.
Qed.

(** X8.  For a finite reading below 24 or above 26 the threshold check has
    exactly three effects: the line that announces the alert, the POST, and
    one line about its outcome; that line is the confirmation
    [Alerta de temperatura enviado] exactly when the response arrived with a
    status below 400 (200, 202, a redirect 301 alike), and the error line
    with the error's message otherwise. *)
Theorem alert_outcome_is_logged (rt : runtime) (w : world) (t : number)
  (tsBr : string) :
  isFinite t = true ->
  ltb t (of_Z 24) || gtb t (of_Z 26) = true ->
  let effects := fst (check_threshold rt w (Some (JNum t)) tsBr) in
  let sent :=
    Console "log" "📧 Alerta de temperatura enviado para rodrigosbar@gmail.com" in
  effects
  = [Console "log" ("⚠️ Temperatura FORA do intervalo: " ++ toFixed t 2
                    ++ " °C — enviando e-mail...");
     HttpsPost "api.mailchannels.net" "/tx/v1/send"
       (JSON_stringify rt (alert_payload t tsBr));
     match post_result (mail_server w) with
     | Resolved _ => sent
     | Rejected e =>
         Console "error" ("❌ Erro ao enviar e-mail de alerta: " ++ message_of e)
     end] /\
  (In sent effects <->
   exists statusCode body,
     mail_server w = PostResponse statusCode body /\ statusCode < 400).
Proof.
  intros Hfin Hout effects sent.
  assert (E : effects
    = [Console "log" ("⚠️ Temperatura FORA do intervalo: " ++ toFixed t 2
                      ++ " °C — enviando e-mail...");
       HttpsPost "api.mailchannels.net" "/tx/v1/send"
         (JSON_stringify rt (alert_payload t tsBr));
       match post_result (mail_server w) with
       | Resolved _ => sent
       | Rejected e =>
           Console "error" ("❌ Erro ao enviar e-mail de alerta: " ++ message_of e)
       end]).
  { unfold effects, check_threshold. rewrite Hfin, Hout.
    unfold sendAlertEmail.
    destruct (post_result (mail_server w)) as [[]|e]; reflexivity. }
  split; [exact E|].
  rewrite E, <- post_result_resolved.
  destruct (post_result (mail_server w)) as [[]|e]; split.
  - reflexivity.
  - intros _. right. right. left. reflexivity.
  - intros [H|[H|[H|[]]]]; discriminate.
  - discriminate.
Qed.

(** The theorem on a reading of 23.4 whose alert meets a status 301: the
    confirmation is logged. *)
Lemma alert_outcome_is_logged_witness :
  let w := world_serving doc_cold (PostResponse 301 "") in
  In (Console "log" "📧 Alerta de temperatura enviado para rodrigosbar@gmail.com")
     (fst (check_threshold stub_runtime w (Some (JNum (of_decimal 234 (-1))))
             "14/11/2023, 19:13:20")).
Proof.
  intros w.
  pose proof (alert_outcome_is_logged stub_runtime w (of_decimal 234 (-1))
                "14/11/2023, 19:13:20" eq_refl eq_refl) as H.
  cbv zeta in H. destruct H as [_ H]. apply H.
  exists 301, "". split; [reflexivity | reflexivity].
Defined.

(* ===================================================================== *)
(** * Readings with two decimal places *)
(* ===================================================================== *)


Lemma rounds_within_pow (j : Z) : 0 <= j <= 1073 -> rounds_within (2 ^ j).
Proof.
  intros Hj p q Hq Hp. apply to_double_within; [assumption | assumption|].
  rewrite Z.pow_add_r by lia. exact Hp.
Qed.

(** The integer [toFixed(2)] writes, from how near it is. *)
Lemma hundredths_unique (a N : Z) :
  - scale <= 200 * a - 2 * (N * scale) < scale -> hundredths a = N.
Proof.
  intros H. unfold hundredths.
  assert (Hs : 0 < scale) by reflexivity.
  symmetry. apply (Z.div_unique _ _ _ (200 * a + scale - 2 * (N * scale))).
  - left. lia.
  - lia.
Qed.

Lemma to_double_opp (p q : Z) :
  0 < q -> to_double (- p) q = negate (to_double p q).
Proof.
  intros Hq. unfold to_double.
  destruct (Z.lt_trichotomy p 0) as [Hp|[->|Hp]].
  - destruct (- p <? 0) eqn:E1; [apply Z.ltb_lt in E1; lia|].
    destruct (p <? 0) eqn:E2; [|apply Z.ltb_ge in E2; lia].
    rewrite Z.abs_opp.
    destruct (overflow_units <=? Z.abs (round_units (- p) q)); cbn [negate negb];
      [reflexivity | now rewrite Z.opp_involutive].
  - cbn [Z.opp Z.ltb Z.compare]. rewrite round_units_0 by assumption. reflexivity.
  - destruct (- p <? 0) eqn:E1; [|apply Z.ltb_ge in E1; lia].
    destruct (p <? 0) eqn:E2; [apply Z.ltb_lt in E2; lia|].
    rewrite Z.opp_involutive, Z.abs_opp.
    destruct (overflow_units <=? Z.abs (round_units p q)); reflexivity.
Qed.

Lemma of_decimal_opp_2 (m : Z) :
  of_decimal (- m) (-2) = negate (of_decimal m (-2)).
Proof.
  unfold of_decimal. cbn [Z.leb Z.compare Z.opp].
  rewrite Z.mul_opp_l. apply to_double_opp. reflexivity.
Qed.

(** The double nearest to [N / 100], for [N / 100] below 2^46: it is not
    negative, [toFixed(2)] writes it as [N] again, and it is 0 only for
    [N = 0]. *)
Lemma of_decimal_2_stable (N : Z) :
  0 <= N < 100 * 2 ^ 46 ->
  exists r,
    of_decimal N (-2) = Finite r /\ 0 <= r /\ hundredths r = N /\
    (0 < N -> 0 < r) /\ below_1e21 r.
Proof.
  intros HN.
  change (of_decimal N (-2)) with (to_double (N * scale) 100).
  pose proof (rounds_within_pow 1067 ltac:(lia)) as W.
  set (H := 2 ^ 1067) in W.
  assert (Hscale : scale = 128 * H) by reflexivity.
  assert (HH : 0 < H) by reflexivity.
  clearbody H.
  assert (HP0 : 0 <= N * scale) by (rewrite Hscale; lia).
  assert (HP1 : N * scale <= (100 * 2 ^ 46 - 1) * scale).
  { apply Z.mul_le_mono_nonneg_r; [rewrite Hscale|]; lia. }
  assert (HP2 : 0 < N -> scale <= N * scale).
  { intros H1. rewrite <- (Z.mul_1_l scale) at 1.
    apply Z.mul_le_mono_nonneg_r; [rewrite Hscale|]; lia. }
  remember (N * scale) as P eqn:EP.
  destruct (W P 100 ltac:(lia) ltac:(lia)) as (r & -> & Hr & Hpos & _).
  specialize (Hpos HP0).
  exists r. split; [reflexivity|]. split; [exact Hpos|].
  split; [|split].
  - apply hundredths_unique. rewrite <- EP. lia.
  - intros HN0. specialize (HP2 HN0). lia.
  - unfold below_1e21. lia.
Qed.

(** X9.  A reading with two decimal places loses exactly 1: for a reading
    [h / 100] of magnitude up to 10^13, [Number((v - 1).toFixed(2))] of the
    double [v] nearest to it is the double nearest to [(h - 100) / 100], the
    same number [JSON.parse] reads from that decimal; the two roundings of
    the subtraction and of [toFixed] leave no trace. *)
Theorem minus_one_fixed2_two_decimals (h : Z) :
  Z.abs h <= 10 ^ 15 ->
  minus_one_fixed2 (of_decimal h (-2)) = of_decimal (h - 100) (-2).
Proof.
  intros Hh.
  pose proof (rounds_within_pow 1066 ltac:(lia)) as W.
  set (H := 2 ^ 1066) in W.
  assert (Hscale : scale = 256 * H) by reflexivity.
  assert (HH : 0 < H) by reflexivity.
  clearbody H.
  assert (Hs : 0 < scale) by lia.
  assert (HP : Z.abs (h * scale) <= 10 ^ 15 * scale).
  { rewrite Z.abs_mul, (Z.abs_eq scale) by lia.
    apply Z.mul_le_mono_nonneg_r; [lia | exact Hh]. }
  assert (HN : Z.abs (h - 100) * scale = Z.abs (h * scale - 100 * scale)).
  { rewrite <- Z.mul_sub_distr_r, Z.abs_mul, (Z.abs_eq scale) by lia.
    reflexivity. }
  assert (HN1 : 0 < Z.abs (h - 100) -> scale <= Z.abs (h - 100) * scale).
  { intros H1. rewrite <- (Z.mul_1_l scale) at 1.
    apply Z.mul_le_mono_nonneg_r; lia. }
  assert (Hsgn : h - 100 < 0 -> h * scale - 100 * scale < 0).
  { intros H1. rewrite <- Z.mul_sub_distr_r.
    apply Z.mul_neg_pos; [exact H1 | lia]. }
  assert (Hsgp : 0 < h - 100 -> 0 < h * scale - 100 * scale).
  { intros H1. rewrite <- Z.mul_sub_distr_r.
    apply Z.mul_pos_pos; [exact H1 | lia]. }
  (* the reading *)
  change (of_decimal h (-2)) with (to_double (h * scale) 100).
  remember (h * scale) as P eqn:EP.
  remember (Z.abs (h - 100) * scale) as NS eqn:ENS.
  destruct (W P 100 ltac:(lia) ltac:(lia)) as (v0 & -> & Hv0 & _ & _).
  (* minus one *)
  unfold minus_one_fixed2. rewrite of_Z_1. cbn [sub].
  destruct (W (v0 - scale) 1 ltac:(lia) ltac:(lia)) as (x1 & -> & Hx1 & _ & _).
  assert (Hb : below_1e21 x1) by (unfold below_1e21; lia).
  rewrite (StringToNumber_toFixed_2 x1 Hb). cbv zeta.
  assert (Hhund : hundredths (Z.abs x1) = Z.abs (h - 100)).
  { apply hundredths_unique. rewrite <- ENS. lia. }
  rewrite Hhund.
  destruct (Z.eq_dec (h - 100) 0) as [E0|E0].
  - rewrite E0. cbn [Z.abs].
    destruct (x1 <? 0); reflexivity.
  - assert (Hpos : 0 < Z.abs (h - 100)) by (clear - E0; lia).
    specialize (HN1 Hpos).
    destruct (x1 <? 0) eqn:Hneg.
    + apply Z.ltb_lt in Hneg.
      assert (Hlt : h - 100 < 0).
      { destruct (Z.lt_ge_cases (h - 100) 0) as [|Hge]; [assumption|].
        assert (Hp' : 0 < h - 100) by (clear - Hge E0; lia).
        specialize (Hsgp Hp'). exfalso. lia. }
      rewrite <- of_decimal_opp_2. f_equal. clear - Hlt. lia.
    + apply Z.ltb_ge in Hneg.
      assert (Hgt : 0 < h - 100).
      { destruct (Z.lt_ge_cases 0 (h - 100)) as [|Hge]; [assumption|].
        assert (Hn' : h - 100 < 0) by (clear - Hge E0; lia).
        specialize (Hsgn Hn'). exfalso. lia. }
      f_equal. clear - Hgt. lia.
Qed.

(** The theorem at 23.40, which becomes 22.40. *)
Lemma minus_one_fixed2_two_decimals_witness :
  minus_one_fixed2 (of_decimal 2340 (-2)) = of_decimal (2340 - 100) (-2).
Proof.
  apply (minus_one_fixed2_two_decimals 2340). vm_compute. discriminate.
Defined.

(** [Number(x.toFixed(2))] of a value of magnitude up to 2^45 + 2 is a double
    that [toFixed(2)] and [Number] give back. *)
Lemma fixed2_read_back (x : Z) :
  Z.abs x <= (2 ^ 45 + 2) * scale ->
  exists a,
    StringToNumber (toFixed (Finite x) 2) = Finite a /\
    below_1e21 a /\
    StringToNumber (toFixed (Finite a) 2) = Finite a.
Proof.
  intros Hx.
  assert (Hs : 0 < scale) by reflexivity.
  assert (Hb : below_1e21 x) by (unfold below_1e21; lia).
  rewrite (StringToNumber_toFixed_2 x Hb). cbv zeta.
  destruct (hundredths_bounds (Z.abs x) (Z.abs_nonneg x)) as [HN0 HN].
  set (N := hundredths (Z.abs x)) in *.
  assert (HNlt : N < 100 * 2 ^ 46).
  { apply (Z.mul_lt_mono_pos_r scale); [exact Hs|].
    remember (N * scale) as P eqn:EP. lia. }
  destruct (of_decimal_2_stable N ltac:(lia)) as (r & Er & Hr0 & Hh & Hpos & Hbr).
  rewrite Er.
  assert (Hback : StringToNumber (toFixed (Finite r) 2) = Finite r).
  { rewrite (StringToNumber_toFixed_2 r Hbr). cbv zeta.
    rewrite Z.abs_eq, Hh, Er by exact Hr0.
    destruct (r <? 0) eqn:E; [apply Z.ltb_lt in E; lia | reflexivity]. }
  destruct (x <? 0) eqn:Hneg; cbn [negate].
  - destruct (Z.eq_dec r 0) as [->|Hne].
    + exists 0. auto.
    + exists (- r). split; [reflexivity|].
      assert (Hbn : below_1e21 (- r))
        by (unfold below_1e21 in *; rewrite Z.abs_opp; exact Hbr).
      split; [exact Hbn|].
      rewrite (StringToNumber_toFixed_2 (- r) Hbn). cbv zeta.
      rewrite Z.abs_opp, Z.abs_eq, Hh, Er by exact Hr0.
      destruct (- r <? 0) eqn:E; [reflexivity | apply Z.ltb_ge in E; lia].
  - exists r. auto.
Qed.

(** X10.  In the first variant the three places that show the reading agree:
    for a raw value of magnitude up to 2^45, the adjusted value
    [Number((v - 1).toFixed(2))] that [data.json] and [txt] hold is finite,
    and the JSON-LD [value], which is [Number(currentStr)] of the text
    [currentStr] written to [current.txt], is that same number. *)
Theorem jsonLd_value_is_the_adjusted_value (n : Z) (ts : option json) :
  Z.abs n <= 2 ^ 45 * scale ->
  let adj := minus_one_fixed2 (Finite n) in
  let currentStr := current_string (Some (JNum adj)) in
  isFinite adj = true /\
  StringToNumber currentStr = adj /\
  at_path (jsonLd currentStr ts) [Key "variableMeasured"; Key "value"]
  = Some (JNum adj).
Proof.
  intros Hn adj currentStr.
  pose proof (rounds_within_pow 1067 ltac:(lia)) as W.
  set (H := 2 ^ 1067) in W.
  assert (Hscale : scale = 128 * H) by reflexivity.
  assert (HH : 0 < H) by reflexivity.
  clearbody H.
  assert (Hx : exists x1,
    sub (Finite n) (of_Z 1) = Finite x1 /\ Z.abs x1 <= (2 ^ 45 + 2) * scale).
  { rewrite of_Z_1. cbn [sub].
    destruct (W (n - scale) 1 ltac:(lia) ltac:(lia)) as (x1 & -> & Hx1 & _ & _).
    exists x1. split; [reflexivity | lia]. }
  destruct Hx as (x1 & Ex & Hx1).
  destruct (fixed2_read_back x1 Hx1) as (a & Ea & Hba & Hback).
  assert (Eadj : adj = Finite a)
    by (unfold adj, minus_one_fixed2; rewrite Ex; exact Ea).
  assert (Ecur : currentStr = toFixed (Finite a) 2)
    by (unfold currentStr; rewrite Eadj; reflexivity).
  assert (Eread : StringToNumber currentStr = adj)
    by (rewrite Ecur, Eadj; exact Hback).
  split; [rewrite Eadj; reflexivity|].
  split; [exact Eread|].
  cbn [jsonLd at_path lookup String.eqb Ascii.eqb Bool.eqb].
  rewrite Eread. reflexivity.
Qed.

(** The theorem at the raw reading 23.4: the JSON-LD value is the adjusted
    value, which is 22.4. *)
Lemma jsonLd_value_is_the_adjusted_value_witness :
  let adj := minus_one_fixed2 (of_decimal 234 (-1)) in
  StringToNumber (current_string (Some (JNum adj))) = adj /\
  adj = of_decimal 224 (-1).
Proof.
  set (n := match of_decimal 234 (-1) with Finite u => u | _ => 0 end).
  assert (E : of_decimal 234 (-1) = Finite n) by (vm_compute; reflexivity).
  assert (B : Z.abs n <= 2 ^ 45 * scale) by (vm_compute; discriminate).
  pose proof (jsonLd_value_is_the_adjusted_value n None B) as H.
  cbv zeta in H. destruct H as [_ [H _]].
  cbv zeta. rewrite E. split; [exact H | vm_compute; reflexivity].
Defined.

Lemma toFixed_2_text (n : Z) :
  below_1e21 n ->
  toFixed (Finite n) 2
  = ((if (n <? 0)%Z then "-" else "") ++ two_decimals (hundredths (Z.abs n)))%string.
Proof.
  intros Hn. unfold below_1e21 in Hn. unfold toFixed.
  destruct (10 ^ 21 * scale <=? Z.abs n) eqn:Hbig;
    [apply Z.leb_le in Hbig; lia|].
  reflexivity.
Qed.

(** X22.  A reading with two decimal places is shown as it was sent: for the
    double [v] nearest to [h / 100] (magnitude below 2^46), the text
    [v.toFixed(2)] written to [current.txt] is the numeral of [h / 100]
    itself (a [-] for a negative reading, the integer part, a point, the two
    digits), and [Number] of that text, the JSON-LD [value], is [v] again. *)
Theorem two_decimal_reading_is_shown_exactly (h : Z) :
  Z.abs h < 100 * 2 ^ 46 ->
  let v := of_decimal h (-2) in
  let currentStr := current_string (Some (JNum v)) in
  currentStr
  = ((if (h <? 0)%Z then "-" else "") ++ two_decimals (Z.abs h))%string /\
  StringToNumber currentStr = v.
Proof.
  intros Hh v currentStr.
  destruct (of_decimal_2_stable (Z.abs h) ltac:(lia))
    as (r & Er & Hr0 & Hhund & Hpos & Hb).
  assert (Ev : v = Finite (if h <? 0 then - r else r)).
  { unfold v. destruct (h <? 0) eqn:Hneg.
    - apply Z.ltb_lt in Hneg.
      replace h with (- Z.abs h) by lia.
      rewrite of_decimal_opp_2, Er. reflexivity.
    - apply Z.ltb_ge in Hneg. rewrite Z.abs_eq in Er by exact Hneg. exact Er. }
  assert (Hb' : below_1e21 (if h <? 0 then - r else r)).
  { unfold below_1e21 in *. destruct (h <? 0); [rewrite Z.abs_opp|]; exact Hb. }
  assert (Habs : Z.abs (if h <? 0 then - r else r) = r).
  { destruct (h <? 0); [rewrite Z.abs_opp|]; apply Z.abs_eq; exact Hr0. }
  assert (Hsign : ((if h <? 0 then - r else r) <? 0) = (h <? 0)).
  { destruct (h <? 0) eqn:Hneg.
    - apply Z.ltb_lt in Hneg. apply Z.ltb_lt.
      assert (0 < r) by (apply Hpos; lia). lia.
    - apply Z.ltb_ge. exact Hr0. }
  assert (Ecur : currentStr
    = ((if (h <? 0)%Z then "-" else "") ++ two_decimals (Z.abs h))%string).
  { unfold currentStr. rewrite Ev. cbn [current_string isFinite].
    rewrite (toFixed_2_text _ Hb'), Habs, Hhund, Hsign. reflexivity. }
  split; [exact Ecur|].
  unfold currentStr. rewrite Ev. cbn [current_string isFinite].
  rewrite (StringToNumber_toFixed_2 _ Hb'). cbv zeta.
  rewrite Habs, Hhund, Hsign, Er.
  destruct (h <? 0); reflexivity.
Qed.

(** The theorem at 23.40. *)
Lemma two_decimal_reading_is_shown_exactly_witness :
  current_string (Some (JNum (of_decimal 2340 (-2)))) = "23.40" /\
  StringToNumber (current_string (Some (JNum (of_decimal 2340 (-2)))))
  = of_decimal 2340 (-2).
Proof.
  assert (B : Z.abs 2340 < 100 * 2 ^ 46) by (vm_compute; reflexivity).
  pose proof (two_decimal_reading_is_shown_exactly 2340 B) as H.
  cbv zeta in H. destruct H as [H1 H2]. split; [|exact H2].
  rewrite H1. vm_compute. reflexivity.
Defined.


Lemma markup_free_append (a b : string) :
  markup_free (a ++ b) = markup_free a && markup_free b.
Proof.
  unfold markup_free. rewrite !free_of_append.
  destruct (free_of "&" a), (free_of "<" a), (free_of ">" a),
    (free_of "&" b), (free_of "<" b), (free_of ">" b); reflexivity.
Qed.

Lemma digit_markup_free (c : ascii) (s : string) :
  is_digit c = true -> markup_free (String c s) = markup_free s.
Proof.
  intros Hc. rewrite markup_free_cons.
  destruct (c =? "&")%char eqn:Ea; [apply Ascii.eqb_eq in Ea; subst c; discriminate|].
  destruct (c =? "<")%char eqn:El; [apply Ascii.eqb_eq in El; subst c; discriminate|].
  destruct (c =? ">")%char eqn:Eg; [apply Ascii.eqb_eq in Eg; subst c; discriminate|].
  reflexivity.
Qed.

Lemma digits_markup_free (s : string) :
  all_digits s = true -> markup_free s = true.
Proof.
  induction s as [|c s IH]; [reflexivity|]. simpl. intros H.
  apply andb_true_iff in H. destruct H as [Hc Hs].
  rewrite (digit_markup_free c s Hc). exact (IH Hs).
Qed.

Lemma dec_markup_free (n : Z) : markup_free (dec n) = true.
Proof.
  destruct (dec_nonempty_digits n) as (c & s & -> & H).
  exact (digits_markup_free _ H).
Qed.

Lemma digit_is_digit (d : Z) : 0 <= d < 10 -> is_digit (digit d) = true.
Proof.
  intros H.
  assert (C : d = 0 \/ d = 1 \/ d = 2 \/ d = 3 \/ d = 4 \/ d = 5 \/ d = 6
              \/ d = 7 \/ d = 8 \/ d = 9) by lia.
  repeat (destruct C as [->|C]; [reflexivity|]). subst d. reflexivity.
Qed.

Lemma frac_digits_markup_free (f : nat) :
  forall r, markup_free (frac_digits f r) = true.
Proof.
  induction f as [|f IH]; intros r; [reflexivity|].
  cbn [frac_digits]. rewrite markup_free_append, IH.
  rewrite digit_markup_free; [reflexivity|].
  apply digit_is_digit. apply Z.mod_pos_bound. lia.
Qed.

Lemma substring_markup_free (s : string) :
  markup_free s = true -> forall n m, markup_free (substring n m s) = true.
Proof.
  induction s as [|c s IH]; intros H n m.
  - destruct n, m; reflexivity.
  - rewrite markup_free_cons in H.
    apply andb_true_iff in H. destruct H as [Hc Hs].
    destruct n as [|n]; cbn [substring].
    + destruct m as [|m]; [reflexivity|].
      rewrite markup_free_cons, Hc. exact (IH Hs 0%nat m).
    + exact (IH Hs n m).
Qed.

Lemma repeat_char_markup_free (n : nat) : markup_free (repeat_char "0" n) = true.
Proof. induction n as [|n IH]; [reflexivity|]. exact IH. Qed.

Lemma ToString_pos_markup_free (a : Z) : markup_free (ToString_pos a) = true.
Proof.
  unfold ToString_pos.
  destruct (shortest 16 1 a (decimal_exponent a)) as [s e].
  pose proof (dec_markup_free s) as Hd.
  set (digits := dec s) in *. clearbody digits.
  set (k := Z.of_nat (String.length digits)). clearbody k.
  cbv zeta.
  repeat match goal with
         | |- context [if ?b then _ else _] => destruct b
         end;
    rewrite ?markup_free_append, ?Hd, ?repeat_char_markup_free,
      ?dec_markup_free, ?substring_markup_free by exact Hd;
    reflexivity.
Qed.

Lemma toFixed_markup_free (x : number) (f : nat) : markup_free (toFixed x f) = true.
Proof.
  destruct x as [|[]|n]; try reflexivity.
  unfold toFixed.
  destruct (10 ^ 21 * scale <=? Z.abs n).
  - rewrite markup_free_append, ToString_pos_markup_free.
    destruct (n <? 0); reflexivity.
  - cbv zeta. rewrite !markup_free_append, dec_markup_free.
    destruct f as [|f].
    + destruct (n <? 0); reflexivity.
    + rewrite markup_free_append, frac_digits_markup_free.
      destruct (n <? 0); reflexivity.
Qed.

(** X11.  The text [currentStr] that the page shows without escaping it never
    needs escaping: whatever the value (a number of any size, not a number,
    missing), [Number.isFinite(v) ? v.toFixed(2) : 'N/A'] has none of [&],
    [<] and [>], and [esc] would return it as it is. *)
Theorem current_string_needs_no_escaping (v : option json) :
  markup_free (current_string v) = true /\
  esc (current_string v) = current_string v.
Proof.
  assert (H : markup_free (current_string v) = true).
  { unfold current_string.
    destruct v as [[| |n| | |]|]; try reflexivity.
    destruct (isFinite n); [apply toFixed_markup_free | reflexivity]. }
  split; [exact H | exact (esc_markup_free _ H)].
Qed.

(* ===================================================================== *)
(** * The lines of [flattenKV] and the leaves of the document *)
(* ===================================================================== *)

Lemma list_sum_perm (l l' : list nat) :
  Permutation l l' -> list_sum l = list_sum l'.
Proof. induction 1; simpl; lia. Qed.

Lemma flat_map_length_sum {A B : Type} (f : A -> list B) (l : list A) :
  List.length (flat_map f l) = list_sum (map (fun a => List.length (f a)) l).
Proof.
  induction l as [|a l IH]; [reflexivity|].
  simpl. now rewrite length_app, IH.
Qed.

Lemma map_snd_of_combine {A B : Type} (l1 : list A) (l2 : list B) :
  List.length l1 = List.length l2 -> map snd (combine l1 l2) = l2.
Proof.
  revert l2. induction l1 as [|a l1 IH]; intros [|b l2] H; simpl in *;
    try reflexivity; try discriminate.
  f_equal. apply IH. lia.
Qed.

Lemma leaves_members (d : json) :
  is_object d = true ->
  leaves d = list_sum (map (fun kv => leaves (snd kv)) (members d)).
Proof.
  destruct d as [| | | |items|props]; try discriminate; intros _.
  - cbn [leaves members].
    rewrite <- (map_map snd leaves), map_snd_of_combine; [reflexivity|].
    apply index_keys_length.
  - cbn [leaves members]. f_equal. apply map_ext. intros [k v]. reflexivity.
Qed.

Lemma child_entries_length (v : json) (p : string) :
  (forall prefix, List.length (flatten_entries v prefix) = leaves v) ->
  List.length (child_entries v p) = leaves v.
Proof.
  intros H. destruct v; try reflexivity; apply H.
Qed.

Lemma container_entries_length (d : json) (prefix : string) :
  is_object d = true ->
  Forall (fun kv => forall prefix,
            List.length (flatten_entries (snd kv) prefix) = leaves (snd kv))
         (members d) ->
  List.length (flatten_entries d prefix) = leaves d.
Proof.
  intros Hd Hch.
  rewrite flatten_entries_members, leaves_members by exact Hd.
  rewrite flat_map_length_sum.
  rewrite (list_sum_perm (map (fun kv => leaves (snd kv)) (members d))
             (map (fun kv => leaves (snd kv)) (sort_keys (members d)))).
  2: { apply Permutation_map, Permutation_sym, sort_keys_perm. }
  f_equal. apply map_ext_in. intros kv Hin.
  apply child_entries_length.
  rewrite Forall_forall in Hch. apply Hch.
  apply (Permutation_in _ (sort_keys_perm _) Hin).
Qed.

Lemma flatten_entries_length (d : json) :
  forall prefix, List.length (flatten_entries d prefix) = leaves d.
Proof.
  induction d as [| b | n | s | items IH | props IH] using json_ind;
    intros prefix; try reflexivity.
  - apply container_entries_length; [reflexivity|].
    exact (members_children
             (fun v => forall prefix,
                List.length (flatten_entries v prefix) = leaves v)
             (JArr items) IH).
  - apply container_entries_length; [reflexivity|].
    exact (members_children
             (fun v => forall prefix,
                List.length (flatten_entries v prefix) = leaves v)
             (JObj props) IH).
Qed.

(** X15.  [flattenKV] only appends to the lines it is given, and it appends
    one line for every value of the document that is not a container (a
    primitive at the top is one line); an empty object or array leaves no
    line. *)
Theorem flattenKV_appends_a_line_per_leaf (d : json) (prefix : string)
  (lines : list string) :
  flattenKV d prefix lines = (lines ++ flattenKV d prefix [])%list /\
  List.length (flattenKV d prefix lines) = (List.length lines + leaves d)%nat.
Proof.
  rewrite (flattenKV_entries d prefix lines), (flattenKV_entries d prefix []).
  split; [reflexivity|].
  rewrite length_app, length_map, flatten_entries_length. reflexivity.
Qed.

Lemma lookup_In (k : string) (props : list (string * json)) (v : json) :
  lookup k props = Some v -> In (k, v) props.
Proof.
  induction props as [|[k' v'] ps IH]; [discriminate|]. simpl.
  destruct (k =? k')%string eqn:E.
  - apply String.eqb_eq in E. subst k'. intros [= ->]. left. reflexivity.
  - intros H. right. exact (IH H).
Qed.

Lemma In_lookup (k : string) (props : list (string * json)) (v : json) :
  NoDup (map fst props) -> In (k, v) props -> lookup k props = Some v.
Proof.
  induction props as [|[k' v'] ps IH]; [intros _ []|].
  cbn [map fst]. intros Hnd Hin. apply NoDup_cons_iff in Hnd.
  destruct Hnd as [Hk Hnd]. cbn [lookup].
  destruct Hin as [E|Hin].
  - injection E as -> ->. rewrite String.eqb_refl. reflexivity.
  - destruct (k =? k')%string eqn:E.
    + apply String.eqb_eq in E. subst k'. exfalso. apply Hk.
      apply (in_map fst) in Hin. exact Hin.
    + exact (IH Hnd Hin).
Qed.

Lemma nth_error_index_keys (n i : nat) :
  (i < n)%nat -> nth_error (index_keys n) i = Some (dec (Z.of_nat i)).
Proof.
  intros H. unfold index_keys.
  rewrite nth_error_map, nth_error_seq.
  destruct (Nat.ltb_spec i n); [reflexivity | lia].
Qed.

Lemma nth_error_of_combine {A B : Type} (l1 : list A) (l2 : list B) (i : nat) a b :
  nth_error l1 i = Some a -> nth_error l2 i = Some b ->
  nth_error (combine l1 l2) i = Some (a, b).
Proof.
  revert l2 i. induction l1 as [|x l1 IH]; intros [|y l2] [|i] H1 H2;
    simpl in *; try discriminate.
  - congruence.
  - exact (IH _ _ H1 H2).
Qed.

Lemma In_combine_nth {A B : Type} (l1 : list A) (l2 : list B) a b :
  In (a, b) (combine l1 l2) ->
  exists i, nth_error l1 i = Some a /\ nth_error l2 i = Some b.
Proof.
  revert l2. induction l1 as [|x l1 IH]; intros [|y l2] H; simpl in H;
    try contradiction.
  destruct H as [E|H].
  - injection E as -> ->. exists O. split; reflexivity.
  - destruct (IH _ H) as (i & H1 & H2). exists (S i). split; assumption.
Qed.

(** A step into a container leads to one of its members, and the other way
    round when the keys are distinct. *)
Lemma step_member (d : json) (s : step) (v : json) :
  at_path d [s] = Some v -> In (step_key s, v) (members d).
Proof.
  destruct s as [k|i]; cbn [at_path step_key].
  - destruct d as [| | | | |props]; try discriminate.
    destruct (lookup k props) as [v'|] eqn:E; [|discriminate].
    intros [= ->]. exact (lookup_In _ _ _ E).
  - destruct d as [| | | |items|]; try discriminate.
    destruct (nth_error items i) as [v'|] eqn:E; [|discriminate].
    intros [= ->]. cbn [members].
    apply (nth_error_In _ i). apply nth_error_of_combine; [|exact E].
    apply nth_error_index_keys. apply nth_error_Some. congruence.
Qed.

Lemma member_step (d : json) (k : string) (v : json) :
  NoDup (map fst (members d)) -> In (k, v) (members d) ->
  exists s, step_key s = k /\ at_path d [s] = Some v.
Proof.
  intros Hnd Hin. destruct d as [| | | |items|props]; try contradiction.
  - cbn [members] in Hin. apply In_combine_nth in Hin.
    destruct Hin as (i & H1 & H2).
    assert (Hi : (i < List.length items)%nat)
      by (apply nth_error_Some; congruence).
    rewrite (nth_error_index_keys _ _ Hi) in H1. injection H1 as <-.
    exists (Index i). split; [reflexivity|]. cbn [at_path]. rewrite H2. reflexivity.
  - exists (Key k). split; [reflexivity|]. cbn [at_path members] in *.
    rewrite (In_lookup _ _ _ Hnd Hin). reflexivity.
Qed.

Lemma at_path_cons (d : json) (s : step) (p : list step) :
  at_path d (s :: p)
  = match at_path d [s] with Some v => at_path v p | None => None end.
Proof.
  destruct s as [k|i]; cbn [at_path].
  - destruct d; try reflexivity. destruct (lookup k props); reflexivity.
  - destruct d; try reflexivity. destruct (nth_error items i); reflexivity.
Qed.

(** Every primitive value under a container has its line. *)
Lemma flatten_entries_complete (p : list step) :
  forall d x prefix s,
    at_path d (s :: p) = Some x -> is_object x = false ->
    In (path_string prefix (s :: p), js_String x) (flatten_entries d prefix).
Proof.
  induction p as [|s' p IH]; intros d x prefix s Hat Hx.
  - assert (Hd : is_object d = true) by exact (at_path_container _ _ _ _ Hat).
    rewrite (flatten_entries_members d prefix Hd). apply in_flat_map.
    exists (step_key s, x). split.
    + apply (Permutation_in _ (Permutation_sym (sort_keys_perm _))).
      exact (step_member _ _ _ Hat).
    + cbn [fst snd path_string].
      destruct x; try discriminate; left; reflexivity.
  - assert (Hd : is_object d = true) by exact (at_path_container _ _ _ _ Hat).
    rewrite at_path_cons in Hat.
    destruct (at_path d [s]) as [v|] eqn:Hs; [|discriminate].
    rewrite (flatten_entries_members d prefix Hd). apply in_flat_map.
    exists (step_key s, v). split.
    + apply (Permutation_in _ (Permutation_sym (sort_keys_perm _))).
      exact (step_member _ _ _ Hs).
    + cbn [fst snd].
      assert (Hv : is_object v = true) by exact (at_path_container _ _ _ _ Hat).
      replace (child_entries v) with (flatten_entries v)
        by (destruct v; try discriminate; reflexivity).
      exact (IH v x (join_path prefix (step_key s)) s' Hat Hx).
Qed.

Lemma distinct_keys_members (d : json) :
  distinct_keys d = true ->
  NoDup (map fst (members d)) /\
  Forall (fun kv => distinct_keys (snd kv) = true) (members d).
Proof.
  destruct d as [| | | |items|props]; cbn [members map];
    try (intros _; split; constructor).
  - intros H. split.
    + rewrite map_fst_combine by apply index_keys_length. apply index_keys_NoDup.
    + apply Forall_forall. intros [k v] Hin. apply in_combine_r in Hin.
      cbn [snd]. revert H Hin. clear.
      induction items as [|a items IH]; [intros _ []|].
      cbn. intros H. apply andb_true_iff in H. destruct H as [Ha H].
      intros [->|Hin]; [exact Ha | exact (IH H Hin)].
  - intros H. cbn [distinct_keys] in H.
    apply andb_true_iff in H. destruct H as [Hnd H]. split.
    + exact (nodupb_NoDup _ Hnd).
    + apply Forall_forall. intros kv Hin. revert H Hin. clear.
      induction props as [|a props IH]; [intros _ []|].
      intros H. apply andb_true_iff in H. destruct H as [Ha H].
      intros [->|Hin]; [exact Ha | exact (IH H Hin)].
Qed.

Lemma container_lines_sound (d : json) :
  Forall (fun kv => lines_sound (snd kv)) (members d) -> lines_sound d.
Proof.
  intros Hch Hok Hobj prefix e Hin.
  destruct (distinct_keys_members _ Hok) as [Hnd Hmem].
  rewrite (flatten_entries_members _ prefix Hobj) in Hin.
  apply in_flat_map in Hin. destruct Hin as ([k v] & Hkv & Hin).
  apply (Permutation_in _ (sort_keys_perm _)) in Hkv.
  destruct (member_step _ _ _ Hnd Hkv) as (s & Hs & Hat).
  rewrite Forall_forall in Hmem, Hch.
  specialize (Hmem _ Hkv). specialize (Hch _ Hkv). cbn [fst snd] in *.
  destruct (is_object v) eqn:Hv.
  - replace (child_entries v) with (flatten_entries v) in Hin
      by (destruct v; try discriminate; reflexivity).
    destruct (Hch Hmem Hv _ _ Hin) as (s' & p & x & Hat' & Hx & ->).
    exists s, (s' :: p), x. split; [|split; [exact Hx|]].
    + rewrite at_path_cons, Hat. exact Hat'.
    + cbn [path_string]. rewrite Hs. reflexivity.
  - exists s, [], v. split; [exact Hat|]. split; [exact Hv|].
    cbn [path_string]. rewrite Hs.
    destruct v; try discriminate; destruct Hin as [<-|[]]; reflexivity.
Qed.

Lemma flatten_entries_sound (d : json) : lines_sound d.
Proof.
  induction d as [| b | n | s | items IH | props IH] using json_ind;
    try (intros _ Hobj; discriminate).
  - apply container_lines_sound.
    exact (members_children lines_sound (JArr items) IH).
  - apply container_lines_sound.
    exact (members_children lines_sound (JObj props) IH).
Qed.

(** X16.  The lines of [flattenKV(obj)] are exactly the values of the
    document that are not containers, each as [path=String(value)] under
    the path of its keys and indices joined by points: every such value has
    its line and every line is that of such a value (for a document whose
    objects have distinct keys, as every parsed document has). *)
Theorem flattenKV_lines_are_the_leaves (d : json) (line : string) :
  distinct_keys d = true ->
  (In line (flattenKV d "" []) <->
   exists p x,
     at_path d p = Some x /\ is_object x = false /\
     line = (path_string "" p ++ "=" ++ js_String x)%string).
Proof.
  intros Hok. rewrite (flattenKV_entries d "" []). cbn [app].
  rewrite in_map_iff. split.
  - intros (e & <- & Hin).
    destruct (is_object d) eqn:Hd.
    + destruct (flatten_entries_sound d Hok Hd "" e Hin)
        as (s & p & x & Hat & Hx & ->).
      exists (s :: p), x. auto.
    + exists [], d. split; [reflexivity|]. split; [exact Hd|].
      destruct d; try discriminate; destruct Hin as [<-|[]]; reflexivity.
  - intros (p & x & Hat & Hx & ->).
    exists (path_string "" p, js_String x). split; [reflexivity|].
    destruct p as [|s p].
    + injection Hat as ->. destruct x; try discriminate; left; reflexivity.
    + exact (flatten_entries_complete p d x "" s Hat Hx).
Qed.

(** The theorem on [{"current": {"value": 23.4, "ts": 1700000000000}}]: the
    line of the reading. *)
Lemma flattenKV_lines_are_the_leaves_witness :
  In "current.value=23.4" (flattenKV doc_cold "" []).
Proof.
  apply (flattenKV_lines_are_the_leaves doc_cold "current.value=23.4" eq_refl).
  exists [Key "current"; Key "value"], (JNum (of_decimal 234 (-1))).
  split; [reflexivity|]. split; [reflexivity|]. vm_compute. reflexivity.
Defined.

(* ===================================================================== *)
(** * The order of the properties of an object *)
(* ===================================================================== *)

Lemma key_lt_irrefl {A : Type} (a : string * A) : ~ key_lt a a.
Proof. unfold key_lt. rewrite code_unit_compare_refl. discriminate. Qed.

Lemma key_lt_trans {A : Type} (a b c : string * A) :
  key_lt a b -> key_lt b c -> key_lt a c.
Proof. unfold key_lt. apply code_unit_compare_lt_trans. Qed.

(** Two lists in strict key order with the same elements are equal. *)
Lemma strictly_sorted_unique {A : Type} (l1 : list (string * A)) :
  forall l2,
    StronglySorted key_lt l1 -> StronglySorted key_lt l2 ->
    Permutation l1 l2 -> l1 = l2.
Proof.
  induction l1 as [|h1 t1 IH]; intros l2 S1 S2 HP.
  - apply Permutation_nil in HP. now subst.
  - destruct l2 as [|h2 t2];
      [apply Permutation_sym, Permutation_nil in HP; discriminate|].
    apply StronglySorted_inv in S1. destruct S1 as [S1 F1].
    apply StronglySorted_inv in S2. destruct S2 as [S2 F2].
    rewrite Forall_forall in F1, F2.
    assert (Hh : h1 = h2).
    { assert (I1 : In h1 (h2 :: t2))
        by (apply (Permutation_in _ HP); left; reflexivity).
      assert (I2 : In h2 (h1 :: t1))
        by (apply (Permutation_in _ (Permutation_sym HP)); left; reflexivity).
      destruct I1 as [E|I1]; [now symmetry|].
      destruct I2 as [E|I2]; [assumption|].
      exfalso. apply (key_lt_irrefl h1).
      apply (key_lt_trans _ h2); [apply F1 | apply F2]; assumption. }
    subst h2. f_equal. apply IH; try assumption.
    exact (Permutation_cons_inv HP).
Qed.

Lemma sort_keys_order_free {A : Type} (l l' : list (string * A)) :
  Permutation l l' -> NoDup (map fst l) -> sort_keys l = sort_keys l'.
Proof.
  intros HP Hnd.
  assert (Hnd' : NoDup (map fst l'))
    by (apply (Permutation_NoDup (Permutation_map fst HP) Hnd)).
  apply strictly_sorted_unique.
  - apply sorted_distinct_strict; [apply sort_keys_sorted|].
    apply (Permutation_NoDup
             (Permutation_map fst (Permutation_sym (sort_keys_perm l))) Hnd).
  - apply sorted_distinct_strict; [apply sort_keys_sorted|].
    apply (Permutation_NoDup
             (Permutation_map fst (Permutation_sym (sort_keys_perm l'))) Hnd').
  - apply (Permutation_trans (sort_keys_perm l)).
    apply (Permutation_trans HP). apply Permutation_sym, sort_keys_perm.
Qed.

(** X17.  The order in which an object holds its properties does not matter
    to [flattenKV]: two objects with the same properties (distinct keys), in
    whatever order, give the same lines in the same order. *)
Theorem flattenKV_ignores_key_order (props props' : list (string * json))
  (prefix : string) (lines : list string) :
  Permutation props props' -> NoDup (map fst props) ->
  flattenKV (JObj props) prefix lines = flattenKV (JObj props') prefix lines.
Proof.
  intros HP Hnd.
  rewrite !flattenKV_members by reflexivity. cbn [members].
  rewrite (sort_keys_order_free props props' HP Hnd). reflexivity.
Qed.

(** The theorem on [{"value": 23.4, "ts": 1}] and [{"ts": 1, "value": 23.4}]. *)
Lemma flattenKV_ignores_key_order_witness :
  flattenKV (JObj [("value", JNum (of_decimal 234 (-1))); ("ts", JNum (of_Z 1))])
    "current" []
  = flattenKV (JObj [("ts", JNum (of_Z 1)); ("value", JNum (of_decimal 234 (-1)))])
      "current" [].
Proof.
  apply flattenKV_ignores_key_order.
  - apply perm_swap.
  - repeat constructor; simpl; intuition discriminate.
Defined.

(* ===================================================================== *)
(** * What [minusOneDeg] keeps *)
(* ===================================================================== *)

Lemma insert_key_keyed {A B : Type} (g : string -> A -> B) (e : string * A)
  (l : list (string * A)) :
  insert_key (keyed g e) (map (keyed g) l) = map (keyed g) (insert_key e l).
Proof.
  induction l as [|x l IH]; [reflexivity|].
  cbn [map insert_key keyed fst].
  destruct (code_unit_leb (fst e) (fst x)); [reflexivity|].
  cbn [map]. f_equal. exact IH.
Qed.

Lemma sort_keys_keyed {A B : Type} (g : string -> A -> B) (l : list (string * A)) :
  sort_keys (map (keyed g) l) = map (keyed g) (sort_keys l).
Proof.
  induction l as [|x l IH]; [reflexivity|].
  unfold sort_keys in *. cbn [map fold_right]. rewrite IH.
  apply insert_key_keyed.
Qed.

Lemma flat_map_of_map {A B C : Type} (f : B -> list C) (h : A -> B) (l : list A) :
  flat_map f (map h l) = flat_map (fun a => f (h a)) l.
Proof.
  induction l as [|a l IH]; [reflexivity|]. simpl. now rewrite IH.
Qed.

Lemma flat_map_ext_in {A B : Type} (f g : A -> list B) (l : list A) :
  (forall a, In a l -> f a = g a) -> flat_map f l = flat_map g l.
Proof.
  induction l as [|a l IH]; intros H; [reflexivity|].
  simpl. rewrite (H a (or_introl eq_refl)), IH; [reflexivity|].
  intros b Hb. apply H. right. exact Hb.
Qed.

Lemma no_proto_keys_obj (props : list (string * json)) :
  no_proto_keys (JObj props)
  = forallb (fun kv => negb (fst kv =? "__proto__")%string
                        && no_proto_keys (snd kv)) props.
Proof. reflexivity. Qed.

Lemma no_proto_keys_arr (items : list json) :
  no_proto_keys (JArr items) = forallb no_proto_keys items.
Proof. reflexivity. Qed.

Lemma entries_rule_keyed (props : list (string * json)) :
  forallb (fun kv => negb (fst kv =? "__proto__")%string) props = true ->
  entries_rule props = map (keyed value_rule) props.
Proof.
  induction props as [|[k v] ps IH]; [reflexivity|].
  cbn [forallb fst]. intros H. apply andb_true_iff in H. destruct H as [Hk H].
  unfold entries_rule in *. cbn [fold_right map fst snd]. rewrite (IH H).
  unfold assign. apply negb_true_iff in Hk. rewrite Hk. reflexivity.
Qed.

Lemma no_proto_keys_top (props : list (string * json)) :
  no_proto_keys (JObj props) = true ->
  forallb (fun kv => negb (fst kv =? "__proto__")%string) props = true.
Proof.
  rewrite no_proto_keys_obj, !forallb_forall. intros H kv Hin.
  specialize (H kv Hin). apply andb_true_iff in H. tauto.
Qed.

Lemma child_paths_minusOneDeg (v : json) (p : string) :
  same_paths v -> no_proto_keys v = true ->
  map fst (child_entries (minusOneDeg v) p) = map fst (child_entries v p).
Proof.
  intros IH Hv. destruct v; try reflexivity; exact (IH Hv p).
Qed.

Lemma child_paths_value_rule (k : string) (v : json) (p : string) :
  same_paths v -> no_proto_keys v = true ->
  map fst (child_entries (value_rule k v) p) = map fst (child_entries v p).
Proof.
  intros IH Hv. destruct v as [| |n| | |]; try reflexivity.
  - cbn [value_rule]. destruct ((k =? "value")%string && isFinite n); reflexivity.
  - exact (IH Hv p).
  - exact (IH Hv p).
Qed.

Lemma minusOneDeg_same_paths (d : json) : same_paths d.
Proof.
  induction d as [| b | n | s | items IH | props IH] using json_ind;
    intros Hok prefix; try reflexivity.
  - rewrite minusOneDeg_arr.
    rewrite !flatten_entries_members by reflexivity. cbn [members].
    rewrite length_map, combine_map_r.
    change (fun kv : string * json => (fst kv, minusOneDeg (snd kv)))
      with (@keyed json json (fun _ => minusOneDeg)).
    rewrite sort_keys_keyed, flat_map_of_map, !map_flat_map.
    apply flat_map_ext_in. intros kv Hin. cbn [keyed fst snd].
    assert (Hin' : In (snd kv) items).
    { apply (Permutation_in _ (sort_keys_perm _)) in Hin.
      destruct kv as [k v]. exact (in_combine_r _ _ _ _ Hin). }
    rewrite no_proto_keys_arr, forallb_forall in Hok.
    rewrite Forall_forall in IH.
    apply child_paths_minusOneDeg; [apply IH | apply Hok]; exact Hin'.
  - rewrite minusOneDeg_obj.
    rewrite (entries_rule_keyed props (no_proto_keys_top props Hok)).
    rewrite no_proto_keys_obj, forallb_forall in Hok.
    rewrite !flatten_entries_members by reflexivity. cbn [members].
    rewrite sort_keys_keyed, flat_map_of_map, !map_flat_map.
    apply flat_map_ext_in. intros kv Hin. cbn [keyed fst snd].
    assert (Hin' : In kv props)
      by exact (Permutation_in _ (sort_keys_perm _) Hin).
    rewrite Forall_forall in IH.
    apply child_paths_value_rule; [exact (IH kv Hin')|].
    specialize (Hok kv Hin'). apply andb_true_iff in Hok. tauto.
Qed.

(** X18.  [minusOneDeg] keeps the shape the [txt] file shows: for a document
    with no key named [__proto__], the lines of [flattenKV] of the adjusted
    document have the same paths, in the same order, as those of the
    document itself, and there are as many of them. *)
Theorem minusOneDeg_keeps_the_paths (d : json) :
  no_proto_keys d = true ->
  flattenKV d "" [] = map line_of (flatten_entries d "") /\
  flattenKV (minusOneDeg d) "" []
  = map line_of (flatten_entries (minusOneDeg d) "") /\
  flatten_paths (minusOneDeg d) = flatten_paths d /\
  List.length (flattenKV (minusOneDeg d) "" []) = List.length (flattenKV d "" []).
Proof.
  intros Hok.
  pose proof (minusOneDeg_same_paths d Hok "") as Hp.
  split; [apply (flattenKV_entries d "" [])|].
  split; [apply (flattenKV_entries (minusOneDeg d) "" [])|].
  split; [exact Hp|].
  rewrite (flattenKV_entries d "" []), (flattenKV_entries (minusOneDeg d) "" []).
  cbn [app]. rewrite !length_map.
  apply (f_equal (@List.length string)) in Hp. rewrite !length_map in Hp.
  exact Hp.
Qed.

(** The theorem on [{"current": {"value": 23.4, "ts": 1700000000000}}]. *)
Lemma minusOneDeg_keeps_the_paths_witness :
  flatten_paths (minusOneDeg doc_cold) = ["current.ts"; "current.value"] /\
  flatten_paths doc_cold = ["current.ts"; "current.value"].
Proof.
  destruct (minusOneDeg_keeps_the_paths doc_cold eq_refl) as (_ & _ & H & _).
  rewrite H. split; vm_compute; reflexivity.
Defined.

(** X19.  The adjusted document passes the validation again: a document the
    guard accepts is still accepted after [minusOneDeg], so the reads
    [adj.current.value] and [adj.current.ts] of the first variant do not
    throw. *)
Theorem minusOneDeg_keeps_valid (raw : json) :
  validate raw = true ->
  validate (minusOneDeg raw) = true /\
  exists current, read_current (minusOneDeg raw) = ret current.
Proof.
  intros Hval.
  destruct (validate_true_shape raw Hval)
    as (props & cur & v & ts & -> & Hc & Hv & Hts & Ht).
  rewrite minusOneDeg_obj. unfold validate, read_current. cbn [truthy prop andb].
  rewrite lookup_entries_rule. cbn [String.eqb Ascii.eqb Bool.eqb].
  rewrite Hc. cbn [option_map value_rule]. rewrite minusOneDeg_obj.
  split; [|eexists; reflexivity].
  cbn [truthy prop andb]. rewrite !lookup_entries_rule.
  cbn [String.eqb Ascii.eqb Bool.eqb]. rewrite Hv, Hts.
  cbn [option_map value_rule String.eqb Ascii.eqb Bool.eqb andb].
  destruct (isFinite v); cbn [is_number truthy_prop andb].
  - destruct ts as [| |n| | |]; try exact Ht; reflexivity.
  - destruct ts as [| |n| | |]; try exact Ht; reflexivity.
Qed.

(** The theorem on [{"current": {"value": 23.4, "ts": 1700000000000}}]. *)
Lemma minusOneDeg_keeps_valid_witness :
  validate (minusOneDeg doc_cold) = true.
Proof.
  exact (proj1 (minusOneDeg_keeps_valid doc_cold eq_refl)).
Defined.

Lemma no_finite_value_obj (props : list (string * json)) :
  no_finite_value (JObj props)
  = forallb (fun kv =>
               negb ((fst kv =? "value")%string
                     && match snd kv with JNum n => isFinite n | _ => false end)
               && no_finite_value (snd kv)) props.
Proof. reflexivity. Qed.

Lemma no_finite_value_arr (items : list json) :
  no_finite_value (JArr items) = forallb no_finite_value items.
Proof. reflexivity. Qed.

Lemma map_id_in {A : Type} (f : A -> A) (l : list A) :
  (forall a, In a l -> f a = a) -> map f l = l.
Proof.
  induction l as [|a l IH]; intros H; [reflexivity|].
  simpl. rewrite (H a (or_introl eq_refl)), IH; [reflexivity|].
  intros b Hb. apply H. right. exact Hb.
Qed.

(** X20.  Where there is nothing to adjust, nothing changes: a document with
    no key named [value] bound to a finite number (and no key named
    [__proto__]) comes out of [minusOneDeg] as it went in, whatever else it
    holds: strings, booleans, [null], numbers under other keys or in arrays,
    a [value] that is a string or is not finite. *)
Theorem minusOneDeg_nothing_to_adjust (d : json) :
  no_proto_keys d = true -> no_finite_value d = true -> minusOneDeg d = d.
Proof.
  induction d as [| b | n | s | items IH | props IH] using json_ind;
    intros Hp Hv; try reflexivity.
  - rewrite minusOneDeg_arr. f_equal.
    rewrite no_proto_keys_arr, forallb_forall in Hp.
    rewrite no_finite_value_arr, forallb_forall in Hv.
    rewrite Forall_forall in IH.
    apply map_id_in. intros v Hin. apply IH; auto.
  - rewrite minusOneDeg_obj. f_equal.
    rewrite (entries_rule_keyed props (no_proto_keys_top props Hp)).
    rewrite no_proto_keys_obj, forallb_forall in Hp.
    rewrite no_finite_value_obj, forallb_forall in Hv.
    rewrite Forall_forall in IH.
    apply map_id_in. intros [k v] Hin.
    specialize (Hp _ Hin). specialize (Hv _ Hin). specialize (IH _ Hin).
    cbn [fst snd] in *.
    apply andb_true_iff in Hp. destruct Hp as [_ Hp].
    apply andb_true_iff in Hv. destruct Hv as [Hkv Hv].
    unfold keyed. cbn [fst snd]. f_equal.
    destruct v as [| |n| | |]; try reflexivity.
    + cbn [value_rule]. apply negb_true_iff in Hkv. rewrite Hkv. reflexivity.
    + exact (IH Hp Hv).
    + exact (IH Hp Hv).
Qed.

(** The theorem on [{"current": {"value": "n/a", "ts": 1700000000000}}]. *)
Lemma minusOneDeg_nothing_to_adjust_witness :
  minusOneDeg doc_no_reading = doc_no_reading.
Proof.
  exact (minusOneDeg_nothing_to_adjust doc_no_reading eq_refl eq_refl).
Defined.

(* ===================================================================== *)
(** * The environment (lines 5-7 and 163-165) *)
(* ===================================================================== *)

Lemma strip_final_slash_cons (c : ascii) (s : string) :
  strip_final_slash (String c s)
  = if (c =? "/")%char && (s =? "")%string then ""
    else String c (strip_final_slash s).
Proof.
  destruct s as [|x s].
  - destruct (c =? "/")%char eqn:E.
    + apply Ascii.eqb_eq in E. subst c. reflexivity.
    + destruct c as [[] [] [] [] [] [] [] []]; try reflexivity; discriminate.
  - rewrite andb_false_r.
    destruct c as [[] [] [] [] [] [] [] []]; reflexivity.
Qed.

Lemma strip_final_slash_app (t : string) : strip_final_slash (t ++ "/") = t.
Proof.
  induction t as [|c t IH]; [reflexivity|].
  cbn [append]. rewrite strip_final_slash_cons, IH.
  destruct (t ++ "/")%string eqn:E; [destruct t; discriminate|].
  rewrite andb_false_r. reflexivity.
Qed.

Lemma strip_final_slash_none (s : string) :
  ends_with_slash s = false -> strip_final_slash s = s.
Proof.
  induction s as [|c s IH]; [reflexivity|].
  intros H. rewrite strip_final_slash_cons.
  destruct s as [|x s].
  - cbn [ends_with_slash] in H. rewrite H. reflexivity.
  - rewrite andb_false_r. f_equal. apply IH. exact H.
Qed.

(** X21.  The base URL and the output directory.  With [BASE_URL] unset or
    empty the base is [https://arcosland.pages.dev]; a [BASE_URL] that ends
    with a slash loses that one slash and nothing else (of two final
    slashes one stays); any other [BASE_URL] is used as it is.  [OUT_DIR]
    is [public] when unset or empty, and as given otherwise. *)
Theorem environment_defaults (w : world) :
  (BASE_URL_env w = None \/ BASE_URL_env w = Some "" ->
   BASE_URL w = "https://arcosland.pages.dev") /\
  (forall t, BASE_URL_env w = Some (t ++ "/") -> BASE_URL w = t) /\
  (forall b, BASE_URL_env w = Some b -> b <> "" -> ends_with_slash b = false ->
             BASE_URL w = b) /\
  (OUT_DIR_env w = None \/ OUT_DIR_env w = Some "" -> OUT_DIR w = "public") /\
  (forall d, OUT_DIR_env w = Some d -> d <> "" -> OUT_DIR w = d).
Proof.
  unfold BASE_URL, OUT_DIR. split; [|split; [|split; [|split]]].
  - intros [-> | ->]; reflexivity.
  - intros t ->. destruct t as [|c t]; [reflexivity|].
    cbn [append env_or]. apply (strip_final_slash_app (String c t)).
  - intros b -> Hne Hs. destruct b as [|c b]; [congruence|].
    cbn [env_or]. exact (strip_final_slash_none _ Hs).
  - intros [-> | ->]; reflexivity.
  - intros d -> Hne. destruct d; [congruence | reflexivity].
Qed.

(* ===================================================================== *)
(** * The quiet run of the second variant *)
(* ===================================================================== *)

Lemma of_Z_24_26 : of_Z 24 = Finite (24 * scale) /\ of_Z 26 = Finite (26 * scale).
Proof. split; vm_compute; reflexivity. Qed.

(** X23.  The quiet run of the second variant: on a document that passes the
    validation, whose timestamp [new Date] accepts and whose reading is
    finite and from 24 to 26 (both included), with a file system that
    accepts every write, the effects are those of the fetch, the one line
    [Temperatura dentro do intervalo], the directory when it is absent, the
    seven files of the raw document and the closing line, with no POST; the
    status is 0; and the value the line and [current.txt] show is from
    24.00 to 26.00. *)
Theorem in_range_run_is_quiet
  (rt : runtime) (w : world) (c : ascii) (s : string)
  (raw current : json) (t : number) (tsBr : string) :
  let fetched := fetchJSONWithRetry (server w) (String c s) None None None in
  RTDB_URL w = Some (String c s) ->
  snd fetched = Resolved raw ->
  validate raw = true ->
  prop raw "current" = Some current ->
  prop current "value" = Some (JNum t) ->
  Date_toLocaleString rt (prop current "ts") = inr tsBr ->
  isFinite t = true ->
  ltb t (of_Z 24) || gtb t (of_Z 26) = false ->
  (forall p, fs_throws w p = None) ->
  run_alert rt w
  = ((fst fetched
      ++ [Console "log" ("Temperatura dentro do intervalo: " ++ toFixed t 2 ++ " °C")]
      ++ directory w
      ++ published rt w raw (toFixed t 2) tsBr "JSON completo" (prop current "ts")
      ++ [Console "log" ("✅ OK: arquivos gerados em " ++ OUT_DIR w)])%list,
     0) /\
  exists N, 2400 <= N <= 2600 /\ toFixed t 2 = two_decimals N.
Proof.
  intros fetched Hurl Hres Hval Hcur Hv Hdate Hfin Hin Hfs.
  split.
  - rewrite (run_alert_valid rt w c s raw current tsBr Hurl Hres Hval Hcur
               Hdate Hfs).
    cbv zeta. rewrite Hv. unfold check_threshold, current_string.
    rewrite Hfin, Hin. reflexivity.
  - destruct t as [| |n]; [discriminate Hfin | discriminate Hfin |].
    destruct of_Z_24_26 as [E24 E26]. rewrite E24, E26 in Hin.
    apply orb_false_iff in Hin. destruct Hin as [H1 H2].
    unfold gtb in H2. cbn [ltb] in H1, H2.
    apply Z.ltb_ge in H1, H2.
    assert (Hs : 0 < scale) by reflexivity.
    assert (Hb : below_1e21 n) by (unfold below_1e21; lia).
    exists (hundredths (Z.abs n)).
    rewrite (toFixed_2_text n Hb).
    destruct (n <? 0) eqn:Hneg; [apply Z.ltb_lt in Hneg; lia|].
    split; [|reflexivity].
    rewrite Z.abs_eq by lia. unfold hundredths. split.
    + apply Z.div_le_lower_bound; lia.
    + assert (H : (2 * 100 * n + scale) / (2 * scale) < 2601)
        by (apply Z.div_lt_upper_bound; lia).
      lia.
Qed.

(** The theorem on a reading of 25. *)
Lemma in_range_run_is_quiet_witness :
  let w := world_serving doc_mild (PostResponse 202 "") in
  snd (run_alert stub_runtime w) = 0 /\
  filter is_post (fst (run_alert stub_runtime w)) = [].
Proof.
  intros w.
  pose proof (in_range_run_is_quiet stub_runtime w
                "h" "ttps://db.example/aquario.json" doc_mild
                (JObj [("value", JNum (of_Z 25));
                       ("ts", JNum (of_Z 1700000000000))])
                (of_Z 25) "14/11/2023, 19:13:20"
                eq_refl eq_refl eq_refl eq_refl eq_refl eq_refl eq_refl eq_refl
                (fun _ => eq_refl)) as H.
  cbv zeta in H. destruct H as [Hrun _].
  rewrite Hrun. cbn [fst snd]. split; [reflexivity|].
  rewrite !filter_app. change (fetchJSONWithRetry (server w)) with
    (fetchJSONWithRetry (fun _ : Z => Response 200 (Parsed doc_mild))).
  rewrite fetch_posts_nothing. unfold directory. reflexivity.
Defined.
